(** * AutoFormFiller: the retrieval-and-answer pipeline of [backend_python/server.py]

    A shallow embedding of the Python server: chunking, the rebuild of the
    vector index, the query pipeline, the LLM-or-extraction answer synthesis
    and the accepted-answer log, followed by the properties of these
    functions.

    Conventions.
    - A Python [str] is a list of characters; a character is a code point
      below 256 (the Latin-1 range), which is what [ascii] holds.
    - Python integers are [Z]; list positions are [nat].
    - A numpy float is a rational number [Q]: the pipeline only multiplies,
      adds and compares scores.  The L2 normalisation and the sort of numpy
      are capabilities of the environment ([Env]).
    - External capabilities (the sentence encoder, Ollama, the clock) are
      fields of [Env]; a call that can raise returns a [result].
    - A text file is the list of its characters: a write in text mode
      stores the text as given (the line separator of the platform is the
      newline), a read in text mode translates the line ends
      ([read_text]). *)

From Stdlib Require Import Ascii String.
From Stdlib Require Import ZArith QArith Lia Bool Arith List.
From Stdlib Require Import Permutation Sorted.
Import ListNotations.

Definition str := list ascii.
Coercion list_ascii_of_string : string >-> list.

(** A list of string literals. *)
Definition strs (l : list string) : list str := map list_ascii_of_string l.

Close Scope Q_scope.
Open Scope string_scope.
Open Scope list_scope.
Open Scope nat_scope.

(* ====================================================================== *)
(** * Python text primitives *)
(* ====================================================================== *)

Module Py.

(** [len(s)]. *)
Definition len {A} (s : list A) : Z := Z.of_nat (length s).

(** Characters used by the source's literals. *)
Definition nl : ascii := "010"%char.
Definition cr : ascii := "013"%char.
Definition dq : ascii := "034"%char.

(** [str.isspace] on one code point below 256: TAB..CR, FS..US, SPACE,
    NEL and NBSP. *)
Definition isspace (c : ascii) : bool :=
  let n := nat_of_ascii c in
  ((9 <=? n) && (n <=? 13)) || ((28 <=? n) && (n <=? 32))
  || (n =? 133) || (n =? 160).

Definition is_upper (c : ascii) : bool :=
  let n := nat_of_ascii c in (65 <=? n) && (n <=? 90).

Definition is_lower (c : ascii) : bool :=
  let n := nat_of_ascii c in (97 <=? n) && (n <=? 122).

Definition is_digit (c : ascii) : bool :=
  let n := nat_of_ascii c in (48 <=? n) && (n <=? 57).

(** [str.lower] on one code point below 256. *)
Definition lower_char (c : ascii) : ascii :=
  let n := nat_of_ascii c in
  if is_upper c then ascii_of_nat (n + 32)
  else if (192 <=? n) && (n <=? 222) && negb (n =? 215) then ascii_of_nat (n + 32)
  else c.

Definition lower (s : str) : str := map lower_char s.

Fixpoint lstrip (s : str) : str :=
  match s with
  | c :: s' => if isspace c then lstrip s' else s
  | [] => []
  end.

Definition rstrip (s : str) : str := rev (lstrip (rev s)).

(** [s.strip()]. *)
Definition strip (s : str) : str := rstrip (lstrip s).

(** Truth value of a string: [if s:]. *)
Definition truthy (s : str) : bool :=
  match s with [] => false | _ :: _ => true end.

Definition eqb_char (a b : ascii) : bool := Ascii.eqb a b.

(** [s.startswith(p)]. *)
Fixpoint startswith (p s : str) : bool :=
  match p, s with
  | [], _ => true
  | a :: p', b :: s' => eqb_char a b && startswith p' s'
  | _ :: _, [] => false
  end.

(** [needle in hay]. *)
Fixpoint contains (needle hay : str) : bool :=
  startswith needle hay ||
  match hay with
  | [] => false
  | _ :: hay' => contains needle hay'
  end.

(** [any(k in hay for k in keywords)]. *)
Definition contains_any (keywords : list str) (hay : str) : bool :=
  existsb (fun k => contains k hay) keywords.

(** Index normalisation of a slice bound: a negative bound counts from the
    end, and every bound is clamped to [0, len]. *)
Definition clamp_index (n i : Z) : Z :=
  if (i <? 0)%Z then Z.max (i + n) 0 else Z.min i n.

(** [s[start:stop]]. *)
Definition slice {A} (s : list A) (start stop : Z) : list A :=
  let n := len s in
  let a := clamp_index n start in
  let b := clamp_index n stop in
  firstn (Z.to_nat (b - a)) (skipn (Z.to_nat a) s).

(** [sep.join(parts)]. *)
Fixpoint join (sep : str) (parts : list str) : str :=
  match parts with
  | [] => []
  | [p] => p
  | p :: rest => p ++ sep ++ join sep rest
  end.

(** [s.split(sep)] for a non-empty separator: the pieces between the
    leftmost non-overlapping occurrences of [sep]; [acc] holds the current
    piece reversed.  [fuel] bounds the scan and is the length of [s]. *)
Fixpoint split_aux (sep : str) (fuel : nat) (s : str) (acc : str) : list str :=
  match fuel with
  | O => [rev acc ++ s]
  | S fuel' =>
      if startswith sep s then
        rev acc :: split_aux sep fuel' (skipn (length sep) s) []
      else
        match s with
        | [] => [rev acc]
        | c :: s' => split_aux sep fuel' s' (c :: acc)
        end
  end.

Definition split (sep s : str) : list str := split_aux sep (S (length s)) s [].

(** [s.split()]: the maximal runs of non-whitespace characters. *)
Fixpoint split_ws_aux (s : str) (acc : str) : list str :=
  match s with
  | [] => match acc with [] => [] | _ => [rev acc] end
  | c :: s' =>
      if isspace c then
        match acc with
        | [] => split_ws_aux s' []
        | _ => rev acc :: split_ws_aux s' []
        end
      else split_ws_aux s' (c :: acc)
  end.

Definition split_ws (s : str) : list str := split_ws_aux s [].

(** [sep * n]. *)
Definition times (c : ascii) (n : nat) : str := repeat c n.

End Py.

(* ====================================================================== *)
(** * Configuration *)
(* ====================================================================== *)

Definition EMBEDDING_MODEL : str := "sentence-transformers/all-MiniLM-L6-v2".
Definition OLLAMA_MODEL : str := "llama3.1:8b".
Definition CHUNK_SIZE : Z := 1000.
Definition CHUNK_OVERLAP : Z := 200.
Definition TOP_K : nat := 3.

(* ====================================================================== *)
(** * [chunk_text] *)
(* ====================================================================== *)

(** One pass of the body of the [while] loop: the window is cut, trimmed
    and kept when non-empty; the start moves by [chunk_size - overlap]. *)
Definition chunk_step (text : str) (chunk_size overlap : Z)
    (start : Z) (chunks : list str) : Z * list str :=
  let end_ := Z.min (start + chunk_size) (Py.len text) in
  let chunk := Py.strip (Py.slice text start end_) in
  let chunks' := if Py.truthy chunk then chunks ++ [chunk] else chunks in
  ((start + (chunk_size - overlap))%Z, chunks').

(** The [while start < len(text)] loop, run for at most [fuel] passes.
    [None] means that the loop is still running when the fuel is spent. *)
Fixpoint chunk_loop (fuel : nat) (text : str) (chunk_size overlap : Z)
    (start : Z) (chunks : list str) : option (list str) :=
  if (start <? Py.len text)%Z then
    match fuel with
    | O => None
    | S fuel' =>
        let '(start', chunks') := chunk_step text chunk_size overlap start chunks in
        chunk_loop fuel' text chunk_size overlap start' chunks'
    end
  else Some chunks.

Definition chunk_text_fuel (fuel : nat) (text : str) (chunk_size overlap : Z)
  : option (list str) :=
  chunk_loop fuel text chunk_size overlap 0 [].

(** [chunk_text(text)] with the default parameters, as the rebuild calls
    it: the step is 800, so [length text] passes are enough. *)
Definition chunk_text (text : str) : list str :=
  match chunk_text_fuel (length text) text CHUNK_SIZE CHUNK_OVERLAP with
  | Some chunks => chunks
  | None => []
  end.

(** The windows the loop visits, stated from the description of the
    function: starts [0, step, 2*step, ...] below the length of the text. *)
Definition window_count (n step : Z) : nat := Z.to_nat ((n + step - 1) / step).

Definition window_starts (text : str) (chunk_size overlap : Z) : list Z :=
  map (fun k => (Z.of_nat k * (chunk_size - overlap))%Z)
      (seq 0 (window_count (Py.len text) (chunk_size - overlap))).

Definition windows (text : str) (chunk_size overlap : Z) : list str :=
  filter Py.truthy
    (map (fun start => Py.strip (Py.slice text start (start + chunk_size)))
         (window_starts text chunk_size overlap)).

(** The windows still to come when the loop stands at [start]. *)
Definition windows_from (text : str) (chunk_size overlap : Z) (start : Z) : list str :=
  filter Py.truthy
    (map (fun k => let s := (start + Z.of_nat k * (chunk_size - overlap))%Z in
                   Py.strip (Py.slice text s (s + chunk_size)))
         (seq 0 (window_count (Py.len text - start) (chunk_size - overlap)))).

(* ====================================================================== *)
(** * Regular expressions of the fallback extractor *)
(* ====================================================================== *)

(** The fragment of Python's [re] syntax that the source uses, with the
    backtracking semantics of [re]: alternatives are tried left to right,
    repetitions are greedy, and there is at most one capture group. *)
Module Re.

Inductive regex : Type :=
| Eps                                   (* empty pattern *)
| Chr (c : ascii)                       (* a literal character *)
| Cls (p : ascii -> bool)               (* a character class [...] *)
| Rep (p : ascii -> bool) (lo : nat)    (* greedy [...]{lo,} *)
| Cat (r1 r2 : regex)                   (* r1 r2 *)
| Alt (r1 r2 : regex)                   (* r1|r2 *)
| Opt (r : regex)                       (* (?:r)? greedy *)
| Grp (r : regex)                       (* (r), capture group 1 *)
| Bos                                   (* ^ *)
| Eos.                                  (* $ *)

Fixpoint Lit (s : str) : regex :=
  match s with
  | [] => Eps
  | c :: s' => Cat (Chr c) (Lit s')
  end.

Definition orelse {A} (a b : option A) : option A :=
  match a with Some _ => a | None => b end.

(** Greedy repetition of a class, at least [lo] times: the longest run is
    tried first, then shorter ones. *)
Fixpoint rep {A} (p : ascii -> bool) (lo : nat) (s : str)
    (k : str -> option A) : option A :=
  let stop := if lo =? 0 then k s else None in
  match s with
  | c :: s' => if p c then orelse (rep p (pred lo) s' k) stop else stop
  | [] => stop
  end.

(** [bt r total s cap k]: match [r] at the front of [s], the rest of a
    subject of length [total]; on success call [k] with what is left and
    the text of group 1; if [k] fails, backtrack. *)
Fixpoint bt {A} (r : regex) (total : nat) (s : str) (cap : option str)
    (k : str -> option str -> option A) : option A :=
  match r with
  | Eps => k s cap
  | Chr c =>
      match s with
      | x :: s' => if Py.eqb_char x c then k s' cap else None
      | [] => None
      end
  | Cls p =>
      match s with
      | x :: s' => if p x then k s' cap else None
      | [] => None
      end
  | Rep p lo => rep p lo s (fun s' => k s' cap)
  | Cat r1 r2 => bt r1 total s cap (fun s1 cap1 => bt r2 total s1 cap1 k)
  | Alt r1 r2 => orelse (bt r1 total s cap k) (bt r2 total s cap k)
  | Opt r1 => orelse (bt r1 total s cap k) (k s cap)
  | Grp r1 =>
      bt r1 total s cap
         (fun s1 _ => k s1 (Some (firstn (length s - length s1) s)))
  | Bos => if length s =? total then k s cap else None
  | Eos =>
      match s with
      | [] => k s cap
      | [c] => if Py.eqb_char c Py.nl then k s cap else None
      | _ => None
      end
  end.

(** A match object: [group(0)], [group(1)] and the text after the match. *)
Record mobj : Type := { group0 : str; group1 : option str; after : str }.

Definition match_here (r : regex) (total : nat) (s : str) : option mobj :=
  bt r total s None
     (fun rest cap =>
        Some {| group0 := firstn (length s - length rest) s;
                group1 := cap; after := rest |}).

(** [re.match(r, s)]. *)
Definition match_ (r : regex) (s : str) : option mobj :=
  match_here r (length s) s.

Fixpoint search_from (r : regex) (total : nat) (s : str) : option mobj :=
  match match_here r total s with
  | Some m => Some m
  | None =>
      match s with
      | [] => None
      | _ :: s' => search_from r total s'
      end
  end.

(** [re.search(r, s)]: the leftmost match. *)
Definition search (r : regex) (s : str) : option mobj :=
  search_from r (length s) s.

(** [re.findall(r, s)] for a pattern without group: the texts of the
    non-overlapping matches, left to right. *)
Fixpoint findall_aux (fuel : nat) (r : regex) (total : nat) (s : str) : list str :=
  match fuel with
  | O => []
  | S fuel' =>
      match search_from r total s with
      | None => []
      | Some m =>
          group0 m ::
          match group0 m, after m with
          | [], [] => []
          | [], _ :: rest => findall_aux fuel' r total rest
          | _ :: _, rest => findall_aux fuel' r total rest
          end
      end
  end.

Definition findall (r : regex) (s : str) : list str :=
  findall_aux (S (length s)) r (length s) s.

(** [re.split(r'[...]+', s)] for a class: the pieces between the maximal
    runs of class characters. *)
Fixpoint split_runs_aux (p : ascii -> bool) (s : str) (acc : str) : list str :=
  match s with
  | [] => [rev acc]
  | c :: s' =>
      if p c then rev acc :: skip_run p s'
      else split_runs_aux p s' (c :: acc)
  end
with skip_run (p : ascii -> bool) (s : str) : list str :=
  match s with
  | [] => [[]]
  | c :: s' =>
      if p c then skip_run p s'
      else split_runs_aux p s' [c]
  end.

Definition split_runs (p : ascii -> bool) (s : str) : list str :=
  split_runs_aux p s [].

(** The classes of the source's patterns. *)
Definition is_alpha (c : ascii) : bool := Py.is_upper c || Py.is_lower c.
Definition is_alnum (c : ascii) : bool := is_alpha c || Py.is_digit c.
Definition one_of (cs : str) (c : ascii) : bool := existsb (Py.eqb_char c) cs.

(** [[A-Z][a-z]+] *)
Definition cap_word : regex := Cat (Cls Py.is_upper) (Rep Py.is_lower 1).
(** [\s+] *)
Definition ws1 : regex := Rep Py.isspace 1.

(** [^([A-Z][a-z]+\s+[A-Z][a-z]+(?:\s+[A-Z][a-z]+)?)\s*$] *)
Definition header_name : regex :=
  Cat Bos
    (Cat (Grp (Cat cap_word (Cat ws1 (Cat cap_word (Opt (Cat ws1 cap_word))))))
         (Cat (Rep Py.isspace 0) Eos)).

(** [(?:Name|NAME|name)[:\s]+([A-Z][a-z]+\s+[A-Z][a-z]+)] *)
Definition labelled_name : regex :=
  Cat (Alt (Lit "Name") (Alt (Lit "NAME") (Lit "name")))
    (Cat (Rep (fun c => one_of ":" c || Py.isspace c) 1)
         (Grp (Cat cap_word (Cat ws1 cap_word)))).

(** [\n([A-Z][a-z]+\s+[A-Z][a-z]+)\n] *)
Definition own_line_name : regex :=
  Cat (Chr Py.nl) (Cat (Grp (Cat cap_word (Cat ws1 cap_word))) (Chr Py.nl)).

(** [[a-zA-Z0-9._%+-]+@[a-zA-Z0-9.-]+\.[a-zA-Z]{2,}] *)
Definition email : regex :=
  Cat (Rep (fun c => is_alnum c || one_of "._%+-" c) 1)
    (Cat (Chr "@")
       (Cat (Rep (fun c => is_alnum c || one_of ".-" c) 1)
          (Cat (Chr ".") (Rep is_alpha 2)))).

(** [[+]?\d[\d\s()-]{8,}] *)
Definition phone : regex :=
  Cat (Opt (Cls (one_of "+")))
    (Cat (Cls Py.is_digit)
         (Rep (fun c => Py.is_digit c || Py.isspace c || one_of "()-" c) 8)).

(** [https?://[^\s,)]+] *)
Definition url : regex :=
  Cat (Lit "http")
    (Cat (Opt (Chr "s"))
       (Cat (Lit "://")
            (Rep (fun c => negb (Py.isspace c || one_of ",)" c)) 1))).

End Re.

(* ====================================================================== *)
(** * Results of calls that can raise *)
(* ====================================================================== *)

Inductive result (A : Type) : Type :=
| Ok (a : A)
| Raise (msg : str).
Arguments Ok {A} a.
Arguments Raise {A} msg.

Definition bind {A B} (r : result A) (k : A -> result B) : result B :=
  match r with
  | Ok a => k a
  | Raise msg => Raise msg
  end.

Notation "x <- r ;; k" := (bind r (fun x => k))
  (at level 61, r at next level, right associativity).

(** [l[i]] on a list or array; for an exception raised by Python or numpy
    itself the message is the name of its class. *)
Definition index {A} (l : list A) (i : nat) : result A :=
  match nth_error l i with
  | Some a => Ok a
  | None => Raise "IndexError"
  end.

Fixpoint traverse {A B} (f : A -> result B) (l : list A) : result (list B) :=
  match l with
  | [] => Ok []
  | a :: l' => b <- f a ;; bs <- traverse f l' ;; Ok (b :: bs)
  end.

(* ====================================================================== *)
(** * The environment: embedding model, numpy, Ollama, clock *)
(* ====================================================================== *)

Definition vec := list Q.
Definition matrix := list vec.

(** The loaded sentence-transformers model: [model.encode(texts)]. *)
Record Encoder : Type := { encode : list str -> result matrix }.

Record Env : Type := {
  (** [SentenceTransformer(EMBEDDING_MODEL)] *)
  new_encoder : result Encoder;
  (** [m / np.linalg.norm(m, axis=1, keepdims=True)] *)
  normalize_rows : matrix -> result matrix;
  (** [v / np.linalg.norm(v)] *)
  normalize : vec -> vec;
  (** [np.argsort(v)] *)
  argsort : list Q -> list nat;
  (** [ollama.generate(model=OLLAMA_MODEL, prompt=p, ...)['response']] *)
  ollama_generate : str -> result str;
  (** [datetime.now().isoformat()] *)
  now : str
}.

(** [check_llama_available()] asks Ollama afresh on each call: the list
    holds the outcomes of the successive calls made while one request is
    served ([False] when Ollama cannot be reached). *)
Definition check_llama_available (w : list bool) : bool * list bool :=
  match w with
  | b :: w' => (b, w')
  | [] => (false, [])
  end.

(* ====================================================================== *)
(** * [generate_answer] *)
(* ====================================================================== *)

Definition hint_text (partial_input : str) : str :=
  if Py.truthy partial_input then
    [Py.nl] ++ "User's Partial Input (as hint): " ++ partial_input ++ [Py.nl]
    ++ "Note: The user typed '" ++ partial_input
    ++ "' - use this to correct or complete the answer if relevant (e.g., if they typed 'medi' and email contains 'medi', prioritize that email)."
  else [].

Definition multiple_hint (field_context : str) : str :=
  if Py.contains_any (strs ["examples"; "links"; "websites"; "multiple"; "list"])
                     (Py.lower field_context)
  then [Py.nl] ++ "- If the field asks for multiple items (e.g., "
       ++ [Py.dq] ++ "Examples:" ++ [Py.dq] ++ ", " ++ [Py.dq] ++ "Links:" ++ [Py.dq]
       ++ "), provide ALL relevant items separated by commas"
  else [].

Definition prompt (query context field_context partial_input : str) : str :=
  "You are a form-filling assistant. Based on the provided context, answer the question concisely."
  ++ [Py.nl; Py.nl] ++ "Context:" ++ [Py.nl] ++ context ++ [Py.nl; Py.nl]
  ++ "Field Context: "
  ++ (if Py.truthy field_context then field_context else "General field")
  ++ [Py.nl] ++ "Question: " ++ query ++ hint_text partial_input ++ [Py.nl; Py.nl]
  ++ "Instructions:" ++ [Py.nl]
  ++ "- Provide ONLY the answer for the form field" ++ [Py.nl]
  ++ "- Keep it brief (1-3 words for short fields, 1-2 sentences for text areas)"
  ++ multiple_hint field_context ++ [Py.nl]
  ++ "- If the user provided partial input, use it as a hint to correct or complete the answer"
  ++ [Py.nl]
  ++ "- If information is not in context, respond with exactly "
  ++ [Py.dq] ++ "Not in DB" ++ [Py.dq] ++ [Py.nl]
  ++ "- No explanations or extra text" ++ [Py.nl; Py.nl] ++ "Answer:".

(** The branch of the [if]/[elif] chain of the fallback that is taken. *)
Inductive category : Type := Name | Email | Phone | Url | Generic.

Definition name_keywords : list str :=
  strs ["name"; "called"; "who"; "your name"; "my name"].
Definition email_keywords : list str := strs ["email"; "mail"].
Definition phone_keywords : list str :=
  strs ["phone"; "mobile"; "contact"; "number"].
Definition url_keywords : list str :=
  strs ["website"; "link"; "github"; "linkedin"; "portfolio"; "url"].

(** The conditions of the chain, in the order of the source. *)
Definition classify (query field_context : str) : category :=
  let query_lower := Py.lower query in
  if Py.contains_any name_keywords query_lower then Name
  else if Py.contains_any email_keywords query_lower then Email
  else if Py.contains_any phone_keywords query_lower then Phone
  else if Py.contains_any url_keywords
            (query_lower ++ " " ++ Py.lower field_context) then Url
  else Generic.

(** The classification as the specification words it: every category is
    tested on the lower-cased concatenation of query and field context. *)
Definition classify_spec (query field_context : str) : category :=
  let combined := Py.lower (query ++ " " ++ field_context) in
  if Py.contains_any name_keywords combined then Name
  else if Py.contains_any email_keywords combined then Email
  else if Py.contains_any phone_keywords combined then Phone
  else if Py.contains_any url_keywords combined then Url
  else Generic.

(** The first non-empty line of the context, trimmed. *)
Definition first_line (context : str) : str :=
  let lines :=
    map Py.strip
        (filter (fun line => Py.truthy (Py.strip line))
                (Re.split_runs (Re.one_of [Py.nl; Py.cr]) context)) in
  match lines with
  | l :: _ => l
  | [] => []
  end.

(** The body of the name branch; [None] when it falls through. *)
Fixpoint try_name_patterns (patterns : list Re.regex) (first_part : str) : option str :=
  match patterns with
  | [] => None
  | pattern :: rest =>
      match Re.search pattern first_part with
      | Some m =>
          let name := Py.strip (match Re.group1 m with Some g => g | None => [] end) in
          if 2 <=? length (Py.split_ws name) then Some name
          else try_name_patterns rest first_part
      | None => try_name_patterns rest first_part
      end
  end.

Definition extract_name (context : str) : option str :=
  match Re.match_ Re.header_name (first_line context) with
  | Some m => Some (Py.strip (match Re.group1 m with Some g => g | None => [] end))
  | None =>
      try_name_patterns [Re.labelled_name; Re.own_line_name] (firstn 300 context)
  end.

(** The body of the email branch. *)
Definition extract_email (context partial_input : str) : option str :=
  match Re.findall Re.email context with
  | [] => None
  | (first :: _) as email_matches =>
      if Py.truthy partial_input then
        match filter (fun e => Py.contains (Py.lower partial_input) (Py.lower e))
                     email_matches with
        | m :: _ => Some m
        | [] => Some first
        end
      else Some first
  end.

(** The body of the phone branch. *)
Definition extract_phone (context : str) : option str :=
  match Re.search Re.phone context with
  | Some m => Some (Py.strip (Re.group0 m))
  | None => None
  end.

Definition mentions (word query_lower field_context : str) : bool :=
  Py.contains word query_lower || Py.contains word (Py.lower field_context).

(** The body of the URL branch. *)
Definition extract_url (query_lower context field_context : str) : option str :=
  let urls := Re.findall Re.url context in
  let main_links :=
    if Py.contains_any (strs ["example"; "examples"; "links"; "websites"])
                       (Py.lower field_context)
    then filter (fun url =>
                   Py.contains_any
                     (strs ["github.com"; "linkedin.com"; "portfolio"; "render.com"; "vercel.app"])
                     (Py.lower url)) urls
    else [] in
  match main_links with
  | _ :: _ => Some (Py.join ", " (firstn 3 main_links))
  | [] =>
      let github :=
        if mentions "github" query_lower field_context
        then filter (fun u => Py.contains "github.com" (Py.lower u)) urls else [] in
      match github with
      | g :: _ => Some g
      | [] =>
          let linkedin :=
            if mentions "linkedin" query_lower field_context
            then filter (fun u => Py.contains "linkedin.com" (Py.lower u)) urls else [] in
          match linkedin with
          | l :: _ => Some l
          | [] =>
              let portfolio :=
                if mentions "portfolio" query_lower field_context
                then filter (fun u => negb (Py.contains "github.com" (Py.lower u))
                                      && negb (Py.contains "linkedin.com" (Py.lower u)))
                            urls
                else [] in
              match portfolio with
              | p :: _ => Some p
              | [] =>
                  match urls with
                  | u :: _ => Some u
                  | [] => None
                  end
              end
          end
      end
  end.

(** General extraction: the first sentence that contains a word of the
    query, cut to 200 characters. *)
Definition extract_general (query_lower context : str) : str :=
  let sentences := Py.split "." context in
  let relevant :=
    map Py.strip
        (filter (fun s => existsb (fun word => Py.contains word (Py.lower s))
                                  (Py.split_ws query_lower))
                sentences) in
  match relevant with
  | r :: _ => firstn 200 r
  | [] => "Not in DB"
  end.

(** The rule-based part of [generate_answer] (from [# Fallback] on). *)
Definition fallback_extraction (query context field_context partial_input : str) : str :=
  let query_lower := Py.lower query in
  let found :=
    match classify query field_context with
    | Name => extract_name context
    | Email => extract_email context partial_input
    | Phone => extract_phone context
    | Url => extract_url query_lower context field_context
    | Generic => None
    end in
  match found with
  | Some answer => answer
  | None => extract_general query_lower context
  end.

(** Which branch produced the text that [generate_answer] returns. *)
Inductive producer : Type := ByLLM | ByExtraction.

(** [generate_answer], with the branch that produced the answer and the
    availability outcomes still to come. *)
Definition generate_answer_traced (env : Env) (w : list bool)
    (query context field_context partial_input : str)
  : str * producer * list bool :=
  let '(available, w') := check_llama_available w in
  let fallback := fallback_extraction query context field_context partial_input in
  if available then
    match ollama_generate env (prompt query context field_context partial_input) with
    | Ok response => (Py.strip response, ByLLM, w')
    | Raise _ => (fallback, ByExtraction, w')
    end
  else (fallback, ByExtraction, w').

(** [generate_answer(query, context, field_context, partial_input)]. *)
Definition generate_answer (env : Env) (w : list bool)
    (query context field_context partial_input : str) : str * list bool :=
  let '(answer, _, w') :=
    generate_answer_traced env w query context field_context partial_input in
  (answer, w').

(* ====================================================================== *)
(** * The process state and the vector index cache *)
(* ====================================================================== *)

(** One entry of the global [documents] list. *)
Record Doc : Type := {
  content : str;
  source : str;
  chunkIndex : nat;
  totalChunks : nat
}.

(** The module-level globals [encoder], [documents], [embeddings] and
    [vector_db_initialized]. *)
Record State : Type := {
  encoder : option Encoder;
  documents : list Doc;
  embeddings : option matrix;
  vector_db_initialized : bool
}.

(** The state right after the module is loaded. *)
Definition initial_state : State :=
  {| encoder := None; documents := []; embeddings := None;
     vector_db_initialized := false |}.

(** The pickled dictionary of [vector_db/cache.pkl]. *)
Record Cache : Type := {
  cache_documents : list Doc;
  cache_embeddings : option matrix;
  cache_timestamp : str;
  cache_model : str
}.

(** A file of the knowledge base directory: its name, [Path.suffix],
    [is_file()] and what reading it gives.  The PDF, DOCX and text readers
    (lines 100-121) are library calls on the file; the model keeps one
    result per file, [file_text], and does not tell the three readers
    apart. *)
Record KBFile : Type := {
  file_name : str;
  file_suffix : str;
  file_is_file : bool;
  file_text : result str
}.

Definition str_eqb (a b : str) : bool :=
  (length a =? length b) && Py.startswith a b.

Definition supported_suffix (f : KBFile) : bool :=
  existsb (str_eqb (Py.lower (file_suffix f))) (strs [".pdf"; ".txt"; ".docx"]).

(** [extract_text_from_file(file_path)]: the three reader branches in the
    order of the source, each returning the one read result of the file,
    and the [ValueError] of the last branch. *)
Definition extract_text_from_file (f : KBFile) : result str :=
  let ext := Py.lower (file_suffix f) in
  if str_eqb ext ".pdf" then file_text f
  else if str_eqb ext ".docx" then file_text f
  else if str_eqb ext ".txt" then file_text f
  else Raise ("Unsupported file format: " ++ ext).

(** [load_embedding_model()]: the encoder is created on first use and
    kept in the global. *)
Definition load_embedding_model (env : Env) (st : State) : State * result Encoder :=
  match encoder st with
  | Some e => (st, Ok e)
  | None =>
      match new_encoder env with
      | Ok e =>
          ({| encoder := Some e; documents := documents st;
              embeddings := embeddings st;
              vector_db_initialized := vector_db_initialized st |}, Ok e)
      | Raise msg => (st, Raise msg)
      end
  end.

(** [load_vector_db_cache()].  [Some cache] is a cache file whose pickled
    dictionary holds both the [documents] and the [embeddings] key, as
    [save_vector_db_cache] writes it; [None] is a missing file or one that
    [pickle.load] fails on, which leaves the globals as they are.  A
    dictionary without one of the two keys, which this program never
    writes, is not modelled: there the code assigns [documents] (line 166)
    before the [KeyError] on [embeddings] (line 167). *)
Definition load_vector_db_cache (disk : option Cache) (st : State) : State * bool :=
  match disk with
  | Some cache =>
      ({| encoder := encoder st;
          documents := cache_documents cache;
          embeddings := cache_embeddings cache;
          vector_db_initialized := 0 <? length (cache_documents cache) |}, true)
  | None => (st, false)
  end.

(** [save_vector_db_cache()]: what is written to disk. *)
Definition save_vector_db_cache (env : Env) (st : State) : Cache :=
  {| cache_documents := documents st;
     cache_embeddings := embeddings st;
     cache_timestamp := now env;
     cache_model := EMBEDDING_MODEL |}.

(* ====================================================================== *)
(** * [update_vector_db] *)
(* ====================================================================== *)

Record UpdateResponse : Type := {
  upd_status : nat;
  upd_success : bool;
  upd_message : option str;
  upd_documents_count : option nat;
  upd_error : option str
}.

(** The documents made from the chunks of one file. *)
Definition docs_of_chunks (name : str) (chunks : list str) : list Doc :=
  map (fun ic => {| content := snd ic; source := name;
                    chunkIndex := fst ic; totalChunks := length chunks |})
      (combine (seq 0 (length chunks)) chunks).

(** The [for file_path in files] loop: a file whose text cannot be
    extracted is skipped. *)
Fixpoint process_files (files : list KBFile) (docs : list Doc) (all_texts : list str)
  : list Doc * list str :=
  match files with
  | [] => (docs, all_texts)
  | f :: rest =>
      match extract_text_from_file f with
      | Ok text =>
          let chunks := chunk_text text in
          process_files rest (docs ++ docs_of_chunks (file_name f) chunks)
                        (all_texts ++ chunks)
      | Raise _ => process_files rest docs all_texts
      end
  end.

Definition with_documents (st : State) (docs : list Doc) : State :=
  {| encoder := encoder st; documents := docs;
     embeddings := embeddings st;
     vector_db_initialized := vector_db_initialized st |}.

Definition with_embeddings (st : State) (m : option matrix) : State :=
  {| encoder := encoder st; documents := documents st;
     embeddings := m;
     vector_db_initialized := vector_db_initialized st |}.

Definition with_initialized (st : State) (b : bool) : State :=
  {| encoder := encoder st; documents := documents st;
     embeddings := embeddings st;
     vector_db_initialized := b |}.

Definition update_failed (msg : str) : UpdateResponse :=
  {| upd_status := 500; upd_success := false; upd_message := None;
     upd_documents_count := None; upd_error := Some msg |}.

(** [update_vector_db()]: the globals and the cache file after the call,
    and the response.  The assignments to the globals happen in the order
    of the source; the [except] clause only builds the response. *)
Definition update_vector_db (env : Env) (kb : list KBFile)
    (st : State) (disk : option Cache)
  : State * option Cache * UpdateResponse :=
  let files := filter (fun f => file_is_file f && supported_suffix f) kb in
  match files with
  | [] =>
      let st1 := with_initialized (with_embeddings (with_documents st []) None) false in
      (st1, Some (save_vector_db_cache env st1),
       {| upd_status := 200; upd_success := true;
          upd_message := Some ("No files to process" : str);
          upd_documents_count := Some 0; upd_error := None |})
  | _ :: _ =>
      match load_embedding_model env st with
      | (st1, Raise msg) => (st1, disk, update_failed msg)
      | (st1, Ok model) =>
          let '(docs, all_texts) := process_files files [] [] in
          let st2 := with_documents st1 docs in
          match encode model all_texts with
          | Raise msg => (st2, disk, update_failed msg)
          | Ok raw =>
              let st3 := with_embeddings st2 (Some raw) in
              match normalize_rows env raw with
              | Raise msg => (st3, disk, update_failed msg)
              | Ok normed =>
                  let st4 := with_embeddings st3 (Some normed) in
                  let st5 := with_initialized st4 true in
                  (st5, Some (save_vector_db_cache env st4),
                   {| upd_status := 200; upd_success := true;
                      upd_message := Some ("Vector database updated successfully" : str);
                      upd_documents_count := Some (length (documents st4));
                      upd_error := None |})
              end
          end
      end
  end.

(* ====================================================================== *)
(** * [query] *)
(* ====================================================================== *)

Record QueryResponse : Type := {
  status : nat;
  answer : option str;
  provenance : option str;       (* the ['source'] key *)
  confidence : option Q;
  error : option str
}.

Definition personal_keywords : list str :=
  strs ["name"; "email"; "phone"; "mobile"; "contact"; "address"].

(** [is_personal_info] of the source. *)
Definition is_personal_info (query_text field_context : str) : bool :=
  let query_lower := Py.lower query_text in
  let field_lower := if Py.truthy field_context then Py.lower field_context else [] in
  Py.contains_any personal_keywords (query_lower ++ " " ++ field_lower).

(** The dot product of two vectors of the same length. *)
Fixpoint dot (u v : vec) : Q :=
  match u, v with
  | x :: u', y :: v' => (x * y + dot u' v')%Q
  | _, _ => 0%Q
  end.

(** [np.dot(embeddings, query_embedding)]: one score per row. *)
Definition np_dot (m : option matrix) (q : vec) : result (list Q) :=
  match m with
  | None => Raise "TypeError"
  | Some rows =>
      traverse (fun row => if length row =? length q then Ok (dot row q)
                           else Raise "ValueError") rows
  end.

(** [np.argsort(similarities)[::-1][:TOP_K]]. *)
Definition top_indices_of (env : Env) (similarities : list Q) : list nat :=
  firstn TOP_K (rev (argsort env similarities)).

(** The retrieval step of [query]: the pairs (row index, score) of the
    selected chunks, in the order of the source. *)
Definition retrieve (env : Env) (m : option matrix) (q : vec)
  : result (list (nat * Q)) :=
  similarities <- np_dot m q ;;
  let top_indices := top_indices_of env similarities in
  top_scores <- traverse (index similarities) top_indices ;;
  let relevant_indices := firstn (Nat.min TOP_K (length top_indices)) top_indices in
  Ok (combine relevant_indices top_scores).

Definition not_in_db : str := "Not in DB".

Definition query_failed (msg : str) : QueryResponse :=
  {| status := 500; answer := Some not_in_db; provenance := None;
     confidence := None; error := Some msg |}.

(** The part of [query] after the shortcut: semantic search, then answer
    synthesis. *)
Definition query_retrieval (env : Env) (w : list bool) (st : State)
    (query_text field_context partial_input : str)
  : State * QueryResponse :=
  match load_embedding_model env st with
  | (st1, Raise msg) => (st1, query_failed msg)
  | (st1, Ok model) =>
      let enhanced_query :=
        if Py.truthy field_context then field_context ++ ": " ++ query_text
        else query_text in
      let outcome :=
        encoded <- encode model [enhanced_query] ;;
        first <- index encoded 0 ;;
        let query_embedding := normalize env first in
        hits <- retrieve env (embeddings st1) query_embedding ;;
        match hits with
        | [] =>
            Ok {| status := 200; answer := Some not_in_db; provenance := None;
                  confidence := None; error := None |}
        | (_, top_score) :: _ =>
            relevant_docs <- traverse (fun hit => index (documents st1) (fst hit)) hits ;;
            let context := Py.join [Py.nl; Py.nl] (map content relevant_docs) in
            let '(text, w1) :=
              generate_answer env w query_text context field_context partial_input in
            let '(available, _) := check_llama_available w1 in
            Ok {| status := 200; answer := Some text;
                  provenance := Some (if available then "llama-local" : str
                                      else "simple-extraction" : str);
                  confidence := Some top_score; error := None |}
        end in
      match outcome with
      | Ok response => (st1, response)
      | Raise msg => (st1, query_failed msg)
      end
  end.

(** [query()] for the request body [{query, fieldContext, partialInput}];
    a missing key is the empty string. *)
Definition query (env : Env) (w : list bool) (st : State)
    (query_text field_context partial_input : str)
  : State * QueryResponse :=
  if negb (Py.truthy query_text) then
    (st, {| status := 400; answer := None; provenance := None; confidence := None;
            error := Some ("Query is required" : str) |})
  else if negb (vector_db_initialized st) then
    (st, {| status := 200; answer := Some not_in_db; provenance := None;
            confidence := None;
            error := Some ("Vector database not initialized" : str) |})
  else if is_personal_info query_text field_context && (0 <? length (documents st)) then
    let context := Py.join [Py.nl; Py.nl] (map content (firstn 3 (documents st))) in
    let '(text, _) :=
      generate_answer env w query_text context field_context partial_input in
    (st, {| status := 200; answer := Some text;
            provenance := Some ("header-extraction" : str);
            confidence := Some 1%Q; error := None |})
  else query_retrieval env w st query_text field_context partial_input.

(* ====================================================================== *)
(** * [save_accepted_answer] *)
(* ====================================================================== *)

(** The JSON body of [/api/save-accepted]; [None] is a missing key. *)
Record SaveRequest : Type := {
  req_fieldContext : option str;
  req_answer : option str;
  req_partialInput : option str;
  req_timestamp : option str
}.

Record SaveResponse : Type := {
  save_status : nat;
  save_success : bool;
  save_message : option str;
  save_error : option str
}.

Definition get {A} (o : option A) (default : A) : A :=
  match o with Some a => a | None => default end.

(** ['='*60] *)
Definition rule : str := Py.times "=" 60.

Definition field_line (field_context : str) : str := "Field: " ++ field_context.
Definition answer_line (answer : str) : str := "Answer: " ++ answer.

(** [f.read()] on a file opened with [open(path, 'r')]: text mode
    translates the line ends (universal newlines), so a carriage return
    followed by a newline is dropped and every other carriage return comes
    back as a newline. *)
Fixpoint read_text (raw : str) : str :=
  match raw with
  | [] => []
  | c :: rest =>
      if Py.eqb_char c Py.cr then
        match rest with
        | c' :: _ => if Py.eqb_char c' Py.nl then read_text rest
                     else Py.nl :: read_text rest
        | [] => [Py.nl]
        end
      else c :: read_text rest
  end.

(** The duplicate check over the entries of the file. *)
Definition already_saved (content field_context answer : str) : bool :=
  existsb (fun entry => Py.contains (field_line field_context) entry
                        && Py.contains (answer_line answer) entry)
          (Py.split rule content).

(** The text of the five [f.write] calls. *)
Definition block (field_context partial_input answer timestamp : str) : str :=
  [Py.nl] ++ rule ++ [Py.nl]
  ++ field_line field_context ++ [Py.nl]
  ++ (if Py.truthy partial_input
      then "User Typed (Hint): " ++ partial_input ++ [Py.nl] else [])
  ++ answer_line answer ++ [Py.nl]
  ++ "Date: " ++ timestamp ++ [Py.nl]
  ++ rule ++ [Py.nl].

(** [save_accepted_answer()]: [file] holds the characters of
    [Knowledge_Base/AcceptedAnswers.txt], [None] when it does not exist.
    The file is written as given (the line separator of the platform is
    the newline) and read through [read_text]. *)
Definition save_accepted_answer (env : Env) (file : option str) (req : SaveRequest)
  : option str * SaveResponse :=
  let field_context := get (req_fieldContext req) "Unknown Field" in
  let answer := get (req_answer req) [] in
  let partial_input := get (req_partialInput req) [] in
  let timestamp := get (req_timestamp req) (now env) in
  if negb (Py.truthy answer) then
    (file, {| save_status := 400; save_success := false; save_message := None;
              save_error := Some ("No answer provided" : str) |})
  else if match file with
          | Some raw => already_saved (read_text raw) field_context answer
          | None => false
          end then
    (file, {| save_status := 200; save_success := true;
              save_message := Some ("Already saved" : str); save_error := None |})
  else
    (Some (get file [] ++ block field_context partial_input answer timestamp),
     {| save_status := 200; save_success := true;
        save_message := Some ("Accepted answer saved" : str); save_error := None |}).

(* ====================================================================== *)
(** * What [np.argsort] is asked to do, and a stable instance *)
(* ====================================================================== *)

Definition score_at (similarities : list Q) (i : nat) : Q := nth i similarities 0%Q.

(** [order] lists the positions of [similarities] by ascending score. *)
Definition ascending_argsort (similarities : list Q) (order : list nat) : Prop :=
  Permutation order (seq 0 (length similarities))
  /\ StronglySorted (fun i j => (score_at similarities i <= score_at similarities j)%Q)
                    order.

(** Insertion of position [i] behind every position whose score is not
    larger: equal scores keep the order of their positions. *)
Fixpoint insert_position (similarities : list Q) (i : nat) (sorted : list nat) : list nat :=
  match sorted with
  | [] => [i]
  | j :: rest =>
      if Qle_bool (score_at similarities j) (score_at similarities i)
      then j :: insert_position similarities i rest
      else i :: sorted
  end.

(** One ascending argsort, for the examples: the stable one, which keeps
    positions of equal score in their order.  It stands for no particular
    [np.argsort]: numpy's default sort is not stable and may leave equal
    scores in another order. *)
Definition stable_argsort (similarities : list Q) : list nat :=
  fold_left (fun sorted i => insert_position similarities i sorted)
            (seq 0 (length similarities)) [].

(* ====================================================================== *)
(** * Concrete environments and states for the examples *)
(* ====================================================================== *)

Definition constant_encoder (m : matrix) : Encoder :=
  {| encode := fun _ => Ok m |}.

Definition failing_encoder : Encoder :=
  {| encode := fun _ => Raise "encode failed" |}.

Definition example_env (enc : result Encoder) (llm : str -> result str) : Env :=
  {| new_encoder := enc;
     normalize_rows := fun m => Ok m;
     normalize := fun v => v;
     argsort := stable_argsort;
     ollama_generate := llm;
     now := "2025-01-01T00:00:00" |}.

Definition llm_down : str -> result str := fun _ => Raise "connection refused".

Definition one_doc (text : str) : Doc :=
  {| content := text; source := "cv.txt"; chunkIndex := 0; totalChunks := 1 |}.

(** A server with one indexed chunk. *)
Definition indexed_state (text : str) : State :=
  {| encoder := Some failing_encoder;
     documents := [one_doc text];
     embeddings := Some [[1]]%Q;
     vector_db_initialized := true |}.

Definition indexed_cache (text : str) : Cache :=
  {| cache_documents := [one_doc text];
     cache_embeddings := Some [[1]]%Q;
     cache_timestamp := "2024-12-31T00:00:00";
     cache_model := EMBEDDING_MODEL |}.

Definition text_file (name text : str) : KBFile :=
  {| file_name := name; file_suffix := ".txt"; file_is_file := true;
     file_text := Ok text |}.

(* ====================================================================== *)
(** * The shape of a header line, stated without the regular expression *)
(* ====================================================================== *)

(** An upper-case ASCII letter followed by one or more lower-case ones. *)
Definition capitalized (w : str) : bool :=
  match w with
  | c :: rest => Py.is_upper c && Py.truthy rest && forallb Py.is_lower rest
  | [] => false
  end.

(** A non-empty run of whitespace. *)
Definition blank (sp : str) : bool := Py.truthy sp && forallb Py.isspace sp.

(** Two or three capitalized words separated by whitespace. *)
Definition header_shape (line : str) : Prop :=
  exists w1 sp1 w2 tail,
    line = w1 ++ sp1 ++ w2 ++ tail
    /\ capitalized w1 = true /\ blank sp1 = true /\ capitalized w2 = true
    /\ (tail = [] \/ exists sp2 w3,
           tail = sp2 ++ w3 /\ blank sp2 = true /\ capitalized w3 = true).

(** The text does not go on with a character of class [p]. *)
Definition stops (p : ascii -> bool) (rest : str) : bool :=
  match rest with
  | [] => true
  | c :: _ => negb (p c)
  end.

(** Position [i] comes before position [j] in a stable ascending order:
    by score, and by position among equal scores. *)
Definition stable_before (similarities : list Q) (i j : nat) : Prop :=
  (score_at similarities i < score_at similarities j)%Q
  \/ ((score_at similarities i == score_at similarities j)%Q /\ i < j).

(* ====================================================================== *)
(** * [save_field_value] *)
(* ====================================================================== *)

(** The JSON body of [/api/save-field-value]; [None] is a missing key. *)
Record FieldValueRequest : Type := {
  fv_fieldContext : option str;
  fv_value : option str;
  fv_timestamp : option str
}.

(** The duplicate check of [save_field_value]: both lines must occur in
    the file, and then one entry must hold the [Field:] line and the bare
    value. *)
Definition field_value_saved (content field_context value : str) : bool :=
  Py.contains (field_line field_context) content
  && Py.contains (answer_line value) content
  && existsb (fun entry => Py.contains (field_line field_context) entry
                           && Py.contains value entry)
             (Py.split rule content).

(** The text of the four [f.write] calls of [save_field_value]. *)
Definition field_value_block (field_context value timestamp : str) : str :=
  [Py.nl] ++ rule ++ [Py.nl]
  ++ field_line field_context ++ [Py.nl]
  ++ answer_line value ++ [Py.nl]
  ++ "Date: " ++ timestamp ++ [Py.nl]
  ++ rule ++ [Py.nl].

(** [save_field_value()] on the same file as [save_accepted_answer],
    read through [read_text] as well. *)
Definition save_field_value (env : Env) (file : option str) (req : FieldValueRequest)
  : option str * SaveResponse :=
  let field_context := get (fv_fieldContext req) "Unknown Field" in
  let value := get (fv_value req) [] in
  let timestamp := get (fv_timestamp req) (now env) in
  if negb (Py.truthy value) then
    (file, {| save_status := 400; save_success := false; save_message := None;
              save_error := Some ("No value provided" : str) |})
  else if match file with
          | Some raw => field_value_saved (read_text raw) field_context value
          | None => false
          end then
    (file, {| save_status := 200; save_success := true;
              save_message := Some ("Already saved" : str); save_error := None |})
  else
    (Some (get file [] ++ field_value_block field_context value timestamp),
     {| save_status := 200; save_success := true;
        save_message := Some ("Field value saved" : str); save_error := None |}).

(* ====================================================================== *)
(** * [debug_docs] *)
(* ====================================================================== *)

Record ChunkPreview : Type := {
  preview_source : str;
  preview_chunkIndex : nat;
  content_preview : str
}.

(** [doc['content'][:200] + '...' if len(doc['content']) > 200 else
    doc['content']] *)
Definition preview_of (text : str) : str :=
  if 200 <? length text then firstn 200 text ++ "..." else text.

(** [debug_docs()]: [total_chunks] and [first_5_chunks]. *)
Definition debug_docs (st : State) : nat * list ChunkPreview :=
  (length (documents st),
   map (fun doc => {| preview_source := source doc;
                      preview_chunkIndex := chunkIndex doc;
                      content_preview := preview_of (content doc) |})
       (firstn 5 (documents st))).

(* ====================================================================== *)
(** * What a pattern denotes, and pieces of a text *)
(* ====================================================================== *)

(** [piece] occurs in [whole] as a contiguous part. *)
Definition substring (piece whole : str) : Prop :=
  exists before after, whole = before ++ piece ++ after.

(** The texts a pattern can match, anchors apart. *)
Inductive denotes : Re.regex -> str -> Prop :=
| denotes_Eps : denotes Re.Eps []
| denotes_Chr : forall c, denotes (Re.Chr c) [c]
| denotes_Cls : forall p c, p c = true -> denotes (Re.Cls p) [c]
| denotes_Rep : forall p lo w,
    forallb p w = true -> lo <= length w -> denotes (Re.Rep p lo) w
| denotes_Cat : forall r1 r2 w1 w2,
    denotes r1 w1 -> denotes r2 w2 -> denotes (Re.Cat r1 r2) (w1 ++ w2)
| denotes_Alt_l : forall r1 r2 w, denotes r1 w -> denotes (Re.Alt r1 r2) w
| denotes_Alt_r : forall r1 r2 w, denotes r2 w -> denotes (Re.Alt r1 r2) w
| denotes_Opt_some : forall r w, denotes r w -> denotes (Re.Opt r) w
| denotes_Opt_none : forall r, denotes (Re.Opt r) []
| denotes_Grp : forall r w, denotes r w -> denotes (Re.Grp r) w
| denotes_Bos : denotes Re.Bos []
| denotes_Eos : denotes Re.Eos [].

(** The characters of a phone number as the pattern admits them. *)
Definition phone_char (c : ascii) : bool :=
  Py.is_digit c || Py.isspace c || Re.one_of "()-" c.

(** The characters that end a URL. *)
Definition url_stop (c : ascii) : bool := Py.isspace c || Re.one_of ",)" c.

(** An encoder that returns one row per text, for the examples. *)
Definition unit_encoder : Encoder :=
  {| encode := fun texts => Ok (map (fun _ => [1]%Q) texts) |}.

(** What the rebuild requires of a document it stores. *)
Definition doc_well_formed (files : list KBFile) (d : Doc) : Prop :=
  chunkIndex d < totalChunks d
  /\ content d <> []
  /\ Py.strip (content d) = content d
  /\ (Py.len (content d) <= CHUNK_SIZE)%Z
  /\ exists f text,
       In f files /\ source d = file_name f
       /\ extract_text_from_file f = Ok text
       /\ substring (content d) text
       /\ totalChunks d = length (chunk_text text).

(** The encoder in use returns one row per text, and the normalisation
    keeps the number of rows. *)
Definition rows_follow_texts (env : Env) (st : State) : Prop :=
  (forall model texts m,
      encoder st = Some model \/ (encoder st = None /\ new_encoder env = Ok model) ->
      encode model texts = Ok m -> length m = length texts)
  /\ (forall m m', normalize_rows env m = Ok m' -> length m' = length m).

(** The pattern contains a capture group. *)
Fixpoint has_grp (r : Re.regex) : bool :=
  match r with
  | Re.Cat r1 r2 | Re.Alt r1 r2 => has_grp r1 || has_grp r2
  | Re.Opt r1 => has_grp r1
  | Re.Grp _ => true
  | _ => false
  end.

(** [local@domain.tld] as the email pattern admits it. *)
Definition email_shape (e : str) : Prop :=
  exists local domain tld,
    e = local ++ "@" ++ domain ++ "." ++ tld
    /\ local <> [] /\ domain <> [] /\ 2 <= length tld
    /\ forallb (fun c => Re.is_alnum c || Re.one_of "._%+-" c) local = true
    /\ forallb (fun c => Re.is_alnum c || Re.one_of ".-" c) domain = true
    /\ forallb Re.is_alpha tld = true.

(** [http://...] or [https://...] up to whitespace, comma or [)]. *)
Definition url_shape (u : str) : Prop :=
  exists scheme rest,
    u = scheme ++ "://" ++ rest
    /\ (scheme = ("http" : str) \/ scheme = ("https" : str))
    /\ rest <> [] /\ forallb (fun c => negb (url_stop c)) rest = true.

(* ====================================================================== *)
(** * Properties of [chunk_text] *)
(* ====================================================================== *)

Section ChunkFacts.

Variables (text : str) (chunk_size overlap : Z).

Lemma clamp_index_min : forall n a : Z,
  (0 <= n)%Z -> Py.clamp_index n (Z.min a n) = Py.clamp_index n a.
Proof.
  intros n a Hn. unfold Py.clamp_index.
  destruct (Z.ltb_spec a 0); destruct (Z.ltb_spec (Z.min a n) 0); lia.
Qed.

(** The code cuts [text[start:min(start+size, len)]]; the bound [min] is
    what slicing does anyway. *)
Lemma slice_min_stop : forall start stop : Z,
  Py.slice text start (Z.min stop (Py.len text)) = Py.slice text start stop.
Proof.
  intros start stop. unfold Py.slice.
  rewrite clamp_index_min by (unfold Py.len; lia). reflexivity.
Qed.

Lemma window_count_nonpos : forall d step : Z,
  (0 < step)%Z -> (d <= 0)%Z -> window_count d step = 0.
Proof.
  intros d step Hs Hd. unfold window_count.
  assert ((d + step - 1) / step <= 0)%Z.
  { assert ((d + step - 1) / step < 1)%Z; [|lia].
    apply Z.div_lt_upper_bound; lia. }
  lia.
Qed.

Lemma window_count_pos : forall d step : Z,
  (0 < step)%Z -> (0 < d)%Z ->
  window_count d step = S (window_count (d - step) step).
Proof.
  intros d step Hs Hd. unfold window_count.
  replace (d + step - 1)%Z with ((d - 1) + 1 * step)%Z by lia.
  rewrite Z.div_add by lia.
  replace (d - step + step - 1)%Z with (d - 1)%Z by lia.
  assert (0 <= (d - 1) / step)%Z by (apply Z.div_pos; lia).
  lia.
Qed.

Lemma window_count_le : forall n step : Z,
  (0 < step)%Z -> (0 <= n)%Z -> (Z.of_nat (window_count n step) <= n)%Z.
Proof.
  intros n step Hs Hn. unfold window_count.
  assert ((n + step - 1) / step < n + 1)%Z by (apply Z.div_lt_upper_bound; nia).
  assert (0 <= (n + step - 1) / step)%Z by (apply Z.div_pos; lia).
  lia.
Qed.

Lemma windows_from_done : forall start,
  (overlap < chunk_size)%Z -> (Py.len text <= start)%Z -> windows_from text chunk_size overlap start = [].
Proof.
  intros start Hs Hd. unfold windows_from.
  rewrite window_count_nonpos by lia. reflexivity.
Qed.

Lemma windows_from_step : forall start,
  (overlap < chunk_size)%Z -> (start < Py.len text)%Z ->
  windows_from text chunk_size overlap start =
    (let chunk := Py.strip (Py.slice text start (start + chunk_size)) in
     if Py.truthy chunk then [chunk] else [])
    ++ windows_from text chunk_size overlap (start + (chunk_size - overlap)).
Proof.
  intros start Hs Hd. unfold windows_from.
  rewrite (window_count_pos (Py.len text - start)) by lia.
  replace (Py.len text - (start + (chunk_size - overlap)))%Z
    with (Py.len text - start - (chunk_size - overlap))%Z by lia.
  set (n := window_count _ _).
  rewrite <- cons_seq, <- seq_shift. cbn [map]. rewrite map_map. cbn [filter].
  replace (start + Z.of_nat 0 * (chunk_size - overlap))%Z with start by lia.
  assert (Hmap : forall l,
    map (fun k => let s := (start + Z.of_nat (S k) * (chunk_size - overlap))%Z in
                  Py.strip (Py.slice text s (s + chunk_size))) l =
    map (fun k => let s := (start + (chunk_size - overlap)
                            + Z.of_nat k * (chunk_size - overlap))%Z in
                  Py.strip (Py.slice text s (s + chunk_size))) l).
  { intros l. apply map_ext. intros k. cbv zeta.
    replace (start + Z.of_nat (S k) * (chunk_size - overlap))%Z
      with (start + (chunk_size - overlap) + Z.of_nat k * (chunk_size - overlap))%Z
      by lia.
    reflexivity. }
  rewrite Hmap.
  destruct (Py.truthy (Py.strip (Py.slice text start (start + chunk_size))));
    reflexivity.
Qed.

(** The loop, given enough passes, appends exactly the windows to come. *)
Lemma chunk_loop_windows : forall fuel start chunks,
  (overlap < chunk_size)%Z ->
  window_count (Py.len text - start) (chunk_size - overlap) <= fuel ->
  chunk_loop fuel text chunk_size overlap start chunks
  = Some (chunks ++ windows_from text chunk_size overlap start).
Proof.
  induction fuel as [|fuel IH]; intros start chunks Hs Hfuel.
  - cbn [chunk_loop]. destruct (Z.ltb_spec start (Py.len text)) as [Hlt|Hge].
    + rewrite window_count_pos in Hfuel by lia. lia.
    + rewrite windows_from_done, app_nil_r by lia. reflexivity.
  - cbn [chunk_loop]. destruct (Z.ltb_spec start (Py.len text)) as [Hlt|Hge].
    + unfold chunk_step. rewrite slice_min_stop.
      rewrite IH.
      * rewrite (windows_from_step start) by lia. cbv zeta.
        destruct (Py.truthy (Py.strip (Py.slice text start (start + chunk_size)))).
        -- rewrite <- app_assoc. reflexivity.
        -- reflexivity.
      * lia.
      * rewrite window_count_pos in Hfuel by lia.
        replace (Py.len text - (start + (chunk_size - overlap)))%Z
          with (Py.len text - start - (chunk_size - overlap))%Z by lia.
        lia.
    + rewrite windows_from_done, app_nil_r by lia. reflexivity.
Qed.

Lemma windows_from_zero :
  windows_from text chunk_size overlap 0 = windows text chunk_size overlap.
Proof.
  unfold windows_from, windows, window_starts.
  rewrite map_map, Z.sub_0_r. reflexivity.
Qed.

(** When the step is not positive the start never reaches the length. *)
Lemma chunk_loop_stuck : forall fuel start chunks,
  (chunk_size <= overlap)%Z -> (start < Py.len text)%Z ->
  chunk_loop fuel text chunk_size overlap start chunks = None.
Proof.
  induction fuel as [|fuel IH]; intros start chunks Hs Hlt; cbn [chunk_loop];
    destruct (Z.ltb_spec start (Py.len text)); try lia.
  - reflexivity.
  - unfold chunk_step. apply IH; lia.
Qed.

End ChunkFacts.

Lemma slice_all : forall (text : str) (stop : Z),
  (Py.len text <= stop)%Z -> Py.slice text 0 stop = text.
Proof.
  intros text stop H. unfold Py.slice, Py.clamp_index.
  assert (0 <= Py.len text)%Z by (unfold Py.len; lia).
  destruct (Z.ltb_spec stop 0); [lia|].
  change (0 <? 0)%Z with false. cbv iota.
  rewrite (Z.min_l 0) by lia. rewrite Z.min_r by lia.
  cbn [Z.to_nat skipn]. rewrite Z.sub_0_r. unfold Py.len.
  rewrite Nat2Z.id. apply firstn_all.
Qed.

(** With a positive step, [length text] passes are enough and the result
    is the list of windows. *)
Lemma chunk_text_fuel_windows :
  forall (text : str) (chunk_size overlap : Z) (fuel : nat),
    (overlap < chunk_size)%Z -> length text <= fuel ->
    chunk_text_fuel fuel text chunk_size overlap
    = Some (windows text chunk_size overlap).
Proof.
  intros text chunk_size overlap fuel Hpar Hfuel.
  unfold chunk_text_fuel. rewrite chunk_loop_windows.
  - rewrite windows_from_zero. reflexivity.
  - assumption.
  - rewrite Z.sub_0_r.
    pose proof (window_count_le (Py.len text) (chunk_size - overlap)) as Hle.
    unfold Py.len in *. lia.
Qed.

(** The rebuild's [chunk_text(text)] is the window list for 1000/200. *)
Lemma chunk_text_default : forall text : str,
  chunk_text text = windows text CHUNK_SIZE CHUNK_OVERLAP.
Proof.
  intros text. unfold chunk_text.
  rewrite chunk_text_fuel_windows; [reflexivity | reflexivity | apply Nat.le_refl].
Qed.

(** C7 as stated fails: a text shorter than [chunk_size] but longer than
    the step [chunk_size - overlap] is cut into more than one chunk. *)
Lemma chunk_text_short_text_two_chunks :
  ~ (forall (text : str) (chunk_size overlap : Z) (fuel : nat),
       (0 < overlap < chunk_size)%Z -> text <> [] ->
       (Py.len text < chunk_size)%Z -> length text <= fuel ->
       chunk_text_fuel fuel text chunk_size overlap
       = Some (if Py.truthy (Py.strip text) then [Py.strip text] else [])).
Proof.
  intros H.
  assert (E := H ("abc" : str) 4%Z 2%Z 3 ltac:(lia) ltac:(discriminate)
                 ltac:(reflexivity) ltac:(simpl; lia)).
  vm_compute in E. discriminate E.
Qed.

(** C7 (amended): for [0 < overlap < chunk_size] the function returns the
    trimmed, non-empty sliding windows [text[start : start+chunk_size]] for
    the starts [0, step, 2*step, ...] below the text length, where
    [step = chunk_size - overlap]; an empty text gives no chunk, and a
    non-empty text no longer than the step gives exactly one chunk, or none
    when it is whitespace only. *)
Theorem chunk_text_sliding_windows :
  forall (text : str) (chunk_size overlap : Z) (fuel : nat),
    (0 < overlap < chunk_size)%Z -> length text <= fuel ->
    chunk_text_fuel fuel text chunk_size overlap
      = Some (windows text chunk_size overlap)
    /\ (text = [] -> windows text chunk_size overlap = [])
    /\ (text <> [] -> (Py.len text <= chunk_size - overlap)%Z ->
        windows text chunk_size overlap
        = if Py.truthy (Py.strip text) then [Py.strip text] else []).
Proof.
  intros text chunk_size overlap fuel Hpar Hfuel. split; [|split].
  - apply chunk_text_fuel_windows; [lia | assumption].
  - intros ->. unfold windows, window_starts, window_count. cbn [length Py.len Z.of_nat].
    replace ((0 + (chunk_size - overlap) - 1) / (chunk_size - overlap))%Z with 0%Z.
    + reflexivity.
    + symmetry. apply Z.div_small. lia.
  - intros Hne Hlen.
    assert (Hpos : (0 < Py.len text)%Z).
    { destruct text; [congruence|]. unfold Py.len. cbn [length]. lia. }
    rewrite <- windows_from_zero.
    rewrite windows_from_step by lia.
    rewrite windows_from_done by lia.
    rewrite app_nil_r. cbv zeta. rewrite Z.add_0_l.
    rewrite slice_all by lia. reflexivity.
Qed.

Lemma chunk_text_sliding_windows_witness :
  chunk_text_fuel 10 ("abcdefghij" : str) 4 1
    = Some (windows ("abcdefghij" : str) 4 1).
Proof.
  apply (chunk_text_sliding_windows ("abcdefghij" : str) 4 1 10); [lia | simpl; lia].
Defined.

(** C10: with [0 < overlap < chunk_size] the loop ends for every text,
    within [length text] passes; with [overlap >= chunk_size] and a
    non-empty text it never ends: whatever the number of passes, the loop
    is still running, and no result (chunks or error) is produced. *)
Theorem chunk_text_terminates_iff_step_positive :
  forall (text : str) (chunk_size overlap : Z),
    ((0 < overlap < chunk_size)%Z ->
       exists chunks, forall fuel, length text <= fuel ->
         chunk_text_fuel fuel text chunk_size overlap = Some chunks)
    /\ (text <> [] -> (chunk_size <= overlap)%Z ->
        forall fuel, chunk_text_fuel fuel text chunk_size overlap = None).
Proof.
  intros text chunk_size overlap. split.
  - intros Hpar. exists (windows text chunk_size overlap).
    intros fuel Hfuel.
    apply chunk_text_fuel_windows; [lia | assumption].
  - intros Hne Hpar fuel. unfold chunk_text_fuel.
    apply chunk_loop_stuck; [lia|].
    destruct text; [congruence|]. unfold Py.len. cbn [length]. lia.
Qed.

Lemma chunk_text_terminates_iff_step_positive_witness :
  (exists chunks, forall fuel, 3 <= fuel ->
     chunk_text_fuel fuel ("abc" : str) 4 2 = Some chunks)
  /\ (forall fuel, chunk_text_fuel fuel ("abc" : str) 2 2 = None).
Proof.
  split.
  - apply (proj1 (chunk_text_terminates_iff_step_positive ("abc" : str) 4 2)). lia.
  - apply (proj2 (chunk_text_terminates_iff_step_positive ("abc" : str) 2 2));
      [discriminate | lia].
Defined.

(* ====================================================================== *)
(** * Retrieval *)
(* ====================================================================== *)

Section SortedLists.

Context {A : Type} (R : A -> A -> Prop).

Lemma StronglySorted_app_intro : forall l1 l2,
  StronglySorted R l1 -> StronglySorted R l2 ->
  (forall a b, In a l1 -> In b l2 -> R a b) ->
  StronglySorted R (l1 ++ l2).
Proof.
  induction l1 as [|x l1 IH]; intros l2 H1 H2 H12; cbn [app]; [assumption|].
  apply StronglySorted_inv in H1 as [H1 Hx].
  constructor.
  - apply IH; [assumption | assumption |].
    intros a b Ha Hb. apply H12; [right; assumption | assumption].
  - apply Forall_app. split; [assumption|].
    apply Forall_forall. intros b Hb. apply H12; [left; reflexivity | assumption].
Qed.

Lemma StronglySorted_app_inv : forall l1 l2,
  StronglySorted R (l1 ++ l2) ->
  StronglySorted R l1 /\ StronglySorted R l2
  /\ (forall a b, In a l1 -> In b l2 -> R a b).
Proof.
  induction l1 as [|x l1 IH]; intros l2 H; cbn [app] in H.
  - repeat split; [constructor | assumption | intros a b []].
  - apply StronglySorted_inv in H as [H Hx].
    destruct (IH _ H) as (H1 & H2 & H12).
    apply Forall_app in Hx as [Hx1 Hx2].
    repeat split.
    + constructor; assumption.
    + assumption.
    + intros a b [<-|Ha] Hb.
      * rewrite Forall_forall in Hx2. apply Hx2; assumption.
      * apply H12; assumption.
Qed.

End SortedLists.

Lemma StronglySorted_rev_flip {A} (R : A -> A -> Prop) : forall l,
  StronglySorted R l -> StronglySorted (fun a b => R b a) (rev l).
Proof.
  induction l as [|x l IH]; intros H; cbn [rev]; [constructor|].
  apply StronglySorted_inv in H as [H Hx].
  apply StronglySorted_app_intro.
  - apply IH; assumption.
  - repeat constructor.
  - intros a b Ha [<-|[]]. rewrite Forall_forall in Hx.
    apply Hx. apply in_rev. assumption.
Qed.

Lemma StronglySorted_map {A B} (R : B -> B -> Prop) (f : A -> B) : forall l,
  StronglySorted (fun a b => R (f a) (f b)) l -> StronglySorted R (map f l).
Proof.
  induction l as [|x l IH]; intros H; cbn [map]; [constructor|].
  apply StronglySorted_inv in H as [H Hx].
  constructor; [apply IH; assumption|].
  apply Forall_map. assumption.
Qed.

Lemma np_dot_rows : forall (rows : matrix) (q : vec),
  Forall (fun row => length row = length q) rows ->
  np_dot (Some rows) q = Ok (map (fun row => dot row q) rows).
Proof.
  intros rows q H. cbn [np_dot].
  induction H as [|row rows Hrow _ IH]; cbn [traverse map bind]; [reflexivity|].
  rewrite Hrow, Nat.eqb_refl. cbn [bind]. rewrite IH. reflexivity.
Qed.

Lemma traverse_index_in_range : forall (l : list Q) (idx : list nat),
  Forall (fun i => i < length l) idx ->
  traverse (index l) idx = Ok (map (score_at l) idx).
Proof.
  intros l idx H.
  induction H as [|i idx Hi _ IH]; cbn [traverse map bind]; [reflexivity|].
  unfold index at 1. rewrite (nth_error_nth' l 0%Q Hi). cbn [bind].
  rewrite IH. reflexivity.
Qed.

Lemma combine_map_self {A B} (f : A -> B) : forall l,
  combine l (map f l) = map (fun a => (a, f a)) l.
Proof.
  induction l as [|a l IH]; cbn [combine map]; [reflexivity|].
  rewrite IH. reflexivity.
Qed.

(** What the retrieval step returns when the sort does its job. *)
Lemma retrieve_value : forall (env : Env) (rows : matrix) (q : vec),
  let similarities := map (fun row => dot row q) rows in
  Forall (fun row => length row = length q) rows ->
  Permutation (argsort env similarities) (seq 0 (length similarities)) ->
  retrieve env (Some rows) q
  = Ok (map (fun i => (i, score_at similarities i))
            (firstn TOP_K (rev (argsort env similarities)))).
Proof.
  intros env rows q similarities Hdim Hperm. unfold retrieve.
  rewrite np_dot_rows by assumption. cbn [bind]. fold similarities.
  unfold top_indices_of.
  set (top := firstn TOP_K (rev (argsort env similarities))).
  assert (Hrange : Forall (fun i => i < length similarities) top).
  { apply Forall_forall. intros i Hi.
    assert (Hin : In i (argsort env similarities)).
    { apply in_rev. unfold top in Hi.
      rewrite <- (firstn_skipn TOP_K (rev (argsort env similarities))).
      apply in_or_app. left. assumption. }
    apply (Permutation_in _ Hperm) in Hin. apply in_seq in Hin. lia. }
  rewrite traverse_index_in_range by assumption. cbn [bind].
  assert (Hlen : length top <= TOP_K).
  { unfold top. rewrite length_firstn. lia. }
  rewrite Nat.min_r by assumption. rewrite firstn_all.
  rewrite combine_map_self. reflexivity.
Qed.

(** The stable instance is an ascending argsort. *)
Lemma insert_position_perm : forall similarities i sorted,
  Permutation (insert_position similarities i sorted) (i :: sorted).
Proof.
  intros similarities i sorted.
  induction sorted as [|j rest IH]; cbn [insert_position]; [apply Permutation_refl|].
  destruct (Qle_bool _ _).
  - apply (perm_trans (l' := j :: i :: rest)).
    + apply perm_skip. assumption.
    + apply perm_swap.
  - apply Permutation_refl.
Qed.

Lemma insert_position_sorted : forall similarities i sorted,
  StronglySorted (fun a b => (score_at similarities a <= score_at similarities b)%Q)
                 sorted ->
  StronglySorted (fun a b => (score_at similarities a <= score_at similarities b)%Q)
                 (insert_position similarities i sorted).
Proof.
  intros similarities i sorted.
  induction sorted as [|j rest IH]; intros H; cbn [insert_position].
  - repeat constructor.
  - apply StronglySorted_inv in H as [H Hj].
    destruct (Qle_bool (score_at similarities j) (score_at similarities i)) eqn:E.
    + apply Qle_bool_iff in E. constructor; [apply IH; assumption|].
      apply (Permutation_Forall (Permutation_sym (insert_position_perm _ _ _))).
      constructor; assumption.
    + assert (Hlt : (score_at similarities i <= score_at similarities j)%Q).
      { destruct (Qlt_le_dec (score_at similarities i) (score_at similarities j)) as [Hl|Hl].
        - apply Qlt_le_weak. assumption.
        - apply Qle_bool_iff in Hl. congruence. }
      constructor; [constructor; assumption|].
      constructor; [assumption|].
      apply Forall_forall. intros b Hb. rewrite Forall_forall in Hj.
      apply (Qle_trans _ _ _ Hlt). apply Hj. assumption.
Qed.

Lemma stable_argsort_ascending : forall similarities,
  ascending_argsort similarities (stable_argsort similarities).
Proof.
  intros similarities. unfold stable_argsort.
  assert (H : forall idx acc,
    StronglySorted (fun a b => (score_at similarities a <= score_at similarities b)%Q) acc ->
    Permutation (fold_left (fun sorted i => insert_position similarities i sorted) idx acc)
                (idx ++ acc)
    /\ StronglySorted (fun a b => (score_at similarities a <= score_at similarities b)%Q)
         (fold_left (fun sorted i => insert_position similarities i sorted) idx acc)).
  { induction idx as [|i idx IH]; intros acc Hacc; cbn [fold_left app].
    - split; [apply Permutation_refl | assumption].
    - destruct (IH (insert_position similarities i acc)) as [Hp Hs].
      + apply insert_position_sorted. assumption.
      + split; [|assumption].
        apply (perm_trans Hp).
        apply (perm_trans (l' := idx ++ i :: acc)).
        * apply Permutation_app_head. apply insert_position_perm.
        * apply Permutation_sym. apply Permutation_middle. }
  destruct (H (seq 0 (length similarities)) []) as [Hp Hs]; [constructor|].
  rewrite app_nil_r in Hp. split; assumption.
Qed.

(** The stable instance keeps equal scores in the order of their
    positions. *)
Lemma insert_position_stable : forall similarities i sorted,
  StronglySorted (stable_before similarities) sorted ->
  Forall (fun j => j < i) sorted ->
  StronglySorted (stable_before similarities) (insert_position similarities i sorted).
Proof.
  intros similarities i sorted.
  induction sorted as [|j rest IH]; intros H Hlt; cbn [insert_position].
  - repeat constructor.
  - apply StronglySorted_inv in H as [H Hj].
    pose proof (Forall_inv Hlt) as Hji. pose proof (Forall_inv_tail Hlt) as Hrest.
    destruct (Qle_bool (score_at similarities j) (score_at similarities i)) eqn:E.
    + apply Qle_bool_iff in E. constructor; [apply IH; assumption|].
      apply (Permutation_Forall (Permutation_sym (insert_position_perm _ _ _))).
      constructor; [|assumption].
      apply Qle_lteq in E as [E|E]; [left; assumption | right; split; assumption].
    + assert (Hlt' : (score_at similarities i < score_at similarities j)%Q).
      { apply Qnot_le_lt. intros Hle. apply Qle_bool_iff in Hle. congruence. }
      constructor; [constructor; assumption|].
      constructor; [left; assumption|].
      apply Forall_forall. intros k Hk. rewrite Forall_forall in Hj.
      left. destruct (Hj k Hk) as [Hjk|[Hjk _]].
      * apply (Qlt_trans _ _ _ Hlt' Hjk).
      * rewrite <- Hjk. assumption.
Qed.

Lemma stable_argsort_stable : forall similarities,
  StronglySorted (stable_before similarities) (stable_argsort similarities).
Proof.
  intros similarities. unfold stable_argsort.
  assert (H : forall n a acc,
    StronglySorted (stable_before similarities) acc ->
    Forall (fun j => j < a) acc ->
    StronglySorted (stable_before similarities)
      (fold_left (fun sorted i => insert_position similarities i sorted) (seq a n) acc)).
  { induction n as [|n IH]; intros a acc Hacc Hlt; cbn [seq fold_left]; [assumption|].
    apply IH.
    - apply insert_position_stable; assumption.
    - apply (Permutation_Forall (Permutation_sym (insert_position_perm _ _ _))).
      constructor; [lia|].
      apply (Forall_impl _ (fun j (Hj : j < a) => Nat.lt_lt_succ_r _ _ Hj) Hlt). }
  apply H; constructor.
Qed.

(** Under the stable order the retrieval step returns chunks of equal
    score with the higher position first. *)
Lemma retrieve_stable_ties_descending : forall (env : Env) (rows : matrix) (q : vec),
  Forall (fun row => length row = length q) rows ->
  argsort env (map (fun row => dot row q) rows)
  = stable_argsort (map (fun row => dot row q) rows) ->
  exists hits,
    retrieve env (Some rows) q = Ok hits
    /\ StronglySorted
         (fun h1 h2 => (snd h2 < snd h1)%Q \/ ((snd h2 == snd h1)%Q /\ fst h2 < fst h1))
         hits.
Proof.
  intros env rows q Hdim Hstable.
  set (similarities := map (fun row => dot row q) rows) in *.
  exists (map (fun i => (i, score_at similarities i))
              (firstn TOP_K (rev (argsort env similarities)))).
  split.
  - apply retrieve_value; [assumption|]. fold similarities. rewrite Hstable.
    apply stable_argsort_ascending.
  - rewrite Hstable.
    pose proof (StronglySorted_rev_flip _ _ (stable_argsort_stable similarities)) as Hrev.
    rewrite <- (firstn_skipn TOP_K (rev (stable_argsort similarities))) in Hrev.
    apply StronglySorted_app_inv in Hrev as (Htop & _ & _).
    apply StronglySorted_map
      with (f := fun i => (i, score_at similarities i))
           (R := fun h1 h2 => (snd h2 < snd h1)%Q
                              \/ ((snd h2 == snd h1)%Q /\ fst h2 < fst h1)).
    cbn [fst snd]. exact Htop.
Qed.

(** Under the stable argsort of the examples, two chunks of equal score
    come out with the higher position first. *)
Lemma retrieve_equal_scores_higher_index_first :
  retrieve (example_env (Raise "unused") llm_down) (Some [[1]; [1]]%Q) [1]%Q
  = Ok [(1, 1%Q); (0, 1%Q)].
Proof. reflexivity. Qed.

(** C1 as stated fails: of two chunks with the same score, the one with
    the higher index is returned first. *)
Lemma retrieve_ties_not_ascending :
  ~ (forall (env : Env) (rows : matrix) (q : vec) (hits : list (nat * Q)),
       ascending_argsort (map (fun row => dot row q) rows)
                         (argsort env (map (fun row => dot row q) rows)) ->
       retrieve env (Some rows) q = Ok hits ->
       StronglySorted
         (fun h1 h2 => (snd h2 < snd h1)%Q \/ ((snd h2 == snd h1)%Q /\ fst h1 < fst h2))
         hits).
Proof.
  intros H.
  specialize (H (example_env (Raise "unused") llm_down)
                [[1]; [1]]%Q [1]%Q [(1, 1%Q); (0, 1%Q)]).
  assert (Hsort : ascending_argsort
                    (map (fun row => dot row [1]%Q) [[1]; [1]]%Q)
                    (argsort (example_env (Raise "unused") llm_down)
                             (map (fun row => dot row [1]%Q) [[1]; [1]]%Q))).
  { split.
    - apply Permutation_refl.
    - repeat constructor. vm_compute. discriminate. }
  specialize (H Hsort eq_refl).
  apply StronglySorted_inv in H as [_ H].
  apply Forall_inv in H. cbn [fst snd] in H.
  destruct H as [H | [_ H]].
  - vm_compute in H. discriminate.
  - lia.
Qed.

(** C1 (amended): for an embedding matrix and a query vector of the same
    dimension, the retrieval step returns the [min(TOP_K, N)] pairs
    (chunk index, score) of highest score, in non-increasing order of
    score; chunks of equal score come in the reverse of the order in which
    [np.argsort] leaves them (no preference for the lower index). *)
Theorem retrieve_top_k_descending :
  forall (env : Env) (rows : matrix) (q : vec),
    Forall (fun row => length row = length q) rows ->
    ascending_argsort (map (fun row => dot row q) rows)
                      (argsort env (map (fun row => dot row q) rows)) ->
    exists hits,
      retrieve env (Some rows) q = Ok hits
      /\ map fst hits
         = firstn TOP_K (rev (argsort env (map (fun row => dot row q) rows)))
      /\ length hits = Nat.min TOP_K (length rows)
      /\ NoDup (map fst hits)
      /\ Forall (fun hit => fst hit < length rows
                            /\ nth_error (map (fun row => dot row q) rows) (fst hit)
                               = Some (snd hit)) hits
      /\ StronglySorted (fun h1 h2 => (snd h2 <= snd h1)%Q) hits
      /\ (forall j hit, j < length rows -> ~ In j (map fst hits) -> In hit hits ->
            (score_at (map (fun row => dot row q) rows) j <= snd hit)%Q).
Proof.
  intros env rows q Hdim [Hperm Hsorted].
  set (similarities := map (fun row => dot row q) rows) in *.
  set (order := argsort env similarities) in *.
  assert (Hlen : length similarities = length rows)
    by (unfold similarities; apply length_map).
  exists (map (fun i => (i, score_at similarities i)) (firstn TOP_K (rev order))).
  assert (Hfst : forall l : list nat,
            map fst (map (fun i => (i, score_at similarities i)) l) = l).
  { intros l. rewrite map_map. cbn [fst]. apply map_id. }
  assert (Hrev : StronglySorted
                   (fun i j => (score_at similarities j <= score_at similarities i)%Q)
                   (rev order)).
  { apply (StronglySorted_rev_flip _ _ Hsorted). }
  rewrite <- (firstn_skipn TOP_K (rev order)) in Hrev.
  apply StronglySorted_app_inv in Hrev as (Htop & _ & Hcut).
  assert (Hin_order : forall i, In i (firstn TOP_K (rev order)) -> In i order).
  { intros i Hi. apply in_rev.
    rewrite <- (firstn_skipn TOP_K (rev order)). apply in_or_app. left. assumption. }
  repeat split.
  - apply retrieve_value; assumption.
  - apply Hfst.
  - rewrite length_map, length_firstn, length_rev.
    rewrite (Permutation_length Hperm), length_seq, Hlen. reflexivity.
  - rewrite Hfst.
    assert (Hnd : NoDup (rev order)).
    { apply NoDup_rev. apply (Permutation_NoDup (Permutation_sym Hperm)).
      apply seq_NoDup. }
    rewrite <- (firstn_skipn TOP_K (rev order)) in Hnd.
    apply NoDup_app_remove_r in Hnd. assumption.
  - apply Forall_map. apply Forall_forall. intros i Hi. cbn [fst snd].
    assert (Hr : i < length similarities).
    { apply Hin_order in Hi. apply (Permutation_in _ Hperm) in Hi.
      apply in_seq in Hi. lia. }
    split; [lia|]. apply nth_error_nth'. assumption.
  - apply StronglySorted_map with (f := fun i => (i, score_at similarities i))
                                  (R := fun h1 h2 => (snd h2 <= snd h1)%Q).
    cbn [snd]. assumption.
  - intros j hit Hj Hout Hhit. rewrite Hfst in Hout.
    apply in_map_iff in Hhit as (i & <- & Hi). cbn [snd].
    apply Hcut; [assumption|].
    assert (Hjin : In j (rev order)).
    { apply -> in_rev. apply (Permutation_in _ (Permutation_sym Hperm)).
      apply in_seq. lia. }
    rewrite <- (firstn_skipn TOP_K (rev order)) in Hjin.
    apply in_app_or in Hjin as [Hjin|Hjin]; [contradiction | assumption].
Qed.

Lemma retrieve_top_k_descending_witness :
  exists hits,
    retrieve (example_env (Raise "unused") llm_down)
             (Some [[1 # 2]; [1]; [1 # 3]; [1]; [0]]%Q) [1]%Q = Ok hits
    /\ length hits = 3
    /\ StronglySorted (fun h1 h2 => (snd h2 <= snd h1)%Q) hits.
Proof.
  destruct (retrieve_top_k_descending
              (example_env (Raise "unused") llm_down)
              [[1 # 2]; [1]; [1 # 3]; [1]; [0]]%Q [1]%Q)
    as (hits & H1 & _ & H3 & _ & _ & H6 & _).
  - repeat constructor.
  - apply stable_argsort_ascending.
  - exists hits. repeat split; assumption.
Defined.

(* ====================================================================== *)
(** * The rebuild of the index *)
(* ====================================================================== *)

(** A rebuild that does not report success writes nothing to the cache. *)
Lemma update_vector_db_failure_keeps_cache :
  forall env kb st disk st' disk' response,
    update_vector_db env kb st disk = (st', disk', response) ->
    upd_success response = false ->
    disk' = disk.
Proof.
  intros env kb st disk st' disk' response H Hfail.
  unfold update_vector_db in H.
  destruct (filter _ kb) as [|f files].
  - inversion H; subst. discriminate Hfail.
  - destruct (load_embedding_model env st) as [st1 [model|msg]].
    + destruct (process_files (f :: files) [] []) as [docs all_texts].
      destruct (encode model all_texts) as [raw|msg].
      * destruct (normalize_rows env raw) as [normed|msg].
        -- inversion H; subst. discriminate Hfail.
        -- inversion H; subst. reflexivity.
      * inversion H; subst. reflexivity.
    + inversion H; subst. reflexivity.
Qed.

(** When the embedding model cannot be created the globals are left as
    they were. *)
Lemma update_vector_db_model_missing :
  forall env kb st disk msg,
    encoder st = None -> new_encoder env = Raise msg ->
    filter (fun f => file_is_file f && supported_suffix f) kb <> [] ->
    update_vector_db env kb st disk = (st, disk, update_failed msg).
Proof.
  intros env kb st disk msg Henc Hnew Hfiles.
  unfold update_vector_db, load_embedding_model.
  destruct (filter _ kb); [congruence|].
  rewrite Henc, Hnew. reflexivity.
Qed.

(** When [model.encode] raises, the global [documents] already holds the
    chunks of the new files, next to the embeddings and the flag of the
    old index. *)
Lemma update_vector_db_encode_raises :
  forall env kb st disk model msg,
    encoder st = Some model ->
    filter (fun f => file_is_file f && supported_suffix f) kb <> [] ->
    encode model
      (snd (process_files (filter (fun f => file_is_file f && supported_suffix f) kb)
                          [] [])) = Raise msg ->
    update_vector_db env kb st disk
    = (with_documents st
         (fst (process_files (filter (fun f => file_is_file f && supported_suffix f) kb)
                             [] [])),
       disk, update_failed msg).
Proof.
  intros env kb st disk model msg Henc Hfiles Hraise.
  unfold update_vector_db, load_embedding_model.
  destruct (filter _ kb) as [|f files]; [congruence|].
  rewrite Henc.
  destruct (process_files (f :: files) [] []) as [docs all_texts].
  cbn [fst snd] in *. rewrite Hraise. reflexivity.
Qed.

(** C2 (the code at the failing input): the server holds an index of one
    chunk, the knowledge base now holds [new.txt], and [model.encode]
    raises.  The rebuild answers 500 and writes no cache, but the live
    [documents] list is the chunk list of [new.txt] while [embeddings]
    is still the matrix of the old index. *)
Theorem update_vector_db_encode_failure_not_atomic :
  let env := example_env (Raise "unused") llm_down in
  let before := indexed_state "Jane Doe" in
  let disk := Some (indexed_cache "Jane Doe") in
  let '(after, disk', response) :=
    update_vector_db env [text_file "new.txt" "Fresh text"] before disk in
  upd_status response = 500
  /\ upd_success response = false
  /\ disk' = disk
  /\ embeddings after = embeddings before
  /\ vector_db_initialized after = vector_db_initialized before
  /\ documents before = [one_doc "Jane Doe"]
  /\ documents after
     = [{| content := "Fresh text"; source := "new.txt";
           chunkIndex := 0; totalChunks := 1 |}]
  /\ documents after <> documents before.
Proof.
  cbv zeta. vm_compute. repeat split. discriminate.
Qed.

(* ====================================================================== *)
(** * The query pipeline *)
(* ====================================================================== *)

Lemma truthy_nonempty : forall s : str, s <> [] -> Py.truthy s = true.
Proof. intros [|c s] H; [congruence | reflexivity]. Qed.

Lemma lower_nil_or_field : forall field_context : str,
  (if Py.truthy field_context then Py.lower field_context else []) = Py.lower field_context.
Proof. intros [|c s]; reflexivity. Qed.

(** C4 as stated fails: on a server with no chunk the answer comes with an
    [error] field. *)
Lemma query_empty_corpus_has_error_field :
  ~ (forall (env : Env) (w : list bool) (st : State)
            (query_text field_context partial_input : str),
       query_text <> [] -> documents st = [] ->
       snd (query env w st query_text field_context partial_input)
       = {| status := 200; answer := Some not_in_db; provenance := None;
            confidence := None; error := None |}).
Proof.
  intros H.
  specialize (H (example_env (Raise "unused") llm_down) [] initial_state
                ("What is your email?" : str) [] []
                ltac:(discriminate) eq_refl).
  vm_compute in H. discriminate H.
Qed.

(** C4 (amended): every query with a non-empty text that arrives while the
    vector database is not initialised gets the normal (status 200)
    response [{answer: "Not in DB", error: "Vector database not
    initialized"}], and the state is untouched. *)
Theorem query_uninitialized_not_in_db :
  forall (env : Env) (w : list bool) (st : State)
         (query_text field_context partial_input : str),
    query_text <> [] ->
    vector_db_initialized st = false ->
    query env w st query_text field_context partial_input
    = (st, {| status := 200; answer := Some ("Not in DB" : str);
              provenance := None; confidence := None;
              error := Some ("Vector database not initialized" : str) |}).
Proof.
  intros env w st query_text field_context partial_input Hq Hinit.
  unfold query. rewrite (truthy_nonempty _ Hq), Hinit. reflexivity.
Qed.

Lemma query_uninitialized_not_in_db_witness :
  query (example_env (Raise "unused") llm_down) [] initial_state
        "What is your email?" "" ""
  = (initial_state,
     {| status := 200; answer := Some ("Not in DB" : str);
        provenance := None; confidence := None;
        error := Some ("Vector database not initialized" : str) |}).
Proof.
  apply (query_uninitialized_not_in_db
           (example_env (Raise "unused") llm_down) [] initial_state
           "What is your email?" "" "");
    [discriminate | reflexivity].
Defined.

(** The states with no chunk that the server itself produces have the flag
    down: the initial state, a loaded cache without documents, and a
    rebuild over an empty knowledge base. *)
Lemma zero_chunk_states_uninitialized :
  vector_db_initialized initial_state = false
  /\ (forall cache st,
        cache_documents cache = [] ->
        vector_db_initialized (fst (load_vector_db_cache (Some cache) st)) = false)
  /\ (forall env kb st disk,
        filter (fun f => file_is_file f && supported_suffix f) kb = [] ->
        let '(st', _, _) := update_vector_db env kb st disk in
        documents st' = [] /\ vector_db_initialized st' = false).
Proof.
  split; [reflexivity|]. split.
  - intros cache st H. cbn. rewrite H. reflexivity.
  - intros env kb st disk H. unfold update_vector_db. rewrite H.
    split; reflexivity.
Qed.

(** An initialised index with no row: the retrieval path answers
    [{answer: "Not in DB"}] without an [error] field. *)
Lemma query_no_rows_not_in_db :
  forall (env : Env) (w : list bool) (st : State) (model : Encoder)
         (query_text field_context partial_input : str) (v : vec) (rest : matrix),
    query_text <> [] ->
    vector_db_initialized st = true ->
    documents st = [] ->
    embeddings st = Some [] ->
    encoder st = Some model ->
    encode model [if Py.truthy field_context
                  then field_context ++ ": " ++ query_text else query_text]
      = Ok (v :: rest) ->
    argsort env [] = [] ->
    snd (query env w st query_text field_context partial_input)
    = {| status := 200; answer := Some not_in_db; provenance := None;
         confidence := None; error := None |}.
Proof.
  intros env w st model query_text field_context partial_input v rest
         Hq Hinit Hdocs Hemb Henc Hencode Hsort.
  unfold query. rewrite (truthy_nonempty _ Hq), Hinit, Hdocs.
  cbn [negb length Nat.ltb Nat.leb]. rewrite andb_false_r.
  unfold query_retrieval, load_embedding_model. rewrite Henc, Hencode.
  cbn [bind index nth_error]. rewrite Hemb.
  unfold retrieve. cbn [np_dot traverse bind]. unfold top_indices_of.
  rewrite Hsort. reflexivity.
Qed.

(** A first rebuild whose [model.encode] raises leaves the chunks of the
    files in [documents] (lines 253-275 run before line 282) while the
    flag, which only line 293 sets, is still down. *)
Lemma failed_first_rebuild_state :
  let env := example_env (Ok failing_encoder) llm_down in
  let '(after, _, response) :=
    update_vector_db env [text_file "cv.txt" "Jane Doe"] initial_state None in
  upd_status response = 500
  /\ documents after = [one_doc "Jane Doe"]
  /\ embeddings after = None
  /\ vector_db_initialized after = false.
Proof. cbv zeta. vm_compute. repeat split. Qed.

(** C8 as stated fails while the vector database is not initialised: after
    a first rebuild that failed in [model.encode] the documents list holds
    the chunk [Jane Doe] and the flag is down; the query [What is your
    name?] carries a keyword and has a non-empty text, and the guard of
    line 319 answers [Not in DB] without provenance or confidence. *)
Lemma query_shortcut_needs_initialized :
  ~ (forall (env : Env) (w : list bool) (st : State)
            (query_text field_context partial_input : str),
       query_text <> [] ->
       Py.contains_any personal_keywords
         (Py.lower query_text ++ " " ++ Py.lower field_context) = true ->
       documents st <> [] ->
       provenance (snd (query env w st query_text field_context partial_input))
         = Some ("header-extraction" : str)
       /\ confidence (snd (query env w st query_text field_context partial_input))
          = Some 1%Q).
Proof.
  intros H.
  destruct (H (example_env (Ok failing_encoder) llm_down) []
              (fst (fst (update_vector_db (example_env (Ok failing_encoder) llm_down)
                           [text_file "cv.txt" "Jane Doe"] initial_state None)))
              ("What is your name?" : str) [] []
              ltac:(discriminate) eq_refl ltac:(vm_compute; discriminate)) as [Hp _].
  vm_compute in Hp. discriminate Hp.
Qed.

(** C8 (amended): for every query with a non-empty text that arrives
    while the vector database is initialised, whose lower-cased query text
    and field context together contain one of the keywords name, email,
    phone, mobile, contact, address, and whose documents list is not
    empty, the pipeline does no retrieval (the encoder and the embeddings
    are not used and the state is untouched), gives the contents of the
    first three chunks, joined by a blank line, to the answer synthesis,
    and returns its text with provenance [header-extraction] and
    confidence [1.0]. *)
Theorem query_personal_info_shortcut :
  forall (env : Env) (w : list bool) (st : State)
         (query_text field_context partial_input : str),
    query_text <> [] ->
    vector_db_initialized st = true ->
    documents st <> [] ->
    Py.contains_any personal_keywords
      (Py.lower query_text ++ " " ++ Py.lower field_context) = true ->
    query env w st query_text field_context partial_input
    = (st,
       {| status := 200;
          answer :=
            Some (fst (generate_answer env w query_text
                         (Py.join [Py.nl; Py.nl]
                                  (map content (firstn 3 (documents st))))
                         field_context partial_input));
          provenance := Some ("header-extraction" : str);
          confidence := Some 1%Q;
          error := None |}).
Proof.
  intros env w st query_text field_context partial_input Hq Hinit Hdocs Hkw.
  unfold query. rewrite (truthy_nonempty _ Hq), Hinit.
  unfold is_personal_info. rewrite lower_nil_or_field, Hkw.
  destruct (documents st) as [|d docs] eqn:E; [congruence|].
  cbn [negb length Nat.ltb Nat.leb andb].
  destruct (generate_answer _ _ _ _ _ _) as [text w']. reflexivity.
Qed.

Lemma query_personal_info_shortcut_witness :
  snd (query (example_env (Raise "unused") llm_down) [] (indexed_state "Jane Doe")
             "What is your name?" "Full name" "")
  = {| status := 200; answer := Some ("Jane Doe" : str);
       provenance := Some ("header-extraction" : str);
       confidence := Some 1%Q; error := None |}.
Proof.
  rewrite (query_personal_info_shortcut
             (example_env (Raise "unused") llm_down) [] (indexed_state "Jane Doe")
             "What is your name?" "Full name" "");
    [reflexivity | discriminate | reflexivity | discriminate | reflexivity].
Defined.

(** On the retrieval path the answer text, the tag and the confidence of a
    successful response: the tag follows the availability check made
    after the answer was produced, the confidence is the first score. *)
Lemma query_retrieval_response :
  forall (env : Env) (w : list bool) (st : State) (model : Encoder)
         (query_text field_context partial_input : str)
         (v : vec) (rest : matrix) (i : nat) (score : Q) (hits : list (nat * Q))
         (docs : list Doc),
    encoder st = Some model ->
    encode model [if Py.truthy field_context
                  then field_context ++ ": " ++ query_text else query_text]
      = Ok (v :: rest) ->
    retrieve env (embeddings st) (normalize env v) = Ok ((i, score) :: hits) ->
    traverse (fun hit => index (documents st) (fst hit)) ((i, score) :: hits) = Ok docs ->
    let context := Py.join [Py.nl; Py.nl] (map content docs) in
    let traced :=
      generate_answer_traced env w query_text context field_context partial_input in
    query_retrieval env w st query_text field_context partial_input
    = (st,
       {| status := 200;
          answer := Some (fst (fst traced));
          provenance :=
            Some (if fst (check_llama_available (snd traced))
                  then "llama-local" : str else "simple-extraction" : str);
          confidence := Some score;
          error := None |}).
Proof.
  intros env w st model query_text field_context partial_input v rest i score hits docs
         Henc Hencode Hret Hdocs context traced.
  unfold query_retrieval, load_embedding_model. rewrite Henc, Hencode.
  cbn [bind index nth_error]. rewrite Hret. cbn [bind].
  rewrite Hdocs. cbn [bind]. fold context.
  unfold generate_answer. fold traced.
  destruct traced as [[text who] w1]. cbn [fst snd].
  destruct (check_llama_available w1) as [available w2]. reflexivity.
Qed.

(** C3 (the code at the failing input): Ollama is reported available at
    both checks but [ollama.generate] raises, so the text is produced by
    the rule-based extraction; the response is tagged [llama-local]
    nevertheless.  The confidence is the top score. *)
Theorem query_tag_follows_availability_not_branch :
  let env := example_env (Ok (constant_encoder [[1]]%Q)) llm_down in
  let st := {| encoder := None;
               documents := [one_doc "My skills are Python and Rocq. I live in Paris"];
               embeddings := Some [[1]]%Q;
               vector_db_initialized := true |} in
  snd (query env [true; true] st "skills" "" "")
  = {| status := 200; answer := Some ("My skills are Python and Rocq" : str);
       provenance := Some ("llama-local" : str);
       confidence := Some 1%Q; error := None |}
  /\ generate_answer_traced env [true; true] "skills"
       "My skills are Python and Rocq. I live in Paris" "" ""
     = ("My skills are Python and Rocq" : str, ByExtraction, [true])
  /\ retrieve env (embeddings st) [1]%Q = Ok [(0, 1%Q)].
Proof.
  cbv zeta. repeat split.
Qed.

(* ====================================================================== *)
(** * The fallback extractor *)
(* ====================================================================== *)

(** C5 as stated fails: a keyword that only the field context carries does
    not select the email branch. *)
Lemma classify_ignores_field_context_for_email :
  ~ (forall query field_context : str,
       classify query field_context = classify_spec query field_context).
Proof.
  intros H. specialize (H ("what is it" : str) ("Email" : str)).
  vm_compute in H. discriminate H.
Qed.

(** C5 (amended): the fallback puts every input into exactly one of the
    categories name, email, phone, url, generic; the keywords of name,
    email and phone are tested on the lower-cased query alone, those of
    url on the lower-cased query followed by a space and the lower-cased
    field context; the categories are tried in the order name, email,
    phone, url, generic and the first that matches wins. *)
Theorem classify_first_match_wins :
  forall query field_context : str,
    let q := Py.lower query in
    let qf := q ++ " " ++ Py.lower field_context in
    (classify query field_context = Name
       <-> Py.contains_any name_keywords q = true)
    /\ (classify query field_context = Email
       <-> Py.contains_any name_keywords q = false
           /\ Py.contains_any email_keywords q = true)
    /\ (classify query field_context = Phone
       <-> Py.contains_any name_keywords q = false
           /\ Py.contains_any email_keywords q = false
           /\ Py.contains_any phone_keywords q = true)
    /\ (classify query field_context = Url
       <-> Py.contains_any name_keywords q = false
           /\ Py.contains_any email_keywords q = false
           /\ Py.contains_any phone_keywords q = false
           /\ Py.contains_any url_keywords qf = true)
    /\ (classify query field_context = Generic
       <-> Py.contains_any name_keywords q = false
           /\ Py.contains_any email_keywords q = false
           /\ Py.contains_any phone_keywords q = false
           /\ Py.contains_any url_keywords qf = false).
Proof.
  intros query field_context q qf. unfold classify. fold q. fold qf.
  destruct (Py.contains_any name_keywords q);
    destruct (Py.contains_any email_keywords q);
    destruct (Py.contains_any phone_keywords q);
    destruct (Py.contains_any url_keywords qf);
    repeat split; intros; try discriminate; try reflexivity;
    repeat match goal with H : _ /\ _ |- _ => destruct H end; try discriminate.
Qed.

Lemma classify_first_match_wins_witness :
  classify "What is your email?" "Full name" = Email
  /\ classify "what is it" "Email" = Generic
  /\ classify "profile" "LinkedIn" = Url.
Proof.
  split; [|split].
  - apply (proj1 (proj2 (classify_first_match_wins "What is your email?" "Full name"))).
    split; reflexivity.
  - apply
      (proj2 (proj2 (proj2 (proj2 (classify_first_match_wins "what is it" "Email"))))).
    repeat split.
  - apply (proj1 (proj2 (proj2 (proj2 (classify_first_match_wins "profile" "LinkedIn"))))).
    repeat split.
Defined.

(** The three categories tested on the query alone do not depend on the
    field context. *)
Lemma classify_field_context_irrelevant :
  forall query fc fc' : str,
    classify query fc = Name \/ classify query fc = Email \/ classify query fc = Phone ->
    classify query fc' = classify query fc.
Proof.
  intros query fc fc'. unfold classify.
  destruct (Py.contains_any name_keywords (Py.lower query)); [reflexivity|].
  destruct (Py.contains_any email_keywords (Py.lower query)); [reflexivity|].
  destruct (Py.contains_any phone_keywords (Py.lower query)); [reflexivity|].
  intros [H|[H|H]];
    destruct (Py.contains_any url_keywords _); discriminate.
Qed.

(** ** The header rule of the name branch *)

Lemma orelse_some {A} (a : A) (b : option A) : Re.orelse (Some a) b = Some a.
Proof. reflexivity. Qed.

(** A greedy repetition that can take the whole run [w], after which the
    class does not go on, hands the rest to its continuation. *)
Lemma rep_whole_run {A} (p : ascii -> bool) :
  forall (w : str) (lo : nat) (rest : str) (k : str -> option A) (a : A),
    forallb p w = true -> lo <= length w -> stops p rest = true ->
    k rest = Some a ->
    Re.rep p lo (w ++ rest) k = Some a.
Proof.
  induction w as [|c w IH]; intros lo rest k a Hall Hlo Hstop Hk.
  - cbn [length] in Hlo. assert (lo = 0) as -> by lia. cbn [app].
    destruct rest as [|c rest]; cbn [Re.rep Nat.eqb]; [assumption|].
    cbn [stops] in Hstop. apply negb_true_iff in Hstop. rewrite Hstop. assumption.
  - cbn [forallb] in Hall. apply andb_true_iff in Hall as [Hc Hall].
    cbn [app Re.rep]. rewrite Hc.
    rewrite (IH (pred lo) rest k a); [reflexivity | assumption | | assumption | assumption].
    cbn [length] in Hlo. lia.
Qed.

Lemma bt_cap_word {A} :
  forall (total : nat) (w rest : str) (cap : option str)
         (k : str -> option str -> option A) (a : A),
    capitalized w = true -> stops Py.is_lower rest = true ->
    k rest cap = Some a ->
    Re.bt Re.cap_word total (w ++ rest) cap k = Some a.
Proof.
  intros total w rest cap k a Hw Hstop Hk.
  destruct w as [|c w]; [discriminate|]. cbn [capitalized] in Hw.
  apply andb_true_iff in Hw as [Hw Hlow]. apply andb_true_iff in Hw as [Hup Hne].
  unfold Re.cap_word. cbn [Re.bt app]. rewrite Hup.
  apply rep_whole_run; try assumption.
  destruct w; [discriminate | cbn [length]; lia].
Qed.

Lemma bt_ws1 {A} :
  forall (total : nat) (sp rest : str) (cap : option str)
         (k : str -> option str -> option A) (a : A),
    blank sp = true -> stops Py.isspace rest = true ->
    k rest cap = Some a ->
    Re.bt Re.ws1 total (sp ++ rest) cap k = Some a.
Proof.
  intros total sp rest cap k a Hsp Hstop Hk.
  unfold blank in Hsp. apply andb_true_iff in Hsp as [Hne Hall].
  unfold Re.ws1. cbn [Re.bt].
  apply rep_whole_run; try assumption.
  destruct sp; [discriminate | cbn [length]; lia].
Qed.

Lemma upper_not_space : forall c, Py.is_upper c = true -> Py.isspace c = false.
Proof.
  intros c. destruct c as [[] [] [] [] [] [] [] []]; vm_compute; congruence.
Qed.

Lemma lower_not_space : forall c, Py.is_lower c = true -> Py.isspace c = false.
Proof.
  intros c. destruct c as [[] [] [] [] [] [] [] []]; vm_compute; congruence.
Qed.

Lemma space_not_lower : forall c, Py.isspace c = true -> Py.is_lower c = false.
Proof.
  intros c. destruct c as [[] [] [] [] [] [] [] []]; vm_compute; congruence.
Qed.

Lemma stops_lower_blank : forall sp rest,
  blank sp = true -> stops Py.is_lower (sp ++ rest) = true.
Proof.
  intros [|c sp] rest H; [discriminate|]. unfold blank in H.
  cbn [Py.truthy forallb andb] in H. apply andb_true_iff in H as [Hc _].
  cbn [app stops]. rewrite (space_not_lower _ Hc). reflexivity.
Qed.

Lemma stops_space_capitalized : forall w rest,
  capitalized w = true -> stops Py.isspace (w ++ rest) = true.
Proof.
  intros [|c w] rest H; [discriminate|]. cbn [capitalized] in H.
  apply andb_true_iff in H as [H _]. apply andb_true_iff in H as [Hc _].
  cbn [app stops]. rewrite (upper_not_space _ Hc). reflexivity.
Qed.

Lemma lstrip_nonspace : forall c s, Py.isspace c = false -> Py.lstrip (c :: s) = c :: s.
Proof. intros c s H. cbn [Py.lstrip]. rewrite H. reflexivity. Qed.

Lemma strip_nonspace_ends : forall c mid z,
  Py.isspace c = false -> Py.isspace z = false ->
  Py.strip (c :: mid ++ [z]) = c :: mid ++ [z].
Proof.
  intros c mid z Hc Hz. unfold Py.strip, Py.rstrip.
  rewrite lstrip_nonspace by assumption.
  change (c :: mid ++ [z]) with ((c :: mid) ++ [z]).
  rewrite rev_app_distr. cbn [rev app].
  rewrite lstrip_nonspace by assumption.
  change (z :: rev mid ++ [c]) with ([z] ++ rev (c :: mid)).
  rewrite rev_app_distr, rev_involutive. reflexivity.
Qed.

Lemma capitalized_last : forall w,
  capitalized w = true ->
  exists c mid z, w = c :: mid ++ [z] /\ Py.is_upper c = true /\ Py.is_lower z = true.
Proof.
  intros [|c w] H; [discriminate|]. cbn [capitalized] in H.
  apply andb_true_iff in H as [H Hlow]. apply andb_true_iff in H as [Hc Hne].
  destruct (exists_last (l := w)) as (mid & z & ->); [destruct w; discriminate|].
  exists c, mid, z. repeat split; [assumption|].
  rewrite forallb_app in Hlow. apply andb_true_iff in Hlow as [_ Hz].
  cbn [forallb] in Hz. rewrite andb_true_r in Hz. assumption.
Qed.

Lemma header_shape_strip : forall line,
  header_shape line -> Py.strip line = line.
Proof.
  intros line (w1 & sp1 & w2 & tail & -> & H1 & Hs1 & H2 & Htail).
  destruct (capitalized_last _ H1) as (c & mid1 & z1 & -> & Hc & _).
  assert (Hend : exists mid z, sp1 ++ w2 ++ tail = mid ++ [z] /\ Py.is_lower z = true).
  { destruct Htail as [->|(sp2 & w3 & -> & _ & H3)].
    - destruct (capitalized_last _ H2) as (c2 & mid2 & z2 & -> & _ & Hz).
      exists (sp1 ++ c2 :: mid2), z2. split; [|assumption].
      rewrite app_nil_r, <- app_assoc. reflexivity.
    - destruct (capitalized_last _ H3) as (c3 & mid3 & z3 & -> & _ & Hz).
      exists (sp1 ++ w2 ++ sp2 ++ c3 :: mid3), z3. split; [|assumption].
      rewrite <- !app_assoc. reflexivity. }
  destruct Hend as (mid & z & E & Hz).
  rewrite E.
  replace ((c :: mid1 ++ [z1]) ++ mid ++ [z]) with (c :: (mid1 ++ [z1] ++ mid) ++ [z]).
  - apply strip_nonspace_ends; [apply upper_not_space | apply lower_not_space]; assumption.
  - cbn [app]. rewrite <- !app_assoc. reflexivity.
Qed.

(** The header pattern accepts a line of that shape and captures it
    whole. *)
Lemma header_name_accepts : forall line,
  header_shape line ->
  Re.match_ Re.header_name line
  = Some {| Re.group0 := line; Re.group1 := Some line; Re.after := [] |}.
Proof.
  intros line (w1 & sp1 & w2 & tail & E & H1 & Hs1 & H2 & Htail).
  unfold Re.match_, Re.match_here, Re.header_name.
  cbn [Re.bt]. rewrite Nat.eqb_refl.
  set (final := Some {| Re.group0 := line; Re.group1 := Some line; Re.after := [] |}).
  set (k := fun (s1 : str) (_ : option str) =>
              Re.rep Py.isspace 0 s1
                (fun s' : str =>
                   match s' with
                   | [] =>
                       Some {| Re.group0 := firstn (length line - length s') line;
                               Re.group1 := Some (firstn (length line - length s1) line);
                               Re.after := s' |}
                   | [c] =>
                       if Py.eqb_char c Py.nl
                       then Some {| Re.group0 := firstn (length line - length s') line;
                                    Re.group1 := Some (firstn (length line - length s1) line);
                                    Re.after := s' |}
                       else None
                   | _ :: _ :: _ => None
                   end)).
  assert (Hk : k [] None = final).
  { unfold k, final. cbn [Re.rep Nat.eqb length]. rewrite Nat.sub_0_r, firstn_all.
    reflexivity. }
  assert (Hk' : forall cap, k [] cap = final) by (intros cap; exact Hk).
  change (Re.bt Re.cap_word (length line) line None
            (fun s1 cap1 =>
               Re.bt Re.ws1 (length line) s1 cap1
                 (fun s2 cap2 =>
                    Re.bt Re.cap_word (length line) s2 cap2
                      (fun s3 cap3 =>
                         Re.orelse
                           (Re.bt Re.ws1 (length line) s3 cap3
                              (fun s4 cap4 => Re.bt Re.cap_word (length line) s4 cap4 k))
                           (k s3 cap3)))) = final).
  rewrite E at 2.
  apply bt_cap_word; [assumption | apply stops_lower_blank; assumption |].
  apply bt_ws1; [assumption | apply stops_space_capitalized; assumption |].
  destruct Htail as [->|(sp2 & w3 & -> & Hs2 & H3)].
  - apply bt_cap_word; [assumption | reflexivity |].
    cbn [Re.bt Re.ws1 Re.rep Nat.eqb Re.orelse]. apply Hk'.
  - apply bt_cap_word; [assumption | apply stops_lower_blank; assumption |].
    rewrite <- (app_nil_r w3).
    rewrite (bt_ws1 (length line) sp2 (w3 ++ []) None _
               {| Re.group0 := line; Re.group1 := Some line; Re.after := [] |});
      [reflexivity | assumption | apply stops_space_capitalized; assumption |].
    apply bt_cap_word; [assumption | reflexivity | apply Hk'].
Qed.

(** C6 as stated fails: the token [A.] is not a capitalized word, the
    header rule rejects the line and no other rule finds a name. *)
Lemma fallback_name_rejects_middle_initial :
  ~ (forall query context field_context partial_input : str,
       classify query field_context = Name ->
       first_line context = ("John A. Smith" : str) ->
       fallback_extraction query context field_context partial_input
       = ("John A. Smith" : str)).
Proof.
  intros H.
  specialize (H ("What is your name?" : str) ("John A. Smith" : str) [] []
                eq_refl eq_refl).
  vm_compute in H. discriminate H.
Qed.

(** C6 (amended): when the query classifies as name and the first
    non-empty line of the context consists of two or three words, each an
    upper-case ASCII letter followed by one or more lower-case ASCII
    letters, separated by whitespace (for instance [John Adam Smith]),
    the fallback name extraction returns that line exactly. *)
Theorem fallback_name_header_line :
  forall query context field_context partial_input : str,
    classify query field_context = Name ->
    header_shape (first_line context) ->
    fallback_extraction query context field_context partial_input
    = first_line context.
Proof.
  intros query context field_context partial_input Hname Hshape.
  unfold fallback_extraction. rewrite Hname. unfold extract_name.
  rewrite (header_name_accepts _ Hshape). cbn [Re.group1].
  apply header_shape_strip. assumption.
Qed.

Lemma fallback_name_header_line_witness :
  fallback_extraction "What is your name?" "John Adam Smith" "" ""
  = ("John Adam Smith" : str).
Proof.
  apply (fallback_name_header_line "What is your name?" "John Adam Smith" "" "").
  - reflexivity.
  - exists ("John" : str), (" " : str), ("Adam" : str), (" Smith" : str).
    repeat split. right.
    exists (" " : str), ("Smith" : str). repeat split.
Defined.

(* ====================================================================== *)
(** * The accepted-answer log *)
(* ====================================================================== *)

Section SplitFacts.

Variable sep : str.
Hypothesis sep_nonempty : sep <> [].

Lemma eqb_char_eq : forall a b, Py.eqb_char a b = true -> a = b.
Proof. intros a b H. apply Ascii.eqb_eq. exact H. Qed.

Lemma startswith_self_app : forall p s : str, Py.startswith p (p ++ s) = true.
Proof.
  induction p as [|a p IH]; intros s; cbn [Py.startswith app]; [reflexivity|].
  unfold Py.eqb_char. rewrite Ascii.eqb_refl. apply IH.
Qed.

Lemma contains_app_intro : forall needle x y : str,
  Py.contains needle (x ++ needle ++ y) = true.
Proof.
  intros needle x y. induction x as [|c x IH]; cbn [app].
  - destruct (needle ++ y) eqn:E; cbn [Py.contains];
      rewrite <- E, startswith_self_app; reflexivity.
  - cbn [Py.contains]. rewrite IH. apply orb_true_r.
Qed.

Lemma contains_tail_false : forall (needle : str) c (s : str),
  Py.contains needle (c :: s) = false -> Py.contains needle s = false.
Proof.
  intros needle c s H. cbn [Py.contains] in H.
  apply orb_false_iff in H as [_ H]. exact H.
Qed.

Lemma contains_head_false : forall needle s : str,
  Py.contains needle s = false -> Py.startswith needle s = false.
Proof.
  intros needle s H. destruct s; cbn [Py.contains] in H;
    apply orb_false_iff in H as [H _]; exact H.
Qed.

(** A prefix that reaches a character foreign to it lies before that
    character. *)
Lemma startswith_before_foreign : forall (p front : str) c (back : str),
  ~ In c p -> Py.startswith p (front ++ c :: back) = true ->
  exists front', front = p ++ front'.
Proof.
  induction p as [|a p IH]; intros front c back Hc H.
  - exists front. reflexivity.
  - destruct front as [|x front]; cbn [app Py.startswith] in H;
      apply andb_true_iff in H as [Hax H]; apply eqb_char_eq in Hax; subst.
    + exfalso. apply Hc. left. reflexivity.
    + destruct (IH front c back) as (front' & ->); [|assumption|].
      * intros Hin. apply Hc. right. assumption.
      * exists front'. reflexivity.
Qed.

Lemma startswith_app_l : forall (p s t : str),
  Py.startswith p s = true -> Py.startswith p (s ++ t) = true.
Proof.
  induction p as [|a p IH]; intros s t H; [reflexivity|].
  destruct s as [|x s]; [discriminate|]. cbn [app Py.startswith] in *.
  apply andb_true_iff in H as [Hax H]. rewrite Hax, (IH _ _ H). reflexivity.
Qed.

Lemma skipn_length_app {A} : forall (p s : list A), skipn (length p) (p ++ s) = s.
Proof. induction p as [|a p IH]; intros s; cbn; [reflexivity | apply IH]. Qed.

(** Scanning up to a character that cannot be part of the separator: the
    scan arrives at that character with some piece in hand. *)
Lemma split_aux_reaches : forall (n : nat) (front : str) c (back : str)
    (fuel : nat) (acc : str),
  length front <= n -> ~ In c sep ->
  length (front ++ c :: back) < fuel ->
  exists pre acc' fuel',
    Py.split_aux sep fuel (front ++ c :: back) acc
    = pre ++ Py.split_aux sep fuel' (c :: back) acc'
    /\ length (c :: back) < fuel'.
Proof.
  induction n as [|n IH]; intros front c back fuel acc Hn Hc Hfuel.
  - destruct front; [|cbn [length] in Hn; lia].
    exists [], acc, fuel. split; [reflexivity | assumption].
  - destruct front as [|x front].
    + exists [], acc, fuel. split; [reflexivity | assumption].
    + destruct fuel as [|fuel]; [lia|]. cbn [Py.split_aux].
      destruct (Py.startswith sep ((x :: front) ++ c :: back)) eqn:E.
      * destruct (startswith_before_foreign _ _ _ _ Hc E) as (front' & Hfront).
        rewrite Hfront, <- app_assoc, skipn_length_app.
        assert (Hlen : length (x :: front) = length sep + length front')
          by (rewrite Hfront; apply length_app).
        assert (Hsep : 0 < length sep) by (destruct sep; [congruence | cbn; lia]).
        destruct (IH front' c back fuel []) as (pre & acc' & fuel' & Hs & Hf).
        -- cbn [length] in Hn, Hlen. lia.
        -- assumption.
        -- rewrite length_app in *. cbn [length] in *. lia.
        -- exists (rev acc :: pre), acc', fuel'. rewrite Hs. split; [reflexivity | assumption].
      * cbn [app].
        destruct (IH front c back fuel (x :: acc)) as (pre & acc' & fuel' & Hs & Hf).
        -- cbn [length] in Hn. lia.
        -- assumption.
        -- cbn [length app] in Hfuel. lia.
        -- exists pre, acc', fuel'. split; assumption.
Qed.

(** A stretch without separator, ended by a foreign character, goes into
    the current piece. *)
Lemma split_aux_through : forall (mid : str) c (back : str) (fuel : nat) (acc : str),
  Py.contains sep mid = false -> ~ In c sep ->
  length (mid ++ c :: back) < fuel ->
  exists fuel',
    Py.split_aux sep fuel (mid ++ c :: back) acc
    = Py.split_aux sep fuel' (c :: back) (rev mid ++ acc)
    /\ length (c :: back) < fuel'.
Proof.
  induction mid as [|x mid IH]; intros c back fuel acc Hfree Hc Hfuel.
  - exists fuel. split; [reflexivity | assumption].
  - destruct fuel as [|fuel]; [lia|]. cbn [Py.split_aux].
    destruct (Py.startswith sep ((x :: mid) ++ c :: back)) eqn:E.
    + exfalso.
      destruct (startswith_before_foreign _ _ _ _ Hc E) as (front' & Hfront).
      apply contains_head_false in Hfree. rewrite Hfront in Hfree.
      rewrite <- (app_nil_r sep) in Hfree at 1.
      rewrite startswith_app_l in Hfree; [discriminate|].
      rewrite app_nil_r. rewrite <- (app_nil_r sep) at 2. apply startswith_self_app.
    + cbn [app].
      destruct (IH c back fuel (x :: acc)) as (fuel' & Hs & Hf).
      * apply (contains_tail_false _ _ _ Hfree).
      * assumption.
      * cbn [length app] in Hfuel. lia.
      * exists fuel'. rewrite Hs. cbn [rev]. rewrite <- app_assoc. split; [reflexivity | assumption].
Qed.

(** The first piece that comes out starts with what was in hand. *)
Lemma split_aux_first : forall (fuel : nat) (s acc : str),
  exists e rest, Py.split_aux sep fuel s acc = (rev acc ++ e) :: rest.
Proof.
  induction fuel as [|fuel IH]; intros s acc; cbn [Py.split_aux].
  - exists s, []. reflexivity.
  - destruct (Py.startswith sep s).
    + exists [], (Py.split_aux sep fuel (skipn (length sep) s) []).
      rewrite app_nil_r. reflexivity.
    + destruct s as [|x s].
      * exists [], []. rewrite app_nil_r. reflexivity.
      * destruct (IH s (x :: acc)) as (e & rest & ->).
        exists (x :: e), rest. cbn [rev]. rewrite <- app_assoc. reflexivity.
Qed.

(** A separator-free stretch between two foreign characters ends up whole
    inside one entry. *)
Lemma split_keeps_stretch : forall (front mid back : str) c,
  ~ In c sep -> Py.contains sep mid = false ->
  exists x y, In (x ++ mid ++ y) (Py.split sep (front ++ c :: mid ++ c :: back)).
Proof.
  intros front mid back c Hc Hfree. unfold Py.split.
  destruct (split_aux_reaches (length front) front c (mid ++ c :: back)
              (S (length (front ++ c :: mid ++ c :: back))) [])
    as (pre & acc' & fuel' & Hs & Hf); [lia | assumption | lia |].
  rewrite Hs. clear Hs.
  destruct fuel' as [|fuel']; [cbn [length] in Hf; lia|].
  cbn [Py.split_aux].
  assert (Hhead : Py.startswith sep (c :: mid ++ c :: back) = false).
  { destruct (Py.startswith sep (c :: mid ++ c :: back)) eqn:E; [|reflexivity].
    exfalso. destruct (startswith_before_foreign sep [] c (mid ++ c :: back) Hc E)
      as (front' & Hfront).
    destruct sep; [congruence | discriminate]. }
  rewrite Hhead.
  destruct (split_aux_through mid c back fuel' (c :: acc') Hfree Hc)
    as (fuel'' & Hs & Hf'); [cbn [length] in Hf; lia|].
  rewrite Hs.
  destruct (split_aux_first fuel'' (c :: back) (rev mid ++ c :: acc'))
    as (e & rest & ->).
  exists (rev acc' ++ [c]), e.
  apply in_or_app. right. left.
  rewrite rev_app_distr, rev_involutive. cbn [rev]. rewrite <- !app_assoc.
  reflexivity.
Qed.

End SplitFacts.

Lemma newline_not_in_rule : ~ In Py.nl rule.
Proof.
  intros H. unfold rule, Py.times in H. apply repeat_spec in H. discriminate H.
Qed.

(** The text between the first rule of a block and its [Date:] line. *)
Lemma block_stretch : forall field_context partial_input answer timestamp : str,
  block field_context partial_input answer timestamp
  = ([Py.nl] ++ rule) ++ Py.nl ::
    (field_line field_context ++ [Py.nl]
     ++ (if Py.truthy partial_input
         then "User Typed (Hint): " ++ partial_input ++ [Py.nl] else [])
     ++ answer_line answer)
    ++ Py.nl :: ("Date: " ++ timestamp ++ [Py.nl] ++ rule ++ [Py.nl]).
Proof.
  intros. unfold block. rewrite <- !app_assoc. reflexivity.
Qed.

(* ====================================================================== *)
(** * Reading the log back *)
(* ====================================================================== *)

Lemma contains_char_false : forall c (s : str),
  Py.contains [c] s = false -> ~ In c s.
Proof.
  intros c s. induction s as [|x s IH]; intros H Hin; [destruct Hin|].
  cbn [Py.contains Py.startswith] in H. apply orb_false_iff in H as [Hx Hs].
  destruct Hin as [Hin|Hin]; [|apply (IH Hs Hin)].
  subst x. unfold Py.eqb_char in Hx. rewrite Ascii.eqb_refl in Hx. discriminate Hx.
Qed.

Lemma read_text_newline : forall s : str,
  read_text (Py.nl :: s) = Py.nl :: read_text s.
Proof. reflexivity. Qed.

(** Text without carriage return is read back as it was written. *)
Lemma read_text_plain : forall lines rest : str,
  ~ In Py.cr lines -> read_text (lines ++ rest) = lines ++ read_text rest.
Proof.
  induction lines as [|c lines IH]; intros rest H; [reflexivity|].
  cbn [app read_text].
  destruct (Py.eqb_char c Py.cr) eqn:E.
  - exfalso. apply H. left. symmetry. apply Ascii.eqb_eq. exact E.
  - rewrite IH; [reflexivity|]. intros Hin. apply H. right. exact Hin.
Qed.

(** What is read from the end of a file does not depend on what comes
    before it: a carriage return that ends the front part is dropped
    before a newline and becomes one otherwise. *)
Lemma read_text_app : forall before rest : str,
  exists front, read_text (before ++ rest) = front ++ read_text rest.
Proof.
  induction before as [|c before IH]; intros rest.
  - exists []. reflexivity.
  - destruct (IH rest) as (front & Hfront).
    cbn [app read_text]. destruct (Py.eqb_char c Py.cr).
    + destruct (before ++ rest) as [|c' tail] eqn:E.
      * apply app_eq_nil in E as [_ ->]. exists [Py.nl]. reflexivity.
      * destruct (Py.eqb_char c' Py.nl).
        -- exists front. exact Hfront.
        -- exists (Py.nl :: front). rewrite Hfront. reflexivity.
    + exists (c :: front). rewrite Hfront. reflexivity.
Qed.

(** Lines without carriage return, written between two newlines, are read
    back between two newlines. *)
Lemma read_text_keeps_lines : forall before lines after : str,
  ~ In Py.cr lines ->
  exists front back,
    read_text (before ++ Py.nl :: lines ++ Py.nl :: after)
    = front ++ Py.nl :: lines ++ Py.nl :: back.
Proof.
  intros before lines after H.
  destruct (read_text_app before (Py.nl :: lines ++ Py.nl :: after)) as (front & ->).
  exists front, (read_text after).
  rewrite read_text_newline, (read_text_plain lines _ H), read_text_newline.
  reflexivity.
Qed.

(** Lines that hold neither a rule nor a carriage return end up whole
    inside one entry of the file as the duplicate check reads and splits
    it. *)
Lemma read_back_entry : forall before lines after : str,
  Py.contains rule lines = false ->
  Py.contains [Py.cr] lines = false ->
  exists x y,
    In (x ++ lines ++ y)
       (Py.split rule (read_text (before ++ Py.nl :: lines ++ Py.nl :: after))).
Proof.
  intros before lines after Hrule Hcr.
  destruct (read_text_keeps_lines before lines after (contains_char_false _ _ Hcr))
    as (front & back & ->).
  apply (split_keeps_stretch rule ltac:(discriminate) front lines back Py.nl
           newline_not_in_rule Hrule).
Qed.

(** The entry of a block just appended to the file. *)
Lemma block_read_back_entry :
  forall raw field_context partial_input answer timestamp : str,
    let lines := field_line field_context ++ [Py.nl]
                 ++ (if Py.truthy partial_input
                     then "User Typed (Hint): " ++ partial_input ++ [Py.nl] else [])
                 ++ answer_line answer in
    Py.contains rule lines = false ->
    Py.contains [Py.cr] lines = false ->
    exists x y,
      In (x ++ lines ++ y)
         (Py.split rule
            (read_text (raw ++ block field_context partial_input answer timestamp))).
Proof.
  intros raw field_context partial_input answer timestamp lines Hrule Hcr.
  rewrite block_stretch, app_assoc. fold lines.
  apply read_back_entry; assumption.
Qed.

(** Once a block is written whose lines hold neither a rule nor a carriage
    return, the duplicate check finds the pair. *)
Lemma already_saved_after_append :
  forall raw field_context partial_input answer timestamp : str,
    let lines := field_line field_context ++ [Py.nl]
                 ++ (if Py.truthy partial_input
                     then "User Typed (Hint): " ++ partial_input ++ [Py.nl] else [])
                 ++ answer_line answer in
    Py.contains rule lines = false ->
    Py.contains [Py.cr] lines = false ->
    already_saved (read_text (raw ++ block field_context partial_input answer timestamp))
                  field_context answer = true.
Proof.
  intros raw field_context partial_input answer timestamp lines Hrule Hcr.
  destruct (block_read_back_entry raw field_context partial_input answer timestamp
              Hrule Hcr) as (x & y & Hin).
  fold lines in Hin. unfold already_saved.
  apply existsb_exists. eexists. split; [exact Hin|].
  unfold lines. set (hint := if Py.truthy partial_input
                             then "User Typed (Hint): " ++ partial_input ++ [Py.nl]
                             else []).
  apply andb_true_iff. split.
  - rewrite <- !app_assoc. apply contains_app_intro.
  - replace (x ++ (field_line field_context ++ [Py.nl] ++ hint ++ answer_line answer) ++ y)
      with ((x ++ field_line field_context ++ [Py.nl] ++ hint) ++ answer_line answer ++ y)
      by (rewrite <- !app_assoc; reflexivity).
    apply contains_app_intro.
Qed.

(** C9 (the code at the failing inputs): the duplicate check that the
    comment of line 640 announces as a check for this exact field+value
    combination does not find a pair it has just stored when the written
    lines hold a rule of 60 [=] or a carriage return, so the second save
    of the same pair appends a second block.  First input: the log does
    not exist, the field is [Notes] and the answer is the rule itself; the
    split on the rule cuts the [Answer:] line off the entry of its
    [Field:] line.  Second input: the field is [Full], a carriage return,
    [Name]; the file gives the carriage return back as a newline, and the
    [Field:] line of the request is no longer a piece of what was read.
    In both cases each of the two saves answers [Accepted answer saved]
    and the file holds the same block twice. *)
Theorem save_accepted_answer_same_pair_stored_twice :
  let env := example_env (Raise "unused") llm_down in
  let saved := {| save_status := 200; save_success := true;
                  save_message := Some ("Accepted answer saved" : str);
                  save_error := None |} in
  (let req := {| req_fieldContext := Some ("Notes" : str);
                 req_answer := Some rule;
                 req_partialInput := None; req_timestamp := None |} in
   let stored := block "Notes" "" rule (now env) in
   save_accepted_answer env None req = (Some stored, saved)
   /\ save_accepted_answer env (Some stored) req = (Some (stored ++ stored), saved))
  /\
  (let field := ("Full" : str) ++ [Py.cr] ++ ("Name" : str) in
   let req := {| req_fieldContext := Some field;
                 req_answer := Some ("Jane Doe" : str);
                 req_partialInput := None; req_timestamp := None |} in
   let stored := block field "" "Jane Doe" (now env) in
   save_accepted_answer env None req = (Some stored, saved)
   /\ save_accepted_answer env (Some stored) req = (Some (stored ++ stored), saved)
   /\ Py.contains (field_line field) stored = true
   /\ Py.contains (field_line field) (read_text stored) = false).
Proof.
  cbv zeta. vm_compute. repeat split.
Qed.

(* ====================================================================== *)
(** * Further properties of the text primitives and of [chunk_text] *)
(* ====================================================================== *)

Lemma lstrip_split : forall s : str,
  exists ws, s = ws ++ Py.lstrip s /\ forallb Py.isspace ws = true.
Proof.
  induction s as [|c s IH].
  - exists []. split; reflexivity.
  - cbn [Py.lstrip]. destruct (Py.isspace c) eqn:E.
    + destruct IH as (ws & Hs & Hws). exists (c :: ws). split.
      * cbn [app]. rewrite <- Hs. reflexivity.
      * cbn [forallb]. rewrite E, Hws. reflexivity.
    + exists []. split; reflexivity.
Qed.

Lemma lstrip_stops : forall s : str, stops (fun c => negb (Py.isspace c)) (Py.lstrip s) = true
  \/ exists c t, Py.lstrip s = c :: t /\ Py.isspace c = false.
Proof.
  induction s as [|c s IH]; cbn [Py.lstrip].
  - left. reflexivity.
  - destruct (Py.isspace c) eqn:E; [exact IH|].
    right. exists c, s. split; [reflexivity | assumption].
Qed.

Lemma lstrip_idem : forall s : str, Py.lstrip (Py.lstrip s) = Py.lstrip s.
Proof.
  induction s as [|c s IH]; cbn [Py.lstrip]; [reflexivity|].
  destruct (Py.isspace c) eqn:E; [exact IH|].
  cbn [Py.lstrip]. rewrite E. reflexivity.
Qed.

Lemma lstrip_head_nonspace : forall s c t,
  Py.lstrip s = c :: t -> Py.isspace c = false.
Proof.
  induction s as [|x s IH]; intros c t H; cbn [Py.lstrip] in H; [discriminate|].
  destruct (Py.isspace x) eqn:E; [apply (IH _ _ H)|].
  inversion H; subst. assumption.
Qed.

Lemma rstrip_split : forall s : str,
  exists ws, s = Py.rstrip s ++ ws /\ forallb Py.isspace ws = true.
Proof.
  intros s. unfold Py.rstrip.
  destruct (lstrip_split (rev s)) as (ws & Hs & Hws).
  exists (rev ws). split.
  - rewrite <- rev_app_distr, <- Hs, rev_involutive. reflexivity.
  - rewrite forallb_forall in *. intros c Hc. apply Hws. apply in_rev. assumption.
Qed.

(** [strip] removes whitespace at both ends and nothing else. *)
Lemma strip_split : forall s : str,
  exists ws1 ws2,
    s = ws1 ++ Py.strip s ++ ws2
    /\ forallb Py.isspace ws1 = true /\ forallb Py.isspace ws2 = true.
Proof.
  intros s. unfold Py.strip.
  destruct (lstrip_split s) as (ws1 & Hs1 & Hws1).
  destruct (rstrip_split (Py.lstrip s)) as (ws2 & Hs2 & Hws2).
  exists ws1, ws2. split; [|split; assumption].
  rewrite <- Hs2. assumption.
Qed.

Lemma lstrip_app_nonspace : forall (u : str) c,
  Py.isspace c = false -> exists x, Py.lstrip (u ++ [c]) = x ++ [c].
Proof.
  induction u as [|a u IH]; intros c Hc.
  - exists []. cbn [app Py.lstrip]. rewrite Hc. reflexivity.
  - cbn [app Py.lstrip]. destruct (Py.isspace a).
    + apply IH. assumption.
    + exists (a :: u). reflexivity.
Qed.

Lemma rstrip_keeps_head : forall c (t : str),
  Py.isspace c = false -> exists x, Py.rstrip (c :: t) = c :: x.
Proof.
  intros c t Hc. unfold Py.rstrip. cbn [rev].
  destruct (lstrip_app_nonspace (rev t) c Hc) as (x & ->).
  exists (rev x). rewrite rev_app_distr. reflexivity.
Qed.

Lemma rstrip_idem : forall s : str, Py.rstrip (Py.rstrip s) = Py.rstrip s.
Proof.
  intros s. unfold Py.rstrip. rewrite rev_involutive, lstrip_idem. reflexivity.
Qed.

Lemma strip_idem : forall s : str, Py.strip (Py.strip s) = Py.strip s.
Proof.
  intros s. unfold Py.strip.
  destruct (Py.lstrip s) as [|c t] eqn:E.
  - reflexivity.
  - pose proof (lstrip_head_nonspace _ _ _ E) as Hc.
    destruct (rstrip_keeps_head c t Hc) as (x & Hx).
    rewrite Hx. cbn [Py.lstrip]. rewrite Hc. rewrite <- Hx. apply rstrip_idem.
Qed.

Lemma strip_length : forall s : str, length (Py.strip s) <= length s.
Proof.
  intros s. destruct (strip_split s) as (ws1 & ws2 & Hs & _).
  rewrite Hs at 2. rewrite !length_app. lia.
Qed.

Lemma substring_refl : forall s : str, substring s s.
Proof. intros s. exists [], []. rewrite app_nil_r. reflexivity. Qed.

Lemma substring_trans : forall a b c : str,
  substring a b -> substring b c -> substring a c.
Proof.
  intros a b c (x & y & ->) (u & v & ->).
  exists (u ++ x), (y ++ v). rewrite <- !app_assoc. reflexivity.
Qed.

Lemma strip_substring : forall s : str, substring (Py.strip s) s.
Proof.
  intros s. destruct (strip_split s) as (ws1 & ws2 & Hs & _).
  exists ws1, ws2. assumption.
Qed.


Lemma slice_substring : forall (s : str) (a b : Z), substring (Py.slice s a b) s.
Proof.
  intros s a b. unfold Py.slice.
  set (m := Z.to_nat _). set (n := Z.to_nat _).
  exists (firstn n s), (skipn m (skipn n s)).
  rewrite firstn_skipn, firstn_skipn. reflexivity.
Qed.

Lemma slice_length : forall (s : str) (a size : Z),
  (0 <= a)%Z -> (0 <= size)%Z ->
  (Z.of_nat (length (Py.slice s a (a + size))) <= size)%Z.
Proof.
  intros s a size Ha Hsize. unfold Py.slice, Py.clamp_index.
  destruct (Z.ltb_spec a 0); [lia|].
  destruct (Z.ltb_spec (a + size) 0); [lia|].
  rewrite length_firstn. lia.
Qed.

(** The members of the window list. *)
Lemma in_windows : forall (text : str) (chunk_size overlap : Z) (chunk : str),
  In chunk (windows text chunk_size overlap) <->
  chunk <> [] /\
  exists k, k < window_count (Py.len text) (chunk_size - overlap)
            /\ chunk = Py.strip (Py.slice text (Z.of_nat k * (chunk_size - overlap))
                                   (Z.of_nat k * (chunk_size - overlap) + chunk_size)).
Proof.
  intros text chunk_size overlap chunk. unfold windows, window_starts.
  rewrite filter_In, map_map, in_map_iff. split.
  - intros [(k & <- & Hk) Hne]. apply in_seq in Hk. split.
    + intros E. rewrite E in Hne. discriminate.
    + exists k. split; [lia | reflexivity].
  - intros [Hne (k & Hk & ->)]. split.
    + exists k. split; [reflexivity | apply in_seq; lia].
    + destruct (Py.strip _); [congruence | reflexivity].
Qed.

(** X1: with [0 <= overlap < chunk_size], every chunk that [chunk_text]
    returns is non-empty, has no whitespace at its ends, is at most
    [chunk_size] characters long and is a contiguous piece of the text;
    and there are at most as many chunks as window starts, which is at
    most the length of the text. *)
Theorem chunk_text_chunks_well_formed :
  forall (text : str) (chunk_size overlap : Z) (fuel : nat) (chunks : list str),
    (0 <= overlap < chunk_size)%Z -> length text <= fuel ->
    chunk_text_fuel fuel text chunk_size overlap = Some chunks ->
    Forall (fun chunk => chunk <> [] /\ Py.strip chunk = chunk
                         /\ (Py.len chunk <= chunk_size)%Z
                         /\ substring chunk text) chunks
    /\ length chunks <= window_count (Py.len text) (chunk_size - overlap)
    /\ window_count (Py.len text) (chunk_size - overlap) <= length text.
Proof.
  intros text chunk_size overlap fuel chunks Hpar Hfuel Hrun.
  rewrite chunk_text_fuel_windows in Hrun by (lia || assumption).
  inversion Hrun; subst chunks; clear Hrun. split; [|split].
  - apply Forall_forall. intros chunk Hin.
    apply in_windows in Hin as [Hne (k & Hk & ->)].
    split; [assumption|]. split; [apply strip_idem|]. split.
    + unfold Py.len.
      pose proof (strip_length (Py.slice text (Z.of_nat k * (chunk_size - overlap))
                     (Z.of_nat k * (chunk_size - overlap) + chunk_size))) as H1.
      pose proof (slice_length text (Z.of_nat k * (chunk_size - overlap)) chunk_size) as H2.
      assert (0 <= Z.of_nat k * (chunk_size - overlap))%Z by nia.
      lia.
    + apply (substring_trans _ _ _ (strip_substring _)). apply slice_substring.
  - unfold windows, window_starts.
    eapply Nat.le_trans; [apply filter_length_le|].
    rewrite !length_map, length_seq. apply Nat.le_refl.
  - pose proof (window_count_le (Py.len text) (chunk_size - overlap)) as H.
    unfold Py.len in *. lia.
Qed.

Lemma chunk_text_chunks_well_formed_witness :
  Forall (fun chunk => chunk <> [] /\ Py.strip chunk = chunk
                       /\ (Py.len chunk <= 6)%Z
                       /\ substring chunk ("  ab cd   ef  " : str))
         [("ab c" : str); ("cd" : str); ("ef" : str)].
Proof.
  apply (chunk_text_chunks_well_formed ("  ab cd   ef  " : str) 6 2 14
           [("ab c" : str); ("cd" : str); ("ef" : str)]);
    [lia | simpl; lia | reflexivity].
Defined.




(* ====================================================================== *)
(** * Further properties of the rebuild *)
(* ====================================================================== *)

Lemma combine_seq_snd {A} : forall (l : list A) (a : nat),
  map snd (combine (seq a (length l)) l) = l.
Proof.
  induction l as [|x l IH]; intros a; cbn; [reflexivity|].
  rewrite IH. reflexivity.
Qed.

Lemma combine_seq_fst {A} : forall (l : list A) (a : nat),
  map fst (combine (seq a (length l)) l) = seq a (length l).
Proof.
  induction l as [|x l IH]; intros a; cbn; [reflexivity|].
  rewrite IH. reflexivity.
Qed.

Lemma docs_of_chunks_content : forall name chunks,
  map content (docs_of_chunks name chunks) = chunks.
Proof.
  intros name chunks. unfold docs_of_chunks. rewrite map_map. cbn [content].
  apply combine_seq_snd.
Qed.

Lemma docs_of_chunks_index : forall name chunks,
  map chunkIndex (docs_of_chunks name chunks) = seq 0 (length chunks).
Proof.
  intros name chunks. unfold docs_of_chunks. rewrite map_map. cbn [chunkIndex].
  apply combine_seq_fst.
Qed.

Lemma docs_of_chunks_member : forall name chunks d,
  In d (docs_of_chunks name chunks) ->
  source d = name /\ totalChunks d = length chunks
  /\ chunkIndex d < length chunks /\ In (content d) chunks.
Proof.
  intros name chunks d H. unfold docs_of_chunks in H.
  apply in_map_iff in H as ([i c] & <- & Hin). cbn.
  repeat split; try reflexivity.
  - apply in_combine_l in Hin. apply in_seq in Hin. lia.
  - apply in_combine_r in Hin. assumption.
Qed.

(** The chunks of the rebuild, with the default parameters. *)
Lemma chunk_text_member : forall text chunk : str,
  In chunk (chunk_text text) ->
  chunk <> [] /\ Py.strip chunk = chunk
  /\ (Py.len chunk <= CHUNK_SIZE)%Z /\ substring chunk text.
Proof.
  intros text chunk Hin.
  assert (Hrun : chunk_text_fuel (length text) text CHUNK_SIZE CHUNK_OVERLAP
                 = Some (chunk_text text)).
  { rewrite chunk_text_default.
    apply chunk_text_fuel_windows; [reflexivity | apply Nat.le_refl]. }
  assert (Hpar : (0 <= CHUNK_OVERLAP < CHUNK_SIZE)%Z) by (split; [discriminate | reflexivity]).
  assert (Hwf : Forall (fun chunk => chunk <> [] /\ Py.strip chunk = chunk
                          /\ (Py.len chunk <= CHUNK_SIZE)%Z
                          /\ substring chunk text) (chunk_text text)).
  { rewrite chunk_text_default. apply Forall_forall. intros c Hc.
    apply in_windows in Hc as [Hne (k & Hk & ->)].
    split; [assumption|]. split; [apply strip_idem|]. split.
    - unfold Py.len.
      pose proof (strip_length
                    (Py.slice text (Z.of_nat k * (CHUNK_SIZE - CHUNK_OVERLAP))
                       (Z.of_nat k * (CHUNK_SIZE - CHUNK_OVERLAP) + CHUNK_SIZE))) as H1.
      pose proof (slice_length text (Z.of_nat k * (CHUNK_SIZE - CHUNK_OVERLAP))
                    CHUNK_SIZE) as H2.
      unfold CHUNK_SIZE, CHUNK_OVERLAP in *. lia.
    - apply (substring_trans _ _ _ (strip_substring _)). apply slice_substring. }
  rewrite Forall_forall in Hwf. apply Hwf. assumption.
Qed.

Lemma process_files_invariant : forall files seen docs texts docs' texts',
  process_files files docs texts = (docs', texts') ->
  map content docs = texts ->
  Forall (doc_well_formed (seen ++ files)) docs ->
  map content docs' = texts'
  /\ Forall (doc_well_formed (seen ++ files)) docs'.
Proof.
  induction files as [|f files IH]; intros seen docs texts docs' texts' Hrun Hal Hwf.
  - cbn in Hrun. inversion Hrun; subst docs' texts'. split; assumption.
  - cbn [process_files] in Hrun.
    replace (seen ++ f :: files) with ((seen ++ [f]) ++ files) in *
      by (rewrite <- app_assoc; reflexivity).
    destruct (extract_text_from_file f) as [text|msg] eqn:E.
    + apply (IH (seen ++ [f]) _ _ _ _ Hrun).
      * rewrite map_app, docs_of_chunks_content, Hal. reflexivity.
      * apply Forall_app. split; [assumption|].
        apply Forall_forall. intros d Hd.
        apply docs_of_chunks_member in Hd as (Hsrc & Htot & Hidx & Hin).
        destruct (chunk_text_member _ _ Hin) as (Hne & Hstrip & Hlen & Hsub).
        unfold doc_well_formed. rewrite Htot.
        repeat split; try assumption.
        exists f, text. repeat split; try assumption.
        apply in_or_app. left. apply in_or_app. right. left. reflexivity.
    + apply (IH (seen ++ [f]) _ _ _ _ Hrun); assumption.
Qed.

(** X3: the documents and the texts that the rebuild hands to the encoder
    are aligned (text [i] is the content of document [i]), and every
    document is a non-empty trimmed piece, of at most [CHUNK_SIZE]
    characters, of the text of a file of the list, numbered below the
    number of chunks of that file. *)
Theorem process_files_aligned_and_well_formed :
  forall (files : list KBFile) (docs : list Doc) (texts : list str),
    process_files files [] [] = (docs, texts) ->
    map content docs = texts
    /\ Forall (doc_well_formed files) docs.
Proof.
  intros files docs texts Hrun.
  apply (process_files_invariant files [] [] [] docs texts Hrun);
    [reflexivity | constructor].
Qed.

Lemma process_files_aligned_and_well_formed_witness :
  map content
      [{| content := ("Jane Doe" : str); source := ("cv.txt" : str);
          chunkIndex := 0; totalChunks := 1 |}]
  = [("Jane Doe" : str)].
Proof.
  apply (process_files_aligned_and_well_formed
           [text_file "cv.txt" "  Jane Doe  "]
           [{| content := ("Jane Doe" : str); source := ("cv.txt" : str);
               chunkIndex := 0; totalChunks := 1 |}]
           [("Jane Doe" : str)]).
  reflexivity.
Defined.

Lemma lstrip_all_space : forall s : str,
  forallb Py.isspace s = true -> Py.lstrip s = [].
Proof.
  induction s as [|c s IH]; intros H; [reflexivity|].
  cbn [forallb] in H. apply andb_true_iff in H as [Hc H].
  cbn [Py.lstrip]. rewrite Hc. apply IH. assumption.
Qed.

Lemma strip_all_space : forall s : str,
  forallb Py.isspace s = true -> Py.strip s = [].
Proof.
  intros s H. unfold Py.strip. rewrite lstrip_all_space by assumption. reflexivity.
Qed.

Lemma chunk_text_whitespace : forall text : str,
  forallb Py.isspace text = true -> chunk_text text = [].
Proof.
  intros text H. rewrite chunk_text_default.
  destruct (windows text CHUNK_SIZE CHUNK_OVERLAP) as [|c l] eqn:E; [reflexivity|].
  assert (Hin : In c (windows text CHUNK_SIZE CHUNK_OVERLAP)) by (rewrite E; left; reflexivity).
  apply in_windows in Hin as [Hne (k & _ & Hc)].
  exfalso. apply Hne. rewrite Hc. apply strip_all_space.
  rewrite forallb_forall in *. intros x Hx. apply H.
  destruct (slice_substring text (Z.of_nat k * (CHUNK_SIZE - CHUNK_OVERLAP))
              (Z.of_nat k * (CHUNK_SIZE - CHUNK_OVERLAP) + CHUNK_SIZE))
    as (before & after & Ht).
  rewrite Ht. apply in_or_app. right. apply in_or_app. left. assumption.
Qed.

(** X4: a file whose text cannot be extracted, or whose text is empty or
    whitespace only, contributes nothing: the loop gives the same
    documents and texts as without that file. *)
Theorem process_files_skips_unreadable_and_blank :
  forall (before after : list KBFile) (f : KBFile) (docs : list Doc) (texts : list str),
    (forall text, extract_text_from_file f = Ok text ->
                  forallb Py.isspace text = true) ->
    process_files (before ++ f :: after) docs texts
    = process_files (before ++ after) docs texts.
Proof.
  induction before as [|g before IH]; intros after f docs texts Hf.
  - cbn [app process_files].
    destruct (extract_text_from_file f) as [text|msg] eqn:E; [|reflexivity].
    rewrite (chunk_text_whitespace text (Hf text eq_refl)).
    unfold docs_of_chunks. cbn. rewrite !app_nil_r. reflexivity.
  - cbn [app process_files].
    destruct (extract_text_from_file g); apply IH; assumption.
Qed.

Lemma process_files_skips_unreadable_and_blank_witness :
  process_files
    ([text_file "a.txt" "Alpha"]
     ++ {| file_name := ("broken.pdf" : str); file_suffix := (".pdf" : str);
           file_is_file := true; file_text := Raise ("EOF marker not found" : str) |}
     :: [text_file "b.txt" "Beta"]) [] []
  = process_files ([text_file "a.txt" "Alpha"] ++ [text_file "b.txt" "Beta"]) [] [].
Proof.
  apply (process_files_skips_unreadable_and_blank
           [text_file "a.txt" "Alpha"] [text_file "b.txt" "Beta"]
           {| file_name := ("broken.pdf" : str); file_suffix := (".pdf" : str);
              file_is_file := true; file_text := Raise ("EOF marker not found" : str) |}).
  intros text H. discriminate H.
Defined.

(** X5: the suffix filter of the rebuild and the dispatch of
    [extract_text_from_file] test the same three suffixes, whatever their
    case: for a file that passes the filter the dispatch takes one of its
    reader branches and returns what reading the file gives (one result
    per file: the three readers are not told apart), and for any other
    suffix it raises [Unsupported file format] with the lower-cased
    suffix.  So for no file that the rebuild processes does the dispatch
    end in its unsupported-format branch. *)
Theorem extract_text_from_file_supported :
  forall f : KBFile,
    (supported_suffix f = true -> extract_text_from_file f = file_text f)
    /\ (supported_suffix f = false ->
        extract_text_from_file f
        = Raise ("Unsupported file format: " ++ Py.lower (file_suffix f)))
    /\ (forall kb : list KBFile,
          In f (filter (fun f => file_is_file f && supported_suffix f) kb) ->
          extract_text_from_file f = file_text f).
Proof.
  intros f.
  enough (Hboth :
            (supported_suffix f = true -> extract_text_from_file f = file_text f)
            /\ (supported_suffix f = false ->
                extract_text_from_file f
                = Raise ("Unsupported file format: " ++ Py.lower (file_suffix f)))).
  { destruct Hboth as [Hyes Hno]. split; [exact Hyes|]. split; [exact Hno|].
    intros kb Hin. apply filter_In in Hin as [_ Hin].
    apply andb_true_iff in Hin as [_ Hin]. apply Hyes. exact Hin. }
  unfold supported_suffix, extract_text_from_file, strs.
  cbn [map existsb].
  set (ext := Py.lower (file_suffix f)).
  assert (Hsym : forall a b : str, str_eqb a b = str_eqb b a).
  { intros a b. destruct (str_eqb a b) eqn:E1; destruct (str_eqb b a) eqn:E2;
      try reflexivity; exfalso.
    - assert (a = b).
      { unfold str_eqb in E1. apply andb_true_iff in E1 as [Hl Hs].
        apply Nat.eqb_eq in Hl. clear E2. revert b Hl Hs.
        induction a as [|x a IH]; intros [|y b] Hl Hs; try discriminate; [reflexivity|].
        cbn in Hs. apply andb_true_iff in Hs as [Hxy Hs].
        apply Ascii.eqb_eq in Hxy. subst. f_equal. apply IH; [|assumption].
        cbn in Hl. lia. }
      subst. congruence.
    - assert (b = a).
      { unfold str_eqb in E2. apply andb_true_iff in E2 as [Hl Hs].
        apply Nat.eqb_eq in Hl. clear E1. revert a Hl Hs.
        induction b as [|x b IH]; intros [|y a] Hl Hs; try discriminate; [reflexivity|].
        cbn in Hs. apply andb_true_iff in Hs as [Hxy Hs].
        apply Ascii.eqb_eq in Hxy. subst. f_equal. apply IH; [|assumption].
        cbn in Hl. lia. }
      subst. congruence. }
  rewrite (Hsym ext (list_ascii_of_string ".pdf")),
          (Hsym ext (list_ascii_of_string ".txt")),
          (Hsym ext (list_ascii_of_string ".docx")).
  destruct (str_eqb (list_ascii_of_string ".pdf") ext);
    destruct (str_eqb (list_ascii_of_string ".docx") ext);
    destruct (str_eqb (list_ascii_of_string ".txt") ext);
    cbn; split; intros H; try reflexivity; discriminate H.
Qed.

Lemma extract_text_from_file_supported_witness :
  extract_text_from_file
    {| file_name := ("CV.PDF" : str); file_suffix := (".PDF" : str);
       file_is_file := true; file_text := Ok ("Jane Doe" : str) |}
  = Ok ("Jane Doe" : str)
  /\ extract_text_from_file
       {| file_name := ("notes.md" : str); file_suffix := (".md" : str);
          file_is_file := true; file_text := Ok ("x" : str) |}
     = Raise ("Unsupported file format: .md" : str).
Proof.
  split.
  - apply (proj1 (extract_text_from_file_supported
                    {| file_name := ("CV.PDF" : str); file_suffix := (".PDF" : str);
                       file_is_file := true; file_text := Ok ("Jane Doe" : str) |})).
    reflexivity.
  - apply (proj1 (proj2 (extract_text_from_file_supported
                           {| file_name := ("notes.md" : str); file_suffix := (".md" : str);
                              file_is_file := true; file_text := Ok ("x" : str) |}))).
    reflexivity.
Defined.

(** X6: whatever a rebuild that reports success leaves in memory is what
    it wrote to the cache: the response counts the live documents, and a
    later [load_vector_db_cache] of that file restores the documents and
    the embeddings exactly, with the flag set when there is a document. *)
Theorem update_vector_db_success_persisted :
  forall (env : Env) (kb : list KBFile) (st : State) (disk : option Cache)
         (st' : State) (disk' : option Cache) (response : UpdateResponse)
         (restarted : State),
    update_vector_db env kb st disk = (st', disk', response) ->
    upd_success response = true ->
    upd_status response = 200
    /\ upd_error response = None
    /\ upd_documents_count response = Some (length (documents st'))
    /\ snd (load_vector_db_cache disk' restarted) = true
    /\ documents (fst (load_vector_db_cache disk' restarted)) = documents st'
    /\ embeddings (fst (load_vector_db_cache disk' restarted)) = embeddings st'
    /\ vector_db_initialized (fst (load_vector_db_cache disk' restarted))
       = (0 <? length (documents st')).
Proof.
  intros env kb st disk st' disk' response restarted Hrun Hok.
  unfold update_vector_db in Hrun.
  destruct (filter _ kb) as [|f files].
  - inversion Hrun; subst. cbn. repeat split.
  - destruct (load_embedding_model env st) as [st1 [model|msg]].
    + destruct (process_files (f :: files) [] []) as [docs all_texts].
      destruct (encode model all_texts) as [raw|msg].
      * destruct (normalize_rows env raw) as [normed|msg].
        -- inversion Hrun; subst. cbn. repeat split.
        -- inversion Hrun; subst. discriminate Hok.
      * inversion Hrun; subst. discriminate Hok.
    + inversion Hrun; subst. discriminate Hok.
Qed.

Lemma update_vector_db_success_persisted_witness :
  let env := example_env (Ok unit_encoder) llm_down in
  let '(st', disk', response) :=
    update_vector_db env [text_file "cv.txt" "Jane Doe"] initial_state None in
  upd_documents_count response = Some (length (documents st'))
  /\ documents (fst (load_vector_db_cache disk' initial_state)) = documents st'
  /\ embeddings (fst (load_vector_db_cache disk' initial_state)) = embeddings st'.
Proof.
  cbv zeta.
  destruct (update_vector_db (example_env (Ok unit_encoder) llm_down)
              [text_file "cv.txt" "Jane Doe"] initial_state None)
    as [[st' disk'] response] eqn:E.
  destruct (update_vector_db_success_persisted _ _ _ _ _ _ _ initial_state E)
    as (_ & _ & H3 & _ & H5 & H6 & _).
  - vm_compute in E. inversion E. reflexivity.
  - repeat split; assumption.
Defined.

Lemma load_embedding_model_fields : forall env st st1 r,
  load_embedding_model env st = (st1, r) ->
  documents st1 = documents st /\ embeddings st1 = embeddings st
  /\ vector_db_initialized st1 = vector_db_initialized st.
Proof.
  intros env st st1 r H. unfold load_embedding_model in H.
  destruct (encoder st); [inversion H; subst; repeat split|].
  destruct (new_encoder env); inversion H; subst; repeat split.
Qed.

Lemma process_files_lengths : forall files docs texts docs' texts',
  process_files files docs texts = (docs', texts') ->
  length docs = length texts -> length docs' = length texts'.
Proof.
  induction files as [|f files IH]; intros docs texts docs' texts' H Hlen.
  - cbn in H. inversion H; subst docs' texts'. assumption.
  - cbn [process_files] in H. destruct (extract_text_from_file f).
    + apply (IH _ _ _ _ H). rewrite !length_app.
      rewrite <- (docs_of_chunks_content (file_name f) (chunk_text a)) at 2.
      rewrite length_map. lia.
    + apply (IH _ _ _ _ H). assumption.
Qed.

(** X7: when the encoder returns one row per text and the normalisation
    keeps the rows, a rebuild that reports success leaves as many
    embedding rows as documents (and no matrix only with no document). *)
Theorem update_vector_db_success_rows :
  forall (env : Env) (kb : list KBFile) (st : State) (disk : option Cache)
         (st' : State) (disk' : option Cache) (response : UpdateResponse),
    rows_follow_texts env st ->
    update_vector_db env kb st disk = (st', disk', response) ->
    upd_success response = true ->
    match embeddings st' with
    | Some m => length m = length (documents st')
                /\ vector_db_initialized st' = true
    | None => documents st' = [] /\ vector_db_initialized st' = false
    end.
Proof.
  intros env kb st disk st' disk' response [Henc Hnorm] Hrun Hok.
  unfold update_vector_db in Hrun.
  destruct (filter _ kb) as [|f files].
  - inversion Hrun; subst. cbn. split; reflexivity.
  - destruct (load_embedding_model env st) as [st1 [model|msg]] eqn:Hload.
    + destruct (process_files (f :: files) [] []) as [docs all_texts] eqn:Hproc.
      destruct (encode model all_texts) as [raw|msg] eqn:Hraw.
      * destruct (normalize_rows env raw) as [normed|msg] eqn:Hn.
        -- inversion Hrun; subst. cbn. split; [|reflexivity].
           rewrite (Hnorm _ _ Hn).
           rewrite (process_files_lengths _ _ _ _ _ Hproc eq_refl).
           apply (Henc model all_texts raw); [|assumption].
           unfold load_embedding_model in Hload.
           destruct (encoder st) as [e|] eqn:Ee.
           ++ inversion Hload; subst. left. reflexivity.
           ++ destruct (new_encoder env) as [e|] eqn:En; inversion Hload; subst.
              right. split; reflexivity.
        -- inversion Hrun; subst. discriminate Hok.
      * inversion Hrun; subst. discriminate Hok.
    + inversion Hrun; subst. discriminate Hok.
Qed.

Lemma update_vector_db_success_rows_witness :
  let env := example_env (Ok unit_encoder) llm_down in
  let '(st', _, _) :=
    update_vector_db env [text_file "cv.txt" "Jane Doe"; text_file "b.txt" "Beta"]
                     initial_state None in
  match embeddings st' with
  | Some m => length m = length (documents st') /\ vector_db_initialized st' = true
  | None => documents st' = [] /\ vector_db_initialized st' = false
  end.
Proof.
  cbv zeta.
  destruct (update_vector_db (example_env (Ok unit_encoder) llm_down)
              [text_file "cv.txt" "Jane Doe"; text_file "b.txt" "Beta"]
              initial_state None)
    as [[st' disk'] response] eqn:E.
  assert (Hrows : rows_follow_texts (example_env (Ok unit_encoder) llm_down)
                                    initial_state).
  { split.
    - intros model texts m [H|[_ H]] Hm.
      + discriminate H.
      + inversion H; subst. cbn in Hm. inversion Hm. apply length_map.
    - intros m m' H. inversion H. reflexivity. }
  apply (update_vector_db_success_rows _ _ _ _ _ _ _ Hrows E).
  vm_compute in E. inversion E. reflexivity.
Defined.

Lemma filter_none {A} (f : A -> bool) : forall l,
  Forall (fun x => f x = false) l -> filter f l = [].
Proof.
  induction l as [|x l IH]; intros H; [reflexivity|].
  cbn [filter]. rewrite (Forall_inv H). apply IH. apply (Forall_inv_tail H).
Qed.

(** X21: a knowledge base without any supported file (empty, or holding
    only directories and files of other suffixes) empties the index: the
    rebuild reports success with zero documents without asking for the
    embedding model, drops documents and embeddings, lowers the flag and
    writes a cache without documents. *)
Theorem update_vector_db_no_files :
  forall (env : Env) (kb : list KBFile) (st : State) (disk : option Cache),
    Forall (fun f => file_is_file f = false \/ supported_suffix f = false) kb ->
    update_vector_db env kb st disk
    = ({| encoder := encoder st; documents := []; embeddings := None;
          vector_db_initialized := false |},
       Some {| cache_documents := []; cache_embeddings := None;
               cache_timestamp := now env; cache_model := EMBEDDING_MODEL |},
       {| upd_status := 200; upd_success := true;
          upd_message := Some ("No files to process" : str);
          upd_documents_count := Some 0; upd_error := None |}).
Proof.
  intros env kb st disk H. unfold update_vector_db.
  rewrite filter_none; [reflexivity|].
  apply (Forall_impl _ (P := fun f => file_is_file f = false \/ supported_suffix f = false));
    [|assumption].
  intros f [Hf|Hf]; rewrite Hf; [reflexivity | apply andb_false_r].
Qed.

Lemma update_vector_db_no_files_witness :
  let env := example_env (Raise "model missing") llm_down in
  let kb := [{| file_name := ("notes.md" : str); file_suffix := (".md" : str);
                file_is_file := true; file_text := Ok ("x" : str) |};
             {| file_name := ("old.txt" : str); file_suffix := (".txt" : str);
                file_is_file := false; file_text := Raise ("is a directory" : str) |}] in
  let '(st', _, response) :=
    update_vector_db env kb (indexed_state "Jane Doe") None in
  documents st' = [] /\ vector_db_initialized st' = false
  /\ upd_success response = true.
Proof.
  cbv zeta.
  rewrite (update_vector_db_no_files
             (example_env (Raise "model missing") llm_down)
             [{| file_name := ("notes.md" : str); file_suffix := (".md" : str);
                 file_is_file := true; file_text := Ok ("x" : str) |};
              {| file_name := ("old.txt" : str); file_suffix := (".txt" : str);
                 file_is_file := false; file_text := Raise ("is a directory" : str) |}]
             (indexed_state "Jane Doe") None).
  - repeat split.
  - constructor; [right; reflexivity|]. constructor; [left; reflexivity | constructor].
Defined.

(* ====================================================================== *)
(** * Further properties of the query pipeline *)
(* ====================================================================== *)

Ltac break_query :=
  repeat match goal with
         | |- context [match ?x with _ => _ end] =>
             lazymatch x with
             | context [match _ with _ => _ end] => fail
             | _ => destruct x eqn:?
             end
         end.

(** X8: a query never changes the index: after any request the documents,
    the embeddings and the flag are what they were; the only global that
    can change is the encoder, created on first use. *)
Theorem query_leaves_index_untouched :
  forall (env : Env) (w : list bool) (st : State)
         (query_text field_context partial_input : str),
    let st' := fst (query env w st query_text field_context partial_input) in
    documents st' = documents st
    /\ embeddings st' = embeddings st
    /\ vector_db_initialized st' = vector_db_initialized st
    /\ (encoder st' = encoder st
        \/ (encoder st = None
            /\ exists e, new_encoder env = Ok e /\ encoder st' = Some e)).
Proof.
  intros env w st query_text field_context partial_input. cbv zeta.
  unfold query.
  destruct (negb (Py.truthy query_text)); [cbn; auto|].
  destruct (negb (vector_db_initialized st)); [cbn; auto|].
  destruct (is_personal_info query_text field_context && (0 <? length (documents st))).
  - destruct (generate_answer _ _ _ _ _ _). cbn. auto.
  - unfold query_retrieval, load_embedding_model.
    destruct (encoder st) as [e|] eqn:Ee.
    + match goal with
      | |- context [match ?x with Ok _ => _ | Raise _ => _ end] => destruct x
      end; cbn; rewrite Ee; auto.
    + destruct (new_encoder env) as [e|msg] eqn:En.
      * match goal with
        | |- context [match ?x with Ok _ => _ | Raise _ => _ end] => destruct x
        end; cbn; repeat split; right; (split; [reflexivity|]);
          exists e; split; reflexivity.
      * cbn. rewrite Ee. auto.
Qed.

(** X9: every response of [query] has one of three shapes: the 400
    rejection, without answer, exactly when the query text is empty; a
    500 failure, with the answer [Not in DB] and an error message and
    neither tag nor confidence; or a 200 response with an answer, in which
    a tag comes together with a confidence and without error, and is one
    of [header-extraction] (confidence 1), [llama-local],
    [simple-extraction]. *)
Theorem query_response_shape :
  forall (env : Env) (w : list bool) (st : State)
         (query_text field_context partial_input : str),
    let r := snd (query env w st query_text field_context partial_input) in
    (query_text = [] /\ status r = 400 /\ answer r = None
       /\ provenance r = None /\ confidence r = None
       /\ error r = Some ("Query is required" : str))
    \/ (query_text <> [] /\ status r = 500 /\ answer r = Some ("Not in DB" : str)
        /\ provenance r = None /\ confidence r = None /\ error r <> None)
    \/ (query_text <> [] /\ status r = 200 /\ answer r <> None
        /\ ((provenance r = None /\ confidence r = None
             /\ answer r = Some ("Not in DB" : str))
            \/ (provenance r = Some ("header-extraction" : str)
                /\ confidence r = Some 1%Q /\ error r = None)
            \/ ((provenance r = Some ("llama-local" : str)
                 \/ provenance r = Some ("simple-extraction" : str))
                /\ confidence r <> None /\ error r = None))).
Proof.
  intros env w st query_text field_context partial_input. cbv zeta.
  unfold query.
  destruct query_text as [|c query_text]; [left; cbn; repeat split|].
  right. cbn [Py.truthy negb].
  assert (Hne : c :: query_text <> []) by discriminate.
  destruct (negb (vector_db_initialized st)).
  { right. cbn. repeat split; try assumption; try discriminate.
    left. repeat split. }
  destruct (is_personal_info (c :: query_text) field_context
            && (0 <? length (documents st))).
  { destruct (generate_answer _ _ _ _ _ _). right. cbn.
    repeat split; try assumption; try discriminate.
    right. left. repeat split. }
  unfold query_retrieval, query_failed, bind.
  break_query; cbn;
    try (left; repeat split; try assumption; discriminate);
    right; (split; [assumption|]); (split; [reflexivity|]); (split; [discriminate|]).
  all: try (left; repeat split; fail).
  all: try (right; right; split; [left; reflexivity | split; [discriminate | reflexivity]]; fail).
  all: right; right; split; [right; reflexivity | split; [discriminate | reflexivity]].
Qed.

Lemma traverse_index_out_of_range {A B} : forall (docs : list A) (f : B -> nat)
    (hits : list B) (hit : B),
  In hit hits -> length docs <= f hit ->
  traverse (fun h => index docs (f h)) hits = Raise ("IndexError" : str).
Proof.
  intros docs f hits hit. induction hits as [|h hits IH]; intros Hin Hout; [destruct Hin|].
  cbn [traverse]. unfold index at 1.
  destruct (nth_error docs (f h)) as [a|] eqn:E; [|reflexivity].
  cbn [bind]. destruct Hin as [->|Hin].
  - apply nth_error_None in Hout. congruence.
  - rewrite (IH Hin Hout). reflexivity.
Qed.

(** X10: when the retrieval selects a row for which the documents list has
    no entry (more embedding rows than documents), the request fails with
    status 500, the answer [Not in DB] and the error of the lookup; no
    chunk text is returned. *)
Theorem query_row_without_document_fails :
  forall (env : Env) (w : list bool) (st : State) (model : Encoder)
         (query_text field_context partial_input : str)
         (v : vec) (rest : matrix) (hits : list (nat * Q)) (hit : nat * Q),
    query_text <> [] ->
    vector_db_initialized st = true ->
    is_personal_info query_text field_context = false ->
    encoder st = Some model ->
    encode model [if Py.truthy field_context
                  then field_context ++ ": " ++ query_text else query_text]
      = Ok (v :: rest) ->
    retrieve env (embeddings st) (normalize env v) = Ok hits ->
    In hit hits -> length (documents st) <= fst hit ->
    query env w st query_text field_context partial_input
    = (st, {| status := 500; answer := Some ("Not in DB" : str);
              provenance := None; confidence := None;
              error := Some ("IndexError" : str) |}).
Proof.
  intros env w st model query_text field_context partial_input v rest hits hit
         Hq Hinit Hpers Henc Hencode Hret Hin Hout.
  unfold query. rewrite (truthy_nonempty _ Hq), Hinit, Hpers. cbn [negb andb].
  unfold query_retrieval, load_embedding_model. rewrite Henc, Hencode.
  cbn [bind index nth_error]. rewrite Hret. cbn [bind].
  destruct hits as [|[i s] hits]; [destruct Hin|].
  rewrite (traverse_index_out_of_range (documents st) fst _ hit Hin Hout).
  reflexivity.
Qed.

Lemma query_row_without_document_fails_witness :
  let env := example_env (Raise "unused") llm_down in
  let st := {| encoder := Some (constant_encoder [[1]]%Q);
               documents := [one_doc "Fresh text"];
               embeddings := Some [[1]; [1]]%Q;
               vector_db_initialized := true |} in
  snd (query env [] st "skills" "" "")
  = {| status := 500; answer := Some ("Not in DB" : str);
       provenance := None; confidence := None;
       error := Some ("IndexError" : str) |}.
Proof.
  cbv zeta.
  rewrite (query_row_without_document_fails
             (example_env (Raise "unused") llm_down) []
             {| encoder := Some (constant_encoder [[1]]%Q);
                documents := [one_doc "Fresh text"];
                embeddings := Some [[1]; [1]]%Q;
                vector_db_initialized := true |}
             (constant_encoder [[1]]%Q) "skills" "" "" [1]%Q []
             [(1, 1%Q); (0, 1%Q)] (1, 1%Q));
    [reflexivity | discriminate | reflexivity | reflexivity | reflexivity
     | reflexivity | reflexivity | left; reflexivity | simpl; lia].
Defined.

(* ====================================================================== *)
(** * The matcher against the denotation of the patterns *)
(* ====================================================================== *)

Lemma rep_sound {A} (p : ascii -> bool) :
  forall (s : str) (lo : nat) (k : str -> option A) (a : A),
    Re.rep p lo s k = Some a ->
    exists w s', s = w ++ s' /\ forallb p w = true /\ lo <= length w
                 /\ k s' = Some a.
Proof.
  assert (Hstop : forall (s : str) lo (k : str -> option A) a,
             (if lo =? 0 then k s else None) = Some a ->
             exists w s', s = w ++ s' /\ forallb p w = true /\ lo <= length w
                          /\ k s' = Some a).
  { intros s lo k a H. destruct (Nat.eqb_spec lo 0); [|discriminate].
    exists [], s. subst. repeat split; [apply Nat.le_refl | assumption]. }
  induction s as [|c s IH]; intros lo k a H; cbn [Re.rep] in H.
  - apply Hstop. assumption.
  - destruct (p c) eqn:Hc; [|apply Hstop; assumption].
    destruct (Re.rep p (pred lo) s k) as [a'|] eqn:E; cbn [Re.orelse] in H.
    + inversion H; subst a'.
      destruct (IH _ _ _ E) as (w & s' & -> & Hw & Hlo & Hk).
      exists (c :: w), s'. repeat split; try assumption.
      * cbn [forallb]. rewrite Hc, Hw. reflexivity.
      * cbn [length]. lia.
    + apply Hstop. assumption.
Qed.

(** Whatever the matcher accepts is in the denotation of the pattern, and
    the continuation is run on what is left. *)
Lemma bt_sound {A} : forall (r : Re.regex) (total : nat) (s : str) (cap : option str)
    (k : str -> option str -> option A) (a : A),
  Re.bt r total s cap k = Some a ->
  exists w s' cap', s = w ++ s' /\ denotes r w /\ k s' cap' = Some a.
Proof.
  induction r as [|c|p|p lo|r1 IH1 r2 IH2|r1 IH1 r2 IH2|r IH|r IH| |];
    intros total s cap k a H; cbn [Re.bt] in H.
  - exists [], s, cap. repeat split; [constructor | assumption].
  - destruct s as [|x s]; [discriminate|].
    destruct (Py.eqb_char x c) eqn:E; [|discriminate].
    apply Ascii.eqb_eq in E. subst.
    exists [c], s, cap. repeat split; [constructor | assumption].
  - destruct s as [|x s]; [discriminate|].
    destruct (p x) eqn:E; [|discriminate].
    exists [x], s, cap. repeat split; [constructor; assumption | assumption].
  - apply rep_sound in H as (w & s' & -> & Hw & Hlo & Hk).
    exists w, s', cap. repeat split; [constructor; assumption | assumption].
  - apply IH1 in H as (w1 & s1 & cap1 & -> & H1 & H).
    apply IH2 in H as (w2 & s2 & cap2 & -> & H2 & H).
    exists (w1 ++ w2), s2, cap2. rewrite <- app_assoc.
    repeat split; [constructor; assumption | assumption].
  - destruct (Re.bt r1 total s cap k) as [a'|] eqn:E; cbn [Re.orelse] in H.
    + inversion H; subst a'.
      apply IH1 in E as (w & s' & cap' & -> & Hw & Hk).
      exists w, s', cap'. repeat split; [apply denotes_Alt_l; assumption | assumption].
    + apply IH2 in H as (w & s' & cap' & -> & Hw & Hk).
      exists w, s', cap'. repeat split; [apply denotes_Alt_r; assumption | assumption].
  - destruct (Re.bt r total s cap k) as [a'|] eqn:E; cbn [Re.orelse] in H.
    + inversion H; subst a'.
      apply IH in E as (w & s' & cap' & -> & Hw & Hk).
      exists w, s', cap'. repeat split; [apply denotes_Opt_some; assumption | assumption].
    + exists [], s, cap. repeat split; [apply denotes_Opt_none | assumption].
  - apply IH in H as (w & s' & cap' & -> & Hw & Hk).
    exists w, s'. eexists. repeat split; [constructor; assumption | exact Hk].
  - destruct (length s =? total); [|discriminate].
    exists [], s, cap. repeat split; [constructor | assumption].
  - exists [], s, cap. split; [reflexivity|]. split; [constructor|].
    destruct s as [|c [|d s]]; try discriminate; [assumption|].
    destruct (Py.eqb_char c Py.nl); [assumption | discriminate].
Qed.

(** A pattern without group leaves the captured text alone. *)
Lemma bt_sound_no_group {A} : forall (r : Re.regex) (total : nat) (s : str)
    (cap : option str) (k : str -> option str -> option A) (a : A),
  has_grp r = false ->
  Re.bt r total s cap k = Some a ->
  exists w s', s = w ++ s' /\ denotes r w /\ k s' cap = Some a.
Proof.
  induction r as [|c|p|p lo|r1 IH1 r2 IH2|r1 IH1 r2 IH2|r IH|r IH| |];
    intros total s cap k a Hg H; cbn [Re.bt] in H; cbn [has_grp] in Hg.
  - exists [], s. repeat split; [constructor | assumption].
  - destruct s as [|x s]; [discriminate|].
    destruct (Py.eqb_char x c) eqn:E; [|discriminate].
    apply Ascii.eqb_eq in E. subst.
    exists [c], s. repeat split; [constructor | assumption].
  - destruct s as [|x s]; [discriminate|].
    destruct (p x) eqn:E; [|discriminate].
    exists [x], s. repeat split; [constructor; assumption | assumption].
  - apply rep_sound in H as (w & s' & -> & Hw & Hlo & Hk).
    exists w, s'. repeat split; [constructor; assumption | assumption].
  - apply orb_false_iff in Hg as [Hg1 Hg2].
    apply (IH1 _ _ _ _ _ Hg1) in H as (w1 & s1 & -> & H1 & H).
    apply (IH2 _ _ _ _ _ Hg2) in H as (w2 & s2 & -> & H2 & H).
    exists (w1 ++ w2), s2. rewrite <- app_assoc.
    repeat split; [constructor; assumption | assumption].
  - apply orb_false_iff in Hg as [Hg1 Hg2].
    destruct (Re.bt r1 total s cap k) as [a'|] eqn:E; cbn [Re.orelse] in H.
    + inversion H; subst a'.
      apply (IH1 _ _ _ _ _ Hg1) in E as (w & s' & -> & Hw & Hk).
      exists w, s'. repeat split; [apply denotes_Alt_l; assumption | assumption].
    + apply (IH2 _ _ _ _ _ Hg2) in H as (w & s' & -> & Hw & Hk).
      exists w, s'. repeat split; [apply denotes_Alt_r; assumption | assumption].
  - destruct (Re.bt r total s cap k) as [a'|] eqn:E; cbn [Re.orelse] in H.
    + inversion H; subst a'.
      apply (IH _ _ _ _ _ Hg) in E as (w & s' & -> & Hw & Hk).
      exists w, s'. repeat split; [apply denotes_Opt_some; assumption | assumption].
    + exists [], s. repeat split; [apply denotes_Opt_none | assumption].
  - discriminate Hg.
  - destruct (length s =? total); [|discriminate].
    exists [], s. repeat split; [constructor | assumption].
  - exists [], s. split; [reflexivity|]. split; [constructor|].
    destruct s as [|c [|d s]]; try discriminate; [assumption|].
    destruct (Py.eqb_char c Py.nl); [assumption | discriminate].
Qed.

Lemma firstn_app_length_sub {A} : forall (w s' : list A),
  firstn (length (w ++ s') - length s') (w ++ s') = w.
Proof.
  intros w s'. rewrite length_app, Nat.add_sub.
  rewrite firstn_app, Nat.sub_diag, firstn_all. cbn [firstn]. apply app_nil_r.
Qed.

Lemma match_here_sound : forall r total s m,
  Re.match_here r total s = Some m ->
  s = Re.group0 m ++ Re.after m /\ denotes r (Re.group0 m).
Proof.
  intros r total s m H. unfold Re.match_here in H.
  apply bt_sound in H as (w & s' & cap' & -> & Hw & Hk).
  inversion Hk; subst m; clear Hk. cbn [Re.group0 Re.after].
  rewrite firstn_app_length_sub. split; [reflexivity | assumption].
Qed.

Lemma search_from_sound : forall r total s m,
  Re.search_from r total s = Some m ->
  denotes r (Re.group0 m)
  /\ exists before, s = before ++ Re.group0 m ++ Re.after m.
Proof.
  intros r total. induction s as [|c s IH]; intros m H; cbn [Re.search_from] in H.
  - destruct (Re.match_here r total []) eqn:E; [|discriminate].
    inversion H; subst. apply match_here_sound in E as [E Hd].
    split; [assumption|]. exists []. assumption.
  - destruct (Re.match_here r total (c :: s)) eqn:E.
    + inversion H; subst. apply match_here_sound in E as [E Hd].
      split; [assumption|]. exists []. assumption.
    + apply IH in H as [Hd (before & ->)].
      split; [assumption|]. exists (c :: before). reflexivity.
Qed.

Lemma findall_aux_sound : forall fuel r total s e,
  In e (Re.findall_aux fuel r total s) -> denotes r e /\ substring e s.
Proof.
  induction fuel as [|fuel IH]; intros r total s e H; cbn [Re.findall_aux] in H;
    [destruct H|].
  destruct (Re.search_from r total s) as [m|] eqn:E; [|destruct H].
  apply search_from_sound in E as [Hd (before & Hs)].
  destruct H as [<-|H].
  - split; [assumption|]. exists before, (Re.after m). assumption.
  - assert (Hrest : exists s2, In e (Re.findall_aux fuel r total s2)
                               /\ substring s2 s).
    { destruct (Re.group0 m) as [|g gs] eqn:Eg; destruct (Re.after m) as [|x rest] eqn:Ea.
      - destruct H.
      - exists rest. split; [assumption|]. exists (before ++ [x]), [].
        rewrite Hs. cbn [app]. rewrite ?app_nil_r, <- ?app_assoc. reflexivity.
      - exists []. split; [assumption|]. exists (before ++ g :: gs), [].
        rewrite Hs. cbn [app]. rewrite ?app_nil_r, <- ?app_assoc. reflexivity.
      - exists (x :: rest). split; [assumption|]. exists (before ++ g :: gs), [].
        rewrite Hs. cbn [app]. rewrite ?app_nil_r, <- ?app_assoc. reflexivity. }
    destruct Hrest as (s2 & Hin & Hsub).
    destruct (IH _ _ _ _ Hin) as [He Hes].
    split; [assumption|]. apply (substring_trans _ _ _ Hes Hsub).
Qed.

(** Every text that [re.findall] returns is matched by the pattern and is
    a piece of the subject. *)
Lemma findall_sound : forall r s e,
  In e (Re.findall r s) -> denotes r e /\ substring e s.
Proof. intros r s e H. apply (findall_aux_sound _ _ _ _ _ H). Qed.

Lemma search_sound : forall r s m,
  Re.search r s = Some m -> denotes r (Re.group0 m) /\ substring (Re.group0 m) s.
Proof.
  intros r s m H. apply search_from_sound in H as [Hd (before & Hs)].
  split; [assumption|]. exists before, (Re.after m). assumption.
Qed.

(* ====================================================================== *)
(** * What the fallback extractor returns *)
(* ====================================================================== *)

Ltac invert_denotes :=
  repeat match goal with
         | H : denotes (Re.Cat _ _) _ |- _ => inversion H; subst; clear H
         | H : denotes (Re.Chr _) _ |- _ => inversion H; subst; clear H
         | H : denotes (Re.Cls _) _ |- _ => inversion H; subst; clear H
         | H : denotes (Re.Rep _ _) _ |- _ => inversion H; subst; clear H
         | H : denotes Re.Eps _ |- _ => inversion H; subst; clear H
         | H : denotes (Re.Grp _) _ |- _ => inversion H; subst; clear H
         end.

Lemma length_pos_nonempty {A} : forall l : list A, 1 <= length l -> l <> [].
Proof. intros [|x l] H; [cbn in H; lia | discriminate]. Qed.

Lemma denotes_email_shape : forall e, denotes Re.email e -> email_shape e.
Proof.
  intros e H. unfold Re.email in H. invert_denotes.
  match goal with
  | |- email_shape (?l ++ _ ++ ?d ++ _ ++ ?t) => exists l, d, t
  end.
  split; [reflexivity|].
  split; [apply length_pos_nonempty; assumption|].
  split; [apply length_pos_nonempty; assumption|].
  split; [assumption|].
  split; [|split; [|assumption]].
  - match goal with
    | H : forallb _ ?l = true |- forallb _ ?l = true => exact H
    end.
  - match goal with
    | H : forallb _ ?l = true |- forallb _ ?l = true => exact H
    end.
Qed.

Lemma denotes_url_shape : forall u, denotes Re.url u -> url_shape u.
Proof.
  intros u H. unfold Re.url in H. cbn [Re.Lit list_ascii_of_string] in H.
  invert_denotes.
  match goal with
  | H : denotes (Re.Opt _) ?o |- _ => inversion H; subst; clear H
  end; invert_denotes;
    match goal with
    | |- url_shape (_ ++ ?o ++ _ ++ ?rest) =>
        exists (("http" : str) ++ o), rest
    end;
    (split; [reflexivity|]);
    (split; [first [left; reflexivity | right; reflexivity]|]);
    (split; [apply length_pos_nonempty; assumption|]);
    match goal with
    | H : forallb _ ?l = true |- forallb _ ?l = true => exact H
    end.
Qed.

Lemma denotes_phone_parts : forall g,
  denotes Re.phone g ->
  exists plus d rest,
    g = plus ++ d :: rest
    /\ (plus = [] \/ plus = ["+"%char])
    /\ Py.is_digit d = true
    /\ forallb phone_char rest = true /\ 8 <= length rest.
Proof.
  intros g H. unfold Re.phone in H. invert_denotes.
  match goal with
  | H : denotes (Re.Opt _) ?o |- _ => inversion H; subst; clear H
  end; invert_denotes;
    match goal with
    | |- exists _ _ _, ?o ++ [?d] ++ ?rest = _ /\ _ => exists o, d, rest
    end;
    (split; [reflexivity|]).
  - split.
    + right.
      match goal with
      | Hp : _ = true |- [?c] = _ =>
          cbn in Hp; rewrite orb_false_r in Hp;
          apply Ascii.eqb_eq in Hp; subst; reflexivity
      end.
    + split; [assumption|]. split; [|assumption].
      match goal with
    | H : forallb _ ?l = true |- forallb _ ?l = true => exact H
    end.
  - split; [left; reflexivity|].
    split; [assumption|]. split; [|assumption].
    match goal with
    | H : forallb _ ?l = true |- forallb _ ?l = true => exact H
    end.
Qed.

(** What the email branch picks among the matches. *)
Lemma extract_email_member :
  forall (context partial_input r : str),
    extract_email context partial_input = Some r ->
    In r (Re.findall Re.email context)
    /\ (partial_input <> [] ->
        (exists e, In e (Re.findall Re.email context)
                   /\ Py.contains (Py.lower partial_input) (Py.lower e) = true) ->
        Py.contains (Py.lower partial_input) (Py.lower r) = true).
Proof.
  intros context partial_input r H. unfold extract_email in H.
  remember (Re.findall Re.email context) as found eqn:E.
  destruct found as [|e0 rest]; [discriminate|].
  destruct (Py.truthy partial_input) eqn:Ht.
  - destruct (filter _ (e0 :: rest)) as [|m ms] eqn:Ef.
    + injection H as Hr; subst r. split; [left; reflexivity|].
      intros _ (e & He & Hc). exfalso.
      assert (Hf : In e (filter (fun e => Py.contains (Py.lower partial_input)
                                            (Py.lower e)) (e0 :: rest))).
      { apply filter_In. split; assumption. }
      rewrite Ef in Hf. destruct Hf.
    + injection H as Hr; subst r.
      assert (Hm : In m (filter (fun e => Py.contains (Py.lower partial_input)
                                            (Py.lower e)) (e0 :: rest))).
      { rewrite Ef. left. reflexivity. }
      apply filter_In in Hm as [Hm Hc]. split; [assumption|]. intros _ _. assumption.
  - injection H as Hr; subst r. split; [left; reflexivity|].
    intros Hne. destruct partial_input; [congruence | discriminate].
Qed.

(** X11: an address returned by the email branch is one of the matches of
    the email pattern in the context: a piece of the context of the form
    [local@domain.tld] with a top-level part of at least two letters.
    With a partial input, if some match contains it (case-insensitively)
    the returned address does. *)
Theorem extract_email_result :
  forall (context partial_input r : str),
    extract_email context partial_input = Some r ->
    In r (Re.findall Re.email context)
    /\ substring r context
    /\ email_shape r
    /\ (partial_input <> [] ->
        (exists e, In e (Re.findall Re.email context)
                   /\ Py.contains (Py.lower partial_input) (Py.lower e) = true) ->
        Py.contains (Py.lower partial_input) (Py.lower r) = true).
Proof.
  intros context partial_input r H.
  apply extract_email_member in H as [Hin Hhint].
  destruct (findall_sound _ _ _ Hin) as [Hd Hs].
  split; [assumption|]. split; [assumption|].
  split; [apply denotes_email_shape; assumption | assumption].
Qed.

Lemma extract_email_result_witness :
  In ("jane.doe@example.com" : str)
     (Re.findall Re.email ("a@x.com and jane.doe@example.com." : str))
  /\ email_shape ("jane.doe@example.com" : str).
Proof.
  destruct (extract_email_result ("a@x.com and jane.doe@example.com." : str)
              ("jane" : str) ("jane.doe@example.com" : str) eq_refl)
    as (H1 & _ & H3 & _).
  split; assumption.
Defined.

Lemma digit_not_space : forall c, Py.is_digit c = true -> Py.isspace c = false.
Proof.
  intros c. destruct c as [[] [] [] [] [] [] [] []]; vm_compute; congruence.
Qed.

Lemma strip_chars : forall (s : str) c, In c (Py.strip s) -> In c s.
Proof.
  intros s c H. destruct (strip_split s) as (ws1 & ws2 & Hs & _).
  rewrite Hs. apply in_or_app. right. apply in_or_app. left. assumption.
Qed.

Lemma strip_nonspace_head : forall c (t : str),
  Py.isspace c = false -> exists x, Py.strip (c :: t) = c :: x.
Proof.
  intros c t Hc. unfold Py.strip. cbn [Py.lstrip]. rewrite Hc.
  apply rstrip_keeps_head. assumption.
Qed.

(** The trimmed match of the phone pattern keeps its first character. *)
Lemma strip_phone_head : forall g,
  denotes Re.phone g ->
  exists c rest, Py.strip g = c :: rest /\ (c = "+"%char \/ Py.is_digit c = true).
Proof.
  intros g Hd.
  apply denotes_phone_parts in Hd as (plus & d & rest & -> & Hplus & Hdig & _).
  destruct Hplus as [->| ->]; cbn [app].
  - destruct (strip_nonspace_head d rest (digit_not_space _ Hdig)) as (x & ->).
    exists d, x. split; [reflexivity | right; assumption].
  - destruct (strip_nonspace_head "+"%char (d :: rest) eq_refl) as (x & ->).
    exists "+"%char, x. split; [reflexivity | left; reflexivity].
Qed.

Lemma extract_phone_match : forall context r,
  extract_phone context = Some r ->
  exists g, r = Py.strip g /\ denotes Re.phone g /\ substring g context.
Proof.
  intros context r H. unfold extract_phone in H.
  destruct (Re.search Re.phone context) as [m|] eqn:E; [|discriminate].
  inversion H; subst r; clear H.
  apply search_sound in E as [Hd Hsub].
  exists (Re.group0 m). repeat split; assumption.
Qed.

(** X12: a number returned by the phone branch is a trimmed, non-empty
    piece of the context that starts with [+] or a digit and holds only
    digits, whitespace, parentheses, hyphens and that sign. *)
Theorem extract_phone_result :
  forall (context r : str),
    extract_phone context = Some r ->
    substring r context
    /\ Py.strip r = r
    /\ (exists c rest, r = c :: rest /\ (c = "+"%char \/ Py.is_digit c = true))
    /\ forallb (fun c => Py.eqb_char c "+" || phone_char c) r = true.
Proof.
  intros context r H.
  apply extract_phone_match in H as (g & -> & Hd & Hsub).
  split; [|split; [|split]].
  - apply (substring_trans _ _ _ (strip_substring _) Hsub).
  - apply strip_idem.
  - apply strip_phone_head. assumption.
  - apply denotes_phone_parts in Hd as (plus & d & rest & Hg & Hplus & Hdig & Hrest & _).
    apply forallb_forall. intros c Hc. apply strip_chars in Hc.
    rewrite Hg in Hc. apply in_app_or in Hc as [Hc|[<-|Hc]].
    + destruct Hplus as [->| ->]; [destruct Hc|].
      destruct Hc as [<-|[]]. reflexivity.
    + unfold phone_char. rewrite Hdig. cbn. apply orb_true_r.
    + rewrite forallb_forall in Hrest. rewrite (Hrest _ Hc). apply orb_true_r.
Qed.

Lemma extract_phone_result_witness :
  substring ("+1 (555) 123-4567" : str) ("call +1 (555) 123-4567 now" : str)
  /\ Py.strip ("+1 (555) 123-4567" : str) = ("+1 (555) 123-4567" : str).
Proof.
  destruct (extract_phone_result ("call +1 (555) 123-4567 now" : str)
              ("+1 (555) 123-4567" : str) eq_refl) as (H1 & H2 & _).
  split; assumption.
Defined.

Lemma in_firstn {A} : forall n (l : list A) x, In x (firstn n l) -> In x l.
Proof.
  intros n l x H. rewrite <- (firstn_skipn n l). apply in_or_app. left. assumption.
Qed.

(** The links the URL branch puts into its answer. *)
Lemma extract_url_links :
  forall (query_lower context field_context r : str),
    extract_url query_lower context field_context = Some r ->
    exists links,
      r = Py.join ", " links
      /\ links <> [] /\ length links <= 3
      /\ Forall (fun u => In u (Re.findall Re.url context)) links.
Proof.
  intros query_lower context field_context r H.
  assert (Hone : forall u, In u (Re.findall Re.url context) -> Some u = Some r ->
            exists links,
              r = Py.join ", " links /\ links <> [] /\ length links <= 3
              /\ Forall (fun u => In u (Re.findall Re.url context)) links).
  { intros u Hu E. inversion E; subst. exists [r].
    repeat split; [discriminate | cbn; lia | constructor; [assumption | constructor]]. }
  unfold extract_url in H.
  set (urls := Re.findall Re.url context) in *.
  destruct (if Py.contains_any _ (Py.lower field_context) then _ else [])
    as [|ml mls] eqn:Emain.
  - destruct (if mentions "github" query_lower field_context then _ else [])
      as [|g gs] eqn:Eg.
    + destruct (if mentions "linkedin" query_lower field_context then _ else [])
        as [|l ls] eqn:El.
      * destruct (if mentions "portfolio" query_lower field_context then _ else [])
          as [|p ps] eqn:Ep.
        -- destruct urls as [|u us] eqn:Eu; [discriminate|].
           apply (Hone u); [left; reflexivity | assumption].
        -- apply (Hone p); [|assumption].
           destruct (mentions "portfolio" query_lower field_context); [|discriminate].
           assert (Hp : In p (p :: ps)) by (left; reflexivity).
           rewrite <- Ep in Hp. apply filter_In in Hp as [Hp _]. assumption.
      * apply (Hone l); [|assumption].
        destruct (mentions "linkedin" query_lower field_context); [|discriminate].
        assert (Hl : In l (l :: ls)) by (left; reflexivity).
        rewrite <- El in Hl. apply filter_In in Hl as [Hl _]. assumption.
    + apply (Hone g); [|assumption].
      destruct (mentions "github" query_lower field_context); [|discriminate].
      assert (Hg : In g (g :: gs)) by (left; reflexivity).
      rewrite <- Eg in Hg. apply filter_In in Hg as [Hg _]. assumption.
  - inversion H; subst r; clear H.
    exists (firstn 3 (ml :: mls)). repeat split.
    + discriminate.
    + rewrite length_firstn. lia.
    + apply Forall_forall. intros u Hu. apply in_firstn in Hu.
      destruct (Py.contains_any _ (Py.lower field_context)); [|discriminate].
      rewrite <- Emain in Hu. apply filter_In in Hu as [Hu _]. assumption.
Qed.

(** X13: an answer of the URL branch is one URL found in the context, or
    up to three of them joined by [", "]; each is a piece of the context
    of the form [http://...] or [https://...] without whitespace, comma or
    closing parenthesis after the scheme. *)
Theorem extract_url_result :
  forall (query_lower context field_context r : str),
    extract_url query_lower context field_context = Some r ->
    exists links,
      r = Py.join ", " links
      /\ links <> [] /\ length links <= 3
      /\ Forall (fun u => In u (Re.findall Re.url context)
                          /\ substring u context /\ url_shape u) links.
Proof.
  intros query_lower context field_context r H.
  apply extract_url_links in H as (links & Hr & Hne & Hlen & Hall).
  exists links. split; [assumption|]. split; [assumption|]. split; [assumption|].
  apply (Forall_impl _ (P := fun u => In u (Re.findall Re.url context))); [|assumption].
  intros u Hu. destruct (findall_sound _ _ _ Hu) as [Hd Hs].
  split; [assumption|]. split; [assumption|]. apply denotes_url_shape. assumption.
Qed.

Lemma extract_url_result_witness :
  exists links,
    ("https://github.com/u, https://linkedin.com/in/u" : str) = Py.join ", " links
    /\ links <> [] /\ length links <= 3.
Proof.
  destruct (extract_url_result ("site" : str)
              ("see https://github.com/u, https://linkedin.com/in/u and http://foo.bar/x)" : str)
              ("Links: Examples" : str)
              ("https://github.com/u, https://linkedin.com/in/u" : str) eq_refl)
    as (links & H1 & H2 & H3 & _).
  exists links. repeat split; assumption.
Defined.

Lemma split_ws_aux_words : forall (s acc : str) (w : str),
  forallb (fun c => negb (Py.isspace c)) acc = true ->
  In w (Py.split_ws_aux s acc) ->
  w <> [] /\ forallb (fun c => negb (Py.isspace c)) w = true.
Proof.
  induction s as [|c s IH]; intros acc w Hacc H; cbn [Py.split_ws_aux] in H.
  - destruct acc as [|a acc]; [destruct H|].
    destruct H as [<-|[]]. split.
    + intros E. apply (f_equal (@length _)) in E.
      rewrite length_rev in E. discriminate E.
    + rewrite forallb_forall in *. intros x Hx. apply Hacc. apply in_rev. assumption.
  - destruct (Py.isspace c) eqn:Ec.
    + destruct acc as [|a acc]; [apply (IH [] w eq_refl H)|].
      destruct H as [<-|H]; [|apply (IH [] w eq_refl H)]. split.
      * intros E. apply (f_equal (@length _)) in E.
        rewrite length_rev in E. discriminate E.
      * rewrite forallb_forall in *. intros x Hx. apply Hacc. apply in_rev. assumption.
    + apply (IH (c :: acc) w); [|assumption].
      cbn [forallb]. rewrite Ec, Hacc. reflexivity.
Qed.

(** The words of [s.split()] are non-empty and free of whitespace. *)
Lemma split_ws_words : forall (s w : str),
  In w (Py.split_ws s) ->
  w <> [] /\ forallb (fun c => negb (Py.isspace c)) w = true.
Proof. intros s w H. apply (split_ws_aux_words s [] w eq_refl H). Qed.

Lemma startswith_head_in : forall c (w hay : str),
  Py.startswith (c :: w) hay = true -> In c hay.
Proof.
  intros c w [|x hay] H; [discriminate|]. cbn [Py.startswith] in H.
  apply andb_true_iff in H as [H _]. apply Ascii.eqb_eq in H. subst. left. reflexivity.
Qed.

Lemma contains_head_in : forall c (w hay : str),
  Py.contains (c :: w) hay = true -> In c hay.
Proof.
  intros c w. induction hay as [|x hay IH]; intros H; cbn [Py.contains] in H.
  - rewrite orb_false_r in H. discriminate H.
  - apply orb_true_iff in H as [H|H].
    + apply (startswith_head_in _ _ _ H).
    + right. apply IH. assumption.
Qed.

Lemma lower_char_space : forall c, Py.isspace (Py.lower_char c) = Py.isspace c.
Proof.
  intros c. destruct c as [[] [] [] [] [] [] [] []]; vm_compute; reflexivity.
Qed.

Lemma strip_empty_all_space : forall s : str,
  Py.strip s = [] -> forallb Py.isspace s = true.
Proof.
  intros s H. destruct (strip_split s) as (ws1 & ws2 & Hs & H1 & H2).
  rewrite H in Hs. cbn [app] in Hs. rewrite Hs, forallb_app, H1, H2. reflexivity.
Qed.

Lemma strip_nonempty_of_nonspace : forall (s : str) c,
  In c s -> Py.isspace c = false -> Py.strip s <> [].
Proof.
  intros s c Hin Hc E. apply strip_empty_all_space in E.
  rewrite forallb_forall in E. rewrite (E _ Hin) in Hc. discriminate.
Qed.

Lemma firstn_nonempty {A} : forall n (l : list A), l <> [] -> firstn (S n) l <> [].
Proof. intros n [|x l] H; [congruence | discriminate]. Qed.

(** The sentence the general extraction answers with. *)
Lemma extract_general_cases :
  forall (query_lower context : str),
    extract_general query_lower context = ("Not in DB" : str)
    \/ exists sentence word,
         In sentence (Py.split "." context)
         /\ In word (Py.split_ws query_lower)
         /\ Py.contains word (Py.lower sentence) = true
         /\ extract_general query_lower context = firstn 200 (Py.strip sentence).
Proof.
  intros query_lower context. unfold extract_general.
  destruct (filter _ (Py.split "." context)) as [|s rest] eqn:E; cbn [map].
  - left. reflexivity.
  - assert (Hs : In s (filter (fun s => existsb (fun word => Py.contains word (Py.lower s))
                                           (Py.split_ws query_lower))
                              (Py.split "." context))).
    { rewrite E. left. reflexivity. }
    apply filter_In in Hs as [Hs Hw].
    apply existsb_exists in Hw as (word & Hword & Hc).
    right. exists s, word. repeat split; assumption.
Qed.

(** A sentence that contains a word of the query is not blank. *)
Lemma sentence_with_word_not_blank : forall (query_lower sentence word : str),
  In word (Py.split_ws query_lower) ->
  Py.contains word (Py.lower sentence) = true ->
  Py.strip sentence <> [].
Proof.
  intros query_lower s word Hword Hc.
  destruct (split_ws_words _ _ Hword) as [Hne Hns].
  destruct word as [|c word]; [congruence|].
  pose proof (contains_head_in _ _ _ Hc) as Hin.
  unfold Py.lower in Hin. apply in_map_iff in Hin as (x & Hx & Hxin).
  apply (strip_nonempty_of_nonspace s x Hxin).
  cbn [forallb] in Hns. apply andb_true_iff in Hns as [Hns _].
  apply negb_true_iff in Hns. rewrite <- Hx, lower_char_space in Hns. assumption.
Qed.

Lemma extract_general_nonempty : forall (query_lower context : str),
  extract_general query_lower context <> [].
Proof.
  intros query_lower context.
  destruct (extract_general_cases query_lower context)
    as [->|(s & word & _ & Hword & Hc & ->)]; [discriminate|].
  apply firstn_nonempty. apply (sentence_with_word_not_blank _ _ _ Hword Hc).
Qed.

(** X14: the general extraction returns either [Not in DB] or the trimmed
    text of the first sentence (piece between full stops) that contains
    a word of the query, cut to 200 characters; the answer is never empty
    and never longer than 200 characters. *)
Theorem extract_general_result :
  forall (query_lower context : str),
    extract_general query_lower context <> []
    /\ length (extract_general query_lower context) <= 200
    /\ (extract_general query_lower context = ("Not in DB" : str)
        \/ exists sentence word,
             In sentence (Py.split "." context)
             /\ In word (Py.split_ws query_lower)
             /\ Py.contains word (Py.lower sentence) = true
             /\ extract_general query_lower context
                = firstn 200 (Py.strip sentence)).
Proof.
  intros query_lower context.
  split; [apply extract_general_nonempty|].
  split; [|apply extract_general_cases].
  destruct (extract_general_cases query_lower context)
    as [->|(s & word & _ & _ & _ & ->)]; [cbn; lia | apply firstn_le_length].
Qed.

(** A pattern of the form [pre (G) post], where [post] has no group,
    captures a text that [G] denotes. *)
Lemma match_here_group : forall (pre G post : Re.regex) (total : nat) (s : str) m,
  has_grp post = false ->
  Re.match_here (Re.Cat pre (Re.Cat (Re.Grp G) post)) total s = Some m ->
  exists g, Re.group1 m = Some g /\ denotes G g.
Proof.
  intros pre G post total s m Hpost H. unfold Re.match_here in H.
  cbn [Re.bt] in H.
  apply bt_sound in H as (w0 & s0 & cap0 & -> & _ & H).
  apply bt_sound in H as (w1 & s1 & cap1 & -> & Hg & H).
  apply (bt_sound_no_group _ _ _ _ _ _ Hpost) in H as (w2 & s2 & -> & _ & H).
  inversion H; subst m; clear H. cbn [Re.group1].
  exists w1. split; [|assumption].
  rewrite firstn_app_length_sub. reflexivity.
Qed.

Lemma denotes_cap_word_head : forall w rest,
  denotes (Re.Cat Re.cap_word rest) w ->
  exists c t, w = c :: t /\ Py.is_upper c = true.
Proof.
  intros w rest H. unfold Re.cap_word in H. invert_denotes.
  match goal with
  | Hc : Py.is_upper ?c = true |- _ => exists c; eexists; split; [reflexivity | exact Hc]
  end.
Qed.

Lemma try_name_patterns_nonempty : forall patterns first_part name,
  try_name_patterns patterns first_part = Some name -> name <> [].
Proof.
  induction patterns as [|p patterns IH]; intros first_part name H;
    cbn [try_name_patterns] in H; [discriminate|].
  destruct (Re.search p first_part) as [m|]; [|apply (IH _ _ H)].
  destruct (2 <=? length (Py.split_ws _)) eqn:E; [|apply (IH _ _ H)].
  inversion H; subst name. intros Hn. rewrite Hn in E. discriminate E.
Qed.

Lemma extract_name_nonempty : forall context name,
  extract_name context = Some name -> name <> [].
Proof.
  intros context name H. unfold extract_name in H.
  destruct (Re.match_ Re.header_name (first_line context)) as [m|] eqn:E.
  - inversion H; subst name; clear H.
    unfold Re.match_, Re.header_name in E.
    apply match_here_group in E as (g & -> & Hg); [|reflexivity].
    apply denotes_cap_word_head in Hg as (c & t & -> & Hc).
    apply (strip_nonempty_of_nonspace _ c); [left; reflexivity|].
    apply upper_not_space. assumption.
  - apply (try_name_patterns_nonempty _ _ _ H).
Qed.

Lemma join_nonempty : forall (sep : str) (parts : list str) p,
  p <> [] -> Py.join sep (p :: parts) <> [].
Proof.
  intros sep parts [|c p] H; [congruence|].
  destruct parts; cbn [Py.join app]; discriminate.
Qed.

(** The rule-based fallback never returns the empty string. *)
Lemma fallback_extraction_nonempty :
  forall (query context field_context partial_input : str),
    fallback_extraction query context field_context partial_input <> [].
Proof.
  intros query context field_context partial_input. unfold fallback_extraction.
  destruct (classify query field_context).
  - destruct (extract_name context) as [name|] eqn:E.
    + apply (extract_name_nonempty _ _ E).
    + apply extract_general_nonempty.
  - destruct (extract_email context partial_input) as [e|] eqn:E.
    + apply extract_email_member in E as [Hin _].
      apply findall_sound in Hin as [Hd _].
      apply denotes_email_shape in Hd as (l & d & t & -> & Hl & _).
      destruct l; [congruence | discriminate].
    + apply extract_general_nonempty.
  - destruct (extract_phone context) as [p|] eqn:E.
    + apply extract_phone_match in E as (g & -> & Hd & _).
      apply strip_phone_head in Hd as (c & rest & -> & _). discriminate.
    + apply extract_general_nonempty.
  - destruct (extract_url (Py.lower query) context field_context) as [u|] eqn:E.
    + apply extract_url_links in E as (links & -> & Hne & _ & Hall).
      destruct links as [|l links]; [congruence|].
      apply join_nonempty. apply Forall_inv in Hall.
      apply findall_sound in Hall as [Hd _].
      apply denotes_url_shape in Hd as (sch & rest & -> & Hs & _).
      destruct Hs as [-> | ->]; discriminate.
    + apply extract_general_nonempty.
  - apply extract_general_nonempty.
Qed.

(** X15: [generate_answer] asks for the availability of the LLM exactly
    once and never fails: the text is the trimmed output of the LLM when
    it is available and answers, and the rule-based extraction otherwise
    (LLM not available, or [ollama.generate] raising); the extraction is
    never the empty string, so the answer is empty only when the LLM
    itself answers with whitespace. *)
Theorem generate_answer_text :
  forall (env : Env) (w : list bool) (query context field_context partial_input : str),
    let '(text, who, w') :=
      generate_answer_traced env w query context field_context partial_input in
    generate_answer env w query context field_context partial_input = (text, w')
    /\ w' = tl w
    /\ match who with
       | ByLLM =>
           hd false w = true
           /\ exists response,
                ollama_generate env (prompt query context field_context partial_input)
                = Ok response
                /\ text = Py.strip response
       | ByExtraction =>
           text = fallback_extraction query context field_context partial_input
           /\ text <> []
           /\ (hd false w = false
               \/ exists msg,
                    ollama_generate env
                      (prompt query context field_context partial_input) = Raise msg)
       end.
Proof.
  intros env w query context field_context partial_input.
  unfold generate_answer, generate_answer_traced.
  assert (Hw : check_llama_available w = (hd false w, tl w)) by (destruct w; reflexivity).
  rewrite Hw. clear Hw.
  destruct (hd false w).
  - destruct (ollama_generate env _) as [response|msg] eqn:E.
    + split; [reflexivity|]. split; [reflexivity|]. split; [reflexivity|].
      exists response. split; reflexivity.
    + split; [reflexivity|]. split; [reflexivity|]. split; [reflexivity|].
      split; [apply fallback_extraction_nonempty|]. right. exists msg. reflexivity.
  - split; [reflexivity|]. split; [reflexivity|]. split; [reflexivity|].
    split; [apply fallback_extraction_nonempty|]. left. reflexivity.
Qed.

(* ====================================================================== *)
(** * Further properties of the accepted-answer log *)
(* ====================================================================== *)

Lemma startswith_app_prefix : forall p q s : str,
  Py.startswith (p ++ q) s = true -> Py.startswith p s = true.
Proof.
  induction p as [|a p IH]; intros q s H; [reflexivity|].
  destruct s as [|x s]; [discriminate|]. cbn [app Py.startswith] in *.
  apply andb_true_iff in H as [Hax H]. rewrite Hax, (IH _ _ H). reflexivity.
Qed.

(** A text that contains [p ++ q] contains [p]. *)
Lemma contains_app_prefix : forall p q hay : str,
  Py.contains (p ++ q) hay = true -> Py.contains p hay = true.
Proof.
  intros p q. induction hay as [|x hay IH]; intros H; cbn [Py.contains] in *.
  - rewrite orb_false_r in *. apply (startswith_app_prefix _ _ _ H).
  - apply orb_true_iff in H as [H|H]; apply orb_true_iff.
    + left. apply (startswith_app_prefix _ _ _ H).
    + right. apply IH. assumption.
Qed.

Lemma startswith_split : forall p s : str,
  Py.startswith p s = true -> exists rest, s = p ++ rest.
Proof.
  induction p as [|a p IH]; intros s H.
  - exists s. reflexivity.
  - destruct s as [|x s]; [discriminate|]. cbn [Py.startswith] in H.
    apply andb_true_iff in H as [Hax H]. apply Ascii.eqb_eq in Hax. subst.
    destruct (IH _ H) as (rest & ->). exists rest. reflexivity.
Qed.

(** [needle in hay] holds exactly when [needle] is a piece of [hay]. *)
Lemma contains_substring : forall needle hay : str,
  Py.contains needle hay = true <-> substring needle hay.
Proof.
  intros needle hay. split.
  - induction hay as [|x hay IH]; intros H; cbn [Py.contains] in H.
    + rewrite orb_false_r in H. apply startswith_split in H as (rest & Hr).
      exists [], rest. assumption.
    + apply orb_true_iff in H as [H|H].
      * apply startswith_split in H as (rest & Hr). exists [], rest. assumption.
      * destruct (IH H) as (before & after & ->).
        exists (x :: before), after. reflexivity.
  - intros (before & after & ->). apply contains_app_intro.
Qed.

Lemma split_aux_entries : forall (sep : str) (fuel : nat) (s acc e : str),
  In e (Py.split_aux sep fuel s acc) -> substring e (rev acc ++ s).
Proof.
  intros sep. induction fuel as [|fuel IH]; intros s acc e H; cbn [Py.split_aux] in H.
  - destruct H as [<-|[]]. apply substring_refl.
  - destruct (Py.startswith sep s) eqn:E.
    + destruct H as [<-|H].
      * exists [], s. reflexivity.
      * apply IH in H. cbn [rev app] in H.
        apply (substring_trans _ _ _ H).
        exists (rev acc ++ firstn (length sep) s), [].
        rewrite app_nil_r, <- app_assoc, firstn_skipn. reflexivity.
    + destruct s as [|c s].
      * destruct H as [<-|[]]. rewrite app_nil_r. apply substring_refl.
      * apply IH in H. cbn [rev] in H. rewrite <- app_assoc in H. exact H.
Qed.

(** Every entry of [content.split(rule)] is a piece of the content. *)
Lemma split_entries : forall (sep s e : str),
  In e (Py.split sep s) -> substring e s.
Proof. intros sep s e H. apply (split_aux_entries _ _ _ _ _ H). Qed.

(** The check of [save_field_value] accepts whatever the check of
    [save_accepted_answer] accepts. *)
Lemma already_saved_field_value_saved : forall content field_context value : str,
  already_saved content field_context value = true ->
  field_value_saved content field_context value = true.
Proof.
  intros content field_context value H. unfold already_saved in H.
  apply existsb_exists in H as (entry & Hin & Hboth).
  apply andb_true_iff in Hboth as [Hf Ha].
  pose proof (split_entries _ _ _ Hin) as Hsub.
  unfold field_value_saved. apply andb_true_iff. split; [apply andb_true_iff; split|].
  - apply contains_substring. apply contains_substring in Hf.
    apply (substring_trans _ _ _ Hf Hsub).
  - apply contains_substring. apply contains_substring in Ha.
    apply (substring_trans _ _ _ Ha Hsub).
  - apply existsb_exists. exists entry. split; [assumption|].
    rewrite Hf. cbn [andb]. apply contains_substring.
    apply contains_substring in Ha. destruct Ha as (before & after & ->).
    exists (before ++ "Answer: "), after. unfold answer_line.
    rewrite <- !app_assoc. reflexivity.
Qed.

(** A block whose lines hold neither a rule nor a carriage return is found
    as a record of every pair made of a prefix of its field and a prefix
    of its answer. *)
Lemma already_saved_prefix_pair :
  forall raw field_context field_more partial_input answer answer_more timestamp : str,
    let lines := field_line (field_context ++ field_more) ++ [Py.nl]
                 ++ (if Py.truthy partial_input
                     then "User Typed (Hint): " ++ partial_input ++ [Py.nl] else [])
                 ++ answer_line (answer ++ answer_more) in
    Py.contains rule lines = false ->
    Py.contains [Py.cr] lines = false ->
    already_saved
      (read_text (raw ++ block (field_context ++ field_more) partial_input
                               (answer ++ answer_more) timestamp))
      field_context answer = true.
Proof.
  intros raw field_context field_more partial_input answer answer_more timestamp
         lines Hrule Hcr.
  destruct (block_read_back_entry raw (field_context ++ field_more) partial_input
              (answer ++ answer_more) timestamp Hrule Hcr) as (x & y & Hin).
  fold lines in Hin. unfold already_saved.
  apply existsb_exists. eexists. split; [exact Hin|].
  unfold lines. set (hint := if Py.truthy partial_input
                             then "User Typed (Hint): " ++ partial_input ++ [Py.nl]
                             else []).
  apply andb_true_iff. split.
  - apply contains_substring.
    exists x, (field_more ++ [Py.nl] ++ hint ++ answer_line (answer ++ answer_more) ++ y).
    unfold field_line. rewrite <- !app_assoc. reflexivity.
  - apply contains_substring.
    exists (x ++ field_line (field_context ++ field_more) ++ [Py.nl] ++ hint),
           (answer_more ++ y).
    unfold answer_line. rewrite <- !app_assoc. reflexivity.
Qed.

Lemma already_saved_prefix_weaken : forall content fc more a amore : str,
  already_saved content (fc ++ more) (a ++ amore) = true ->
  already_saved content fc a = true.
Proof.
  intros content fc more a amore H. unfold already_saved in *.
  apply existsb_exists in H as (entry & Hin & Hboth).
  apply andb_true_iff in Hboth as [Hf Ha].
  apply existsb_exists. exists entry. split; [assumption|].
  apply andb_true_iff. split.
  - apply (contains_app_prefix _ more). unfold field_line in *.
    rewrite <- app_assoc. assumption.
  - apply (contains_app_prefix _ amore). unfold answer_line in *.
    rewrite <- app_assoc. assumption.
Qed.

(** X16: the duplicate check is a substring test, so a stored record
    also stands for every pair made of a prefix of its field context and a
    non-empty prefix of its answer.  The written [Field:], hint and
    [Answer:] lines hold neither a rule of 60 [=] nor a carriage return.
    The save of (Name2, John) appends its block unless the file as read
    already holds a record of the pair; after it, the save of (Name, Jo)
    answers [Already saved] and writes nothing. *)
Theorem save_accepted_answer_prefix_pair_suppressed :
  forall (env : Env) (file : option str)
         (field_context field_more answer answer_more : str)
         (hint timestamp hint' timestamp' : option str),
    let lines := field_line (field_context ++ field_more) ++ [Py.nl]
                 ++ (if Py.truthy (get hint [])
                     then "User Typed (Hint): " ++ get hint [] ++ [Py.nl] else [])
                 ++ answer_line (answer ++ answer_more) in
    answer <> [] ->
    Py.contains rule lines = false ->
    Py.contains [Py.cr] lines = false ->
    let known :=
      match file with
      | Some raw => already_saved (read_text raw) (field_context ++ field_more)
                                  (answer ++ answer_more)
      | None => false
      end in
    let file1 :=
      fst (save_accepted_answer env file
             {| req_fieldContext := Some (field_context ++ field_more);
                req_answer := Some (answer ++ answer_more);
                req_partialInput := hint; req_timestamp := timestamp |}) in
    file1 = (if known then file
             else Some (get file []
                        ++ block (field_context ++ field_more) (get hint [])
                                 (answer ++ answer_more)
                                 (get timestamp (now env))))
    /\ save_accepted_answer env file1
         {| req_fieldContext := Some field_context; req_answer := Some answer;
            req_partialInput := hint'; req_timestamp := timestamp' |}
       = (file1, {| save_status := 200; save_success := true;
                    save_message := Some ("Already saved" : str);
                    save_error := None |}).
Proof.
  intros env file field_context field_more answer answer_more
         hint timestamp hint' timestamp' lines Hanswer Hrule Hcr known file1.
  assert (Hlong : Py.truthy (answer ++ answer_more) = true).
  { destruct answer; [congruence | reflexivity]. }
  assert (Hshort : Py.truthy answer = true).
  { destruct answer; [congruence | reflexivity]. }
  assert (Hfile1 : file1 = (if known then file
                            else Some (get file []
                                       ++ block (field_context ++ field_more) (get hint [])
                                                (answer ++ answer_more)
                                                (get timestamp (now env))))).
  { unfold file1, save_accepted_answer.
    cbn [req_fieldContext req_answer req_partialInput req_timestamp].
    change (get (Some (field_context ++ field_more)) (list_ascii_of_string "Unknown Field"))
      with (field_context ++ field_more).
    change (get (Some (answer ++ answer_more)) []) with (answer ++ answer_more).
    rewrite Hlong. cbn [negb]. fold known. destruct known; reflexivity. }
  split; [exact Hfile1|].
  assert (Hsaved : match file1 with
                   | Some raw => already_saved (read_text raw) field_context answer
                   | None => false
                   end = true).
  { rewrite Hfile1. destruct known eqn:E.
    - unfold known in E. destruct file as [raw|]; [|discriminate].
      apply (already_saved_prefix_weaken _ field_context field_more
               answer answer_more E).
    - apply (already_saved_prefix_pair (get file []) field_context field_more
               (get hint []) answer answer_more); assumption. }
  unfold save_accepted_answer at 1.
  cbn [req_fieldContext req_answer req_partialInput req_timestamp].
  change (get (Some field_context) (list_ascii_of_string "Unknown Field"))
    with field_context.
  change (get (Some answer) []) with answer.
  rewrite Hshort. cbn [negb]. rewrite Hsaved. reflexivity.
Qed.

Lemma save_accepted_answer_prefix_pair_suppressed_witness :
  let env := example_env (Raise "unused") llm_down in
  let file1 :=
    fst (save_accepted_answer env None
           {| req_fieldContext := Some (("Name" : str) ++ ("2" : str));
              req_answer := Some (("Jo" : str) ++ ("hn" : str));
              req_partialInput := None; req_timestamp := None |}) in
  file1 = Some (block "Name2" "" "John" (now env))
  /\ save_accepted_answer env file1
       {| req_fieldContext := Some ("Name" : str); req_answer := Some ("Jo" : str);
          req_partialInput := None; req_timestamp := None |}
     = (file1, {| save_status := 200; save_success := true;
                  save_message := Some ("Already saved" : str);
                  save_error := None |}).
Proof.
  cbv zeta.
  apply (save_accepted_answer_prefix_pair_suppressed
           (example_env (Raise "unused") llm_down) None
           "Name" "2" "Jo" "hn" None None None None);
    [discriminate | vm_compute; reflexivity | vm_compute; reflexivity].
Defined.



(** X17: the log is append-only: neither endpoint ever removes or changes
    what the file holds, and a rejected (400) or duplicate ([Already
    saved]) request leaves the file exactly as it was (a missing file is
    not even created). *)
Theorem accepted_answer_log_append_only :
  forall (env : Env) (file : option str) (req : SaveRequest) (freq : FieldValueRequest),
    (exists suffix,
        get (fst (save_accepted_answer env file req)) [] = get file [] ++ suffix)
    /\ (save_status (snd (save_accepted_answer env file req)) = 400
        \/ save_message (snd (save_accepted_answer env file req))
           = Some ("Already saved" : str) ->
        fst (save_accepted_answer env file req) = file)
    /\ (exists suffix,
          get (fst (save_field_value env file freq)) [] = get file [] ++ suffix)
    /\ (save_status (snd (save_field_value env file freq)) = 400
        \/ save_message (snd (save_field_value env file freq))
           = Some ("Already saved" : str) ->
        fst (save_field_value env file freq) = file).
Proof.
  intros env file req freq. unfold save_accepted_answer, save_field_value.
  repeat split.
  - destruct (negb _); [exists []; cbn; rewrite app_nil_r; reflexivity|].
    destruct (match file with Some _ => _ | None => _ end);
      [exists []; cbn; rewrite app_nil_r; reflexivity|].
    eexists. cbn [fst get]. reflexivity.
  - destruct (negb _); [reflexivity|].
    destruct (match file with Some _ => _ | None => _ end); [reflexivity|].
    cbn. intros [H|H]; discriminate H.
  - destruct (negb _); [exists []; cbn; rewrite app_nil_r; reflexivity|].
    destruct (match file with Some _ => _ | None => _ end);
      [exists []; cbn; rewrite app_nil_r; reflexivity|].
    eexists. cbn [fst get]. reflexivity.
  - destruct (negb _); [reflexivity|].
    destruct (match file with Some _ => _ | None => _ end); [reflexivity|].
    cbn. intros [H|H]; discriminate H.
Qed.

Lemma accepted_answer_log_append_only_witness :
  let env := example_env (Raise "unused") llm_down in
  fst (save_accepted_answer env (Some ("old" : str))
         {| req_fieldContext := Some ("Email" : str); req_answer := None;
            req_partialInput := None; req_timestamp := None |})
  = Some ("old" : str).
Proof.
  cbv zeta.
  apply (proj1 (proj2 (accepted_answer_log_append_only
                         (example_env (Raise "unused") llm_down) (Some ("old" : str))
                         {| req_fieldContext := Some ("Email" : str); req_answer := None;
                            req_partialInput := None; req_timestamp := None |}
                         {| fv_fieldContext := None; fv_value := None;
                            fv_timestamp := None |}))).
  left. reflexivity.
Defined.





(** X19: the two endpoints share the log.  Take a pair with a non-empty
    answer whose written [Field:], hint and [Answer:] lines hold neither a
    rule of 60 [=] nor a carriage return.  [save_accepted_answer] appends
    its block and answers [Accepted answer saved], unless its duplicate
    check already finds the pair in the file as read; after it,
    [save_field_value] for the same field and value answers
    [Already saved] and writes nothing.  The record of the other endpoint
    is what suppresses it: on a file in which the duplicate check of
    [save_field_value] does not find the pair (a missing file for one),
    [save_accepted_answer] does append, and [save_field_value] called
    instead would have appended its own block and answered
    [Field value saved]. *)
Theorem save_field_value_after_accepted_answer :
  forall (env : Env) (file : option str) (req : SaveRequest)
         (timestamp' : option str),
    let field_context := get (req_fieldContext req) ("Unknown Field" : str) in
    let answer := get (req_answer req) [] in
    let partial_input := get (req_partialInput req) [] in
    let timestamp := get (req_timestamp req) (now env) in
    let lines := field_line field_context ++ [Py.nl]
                 ++ (if Py.truthy partial_input
                     then "User Typed (Hint): " ++ partial_input ++ [Py.nl] else [])
                 ++ answer_line answer in
    let freq := {| fv_fieldContext := req_fieldContext req;
                   fv_value := req_answer req;
                   fv_timestamp := timestamp' |} in
    answer <> [] ->
    Py.contains rule lines = false ->
    Py.contains [Py.cr] lines = false ->
    let known :=
      match file with
      | Some raw => already_saved (read_text raw) field_context answer
      | None => false
      end in
    let file1 :=
      if known then file
      else Some (get file [] ++ block field_context partial_input answer timestamp) in
    save_accepted_answer env file req
    = (file1, {| save_status := 200; save_success := true;
                 save_message := Some (if known then "Already saved" : str
                                       else "Accepted answer saved" : str);
                 save_error := None |})
    /\ save_field_value env file1 freq
       = (file1, {| save_status := 200; save_success := true;
                    save_message := Some ("Already saved" : str);
                    save_error := None |})
    /\ (match file with
        | Some raw => field_value_saved (read_text raw) field_context answer
        | None => false
        end = false ->
        known = false
        /\ save_field_value env file freq
           = (Some (get file []
                    ++ field_value_block field_context answer
                                         (get timestamp' (now env))),
              {| save_status := 200; save_success := true;
                 save_message := Some ("Field value saved" : str);
                 save_error := None |})).
Proof.
  intros env file req timestamp' field_context answer partial_input timestamp
         lines freq Hanswer Hrule Hcr known file1.
  assert (Htruthy : Py.truthy answer = true).
  { destruct answer; [congruence | reflexivity]. }
  split; [|split].
  - unfold save_accepted_answer.
    fold field_context. fold answer. fold partial_input. fold timestamp.
    rewrite Htruthy. cbn [negb]. fold known. unfold file1.
    destruct known; reflexivity.
  - assert (Hsaved : match file1 with
                     | Some raw => field_value_saved (read_text raw) field_context answer
                     | None => false
                     end = true).
    { unfold file1. destruct known eqn:E.
      - unfold known in E. destruct file as [raw|]; [|discriminate].
        apply already_saved_field_value_saved. exact E.
      - apply already_saved_field_value_saved.
        apply already_saved_after_append; assumption. }
    unfold save_field_value, freq. cbn [fv_fieldContext fv_value fv_timestamp].
    fold field_context. fold answer. rewrite Htruthy. cbn [negb].
    rewrite Hsaved. reflexivity.
  - intros Hnew. split.
    + unfold known. destruct file as [raw|]; [|reflexivity].
      destruct (already_saved (read_text raw) field_context answer) eqn:E; [|reflexivity].
      rewrite (already_saved_field_value_saved _ _ _ E) in Hnew. discriminate Hnew.
    + unfold save_field_value, freq. cbn [fv_fieldContext fv_value fv_timestamp].
      fold field_context. fold answer. rewrite Htruthy. cbn [negb].
      rewrite Hnew. reflexivity.
Qed.

Lemma save_field_value_after_accepted_answer_witness :
  let env := example_env (Raise "unused") llm_down in
  let req := {| req_fieldContext := Some ("Email" : str);
                req_answer := Some ("jane.doe@example.com" : str);
                req_partialInput := Some ("jane" : str);
                req_timestamp := None |} in
  let freq := {| fv_fieldContext := Some ("Email" : str);
                 fv_value := Some ("jane.doe@example.com" : str);
                 fv_timestamp := None |} in
  let stored := block "Email" "jane" "jane.doe@example.com" (now env) in
  save_accepted_answer env None req
  = (Some stored, {| save_status := 200; save_success := true;
                     save_message := Some ("Accepted answer saved" : str);
                     save_error := None |})
  /\ save_field_value env (Some stored) freq
     = (Some stored, {| save_status := 200; save_success := true;
                        save_message := Some ("Already saved" : str);
                        save_error := None |})
  /\ save_field_value env None freq
     = (Some (field_value_block "Email" "jane.doe@example.com" (now env)),
        {| save_status := 200; save_success := true;
           save_message := Some ("Field value saved" : str); save_error := None |}).
Proof.
  cbv zeta.
  destruct (save_field_value_after_accepted_answer
              (example_env (Raise "unused") llm_down) None
              {| req_fieldContext := Some ("Email" : str);
                 req_answer := Some ("jane.doe@example.com" : str);
                 req_partialInput := Some ("jane" : str);
                 req_timestamp := None |} None
              ltac:(discriminate) ltac:(vm_compute; reflexivity)
              ltac:(vm_compute; reflexivity)) as (Hfirst & Hsecond & Hnew).
  split; [exact Hfirst|]. split; [exact Hsecond|].
  exact (proj2 (Hnew eq_refl)).
Defined.

(* ====================================================================== *)
(** * [debug_docs] *)
(* ====================================================================== *)

Lemma preview_of_length : forall text : str,
  length (preview_of text) <= 203
  /\ (length text <= 200 -> preview_of text = text)
  /\ (200 < length text -> preview_of text = firstn 200 text ++ "...").
Proof.
  intros text. unfold preview_of.
  destruct (Nat.ltb_spec 200 (length text)) as [H|H].
  - split; [|split; [lia | reflexivity]].
    rewrite length_app, length_firstn.
    change (length (list_ascii_of_string "...")) with 3. lia.
  - split; [lia|]. split; [reflexivity | lia].
Qed.

(** X20: [debug_docs] reports the number of all chunks, previews of the
    first five at most, in order, and no preview is longer than 203
    characters: a content of up to 200 characters is shown whole, a
    longer one as its first 200 characters followed by [...]. *)
Theorem debug_docs_previews :
  forall st : State,
    fst (debug_docs st) = length (documents st)
    /\ length (snd (debug_docs st)) = Nat.min 5 (length (documents st))
    /\ map preview_source (snd (debug_docs st))
       = map source (firstn 5 (documents st))
    /\ map preview_chunkIndex (snd (debug_docs st))
       = map chunkIndex (firstn 5 (documents st))
    /\ Forall (fun p => length (content_preview p) <= 203) (snd (debug_docs st))
    /\ forall i doc, i < 5 -> nth_error (documents st) i = Some doc ->
         exists p, nth_error (snd (debug_docs st)) i = Some p
                   /\ (length (content doc) <= 200 -> content_preview p = content doc)
                   /\ (200 < length (content doc) ->
                       content_preview p = firstn 200 (content doc) ++ "...").
Proof.
  intros st. unfold debug_docs. cbn [fst snd].
  split; [reflexivity|]. split; [rewrite length_map; apply length_firstn|].
  split; [rewrite map_map; reflexivity|].
  split; [rewrite map_map; reflexivity|]. split.
  - apply Forall_map. apply Forall_forall. intros doc _. cbn [content_preview].
    apply preview_of_length.
  - intros i doc Hi Hdoc. eexists. split.
    + apply map_nth_error. rewrite nth_error_firstn.
      destruct (Nat.ltb_spec i 5); [exact Hdoc | lia].
    + cbn [content_preview]. split; apply preview_of_length.
Qed.

Lemma debug_docs_previews_witness :
  exists p,
    nth_error (snd (debug_docs (indexed_state "Jane Doe"))) 0 = Some p
    /\ (length ("Jane Doe" : str) <= 200 -> content_preview p = ("Jane Doe" : str)).
Proof.
  destruct (debug_docs_previews (indexed_state "Jane Doe"))
    as (_ & _ & _ & _ & _ & H).
  destruct (H 0 (one_doc "Jane Doe")) as (p & Hp & Hshort & _);
    [lia | reflexivity|].
  exists p. split; assumption.
Defined.
